(** * Homography and multi-view patch geometry: a shallow embedding

    The development follows the Python sources
      scripts/vicreg_dataset.py, scripts/homography.py,
      scripts/homography_from_chessboard.py, scripts/camera_intrinsics.py.

    Conventions of the embedding.
    - numpy floating-point scalars are idealised as real numbers [R]; the
      two places where IEEE behaviour itself is the subject (division by a
      zero [w] in [hom_to_cart], bitwise equality of a propagated
      homography) are stated on binary64 floats.
    - integer pixel coordinates (bounding boxes, gray levels) are [Z].
    - a Python exception is [Raise name], [name] being the class name.
    - OpenCV / LAPACK routines are parameters of the sections using them. *)

From Stdlib Require Import ZArith List Bool Lia Reals Lra Psatz String.
From Stdlib Require Floats.
From stdpp Require Import base list sorting.
Import ListNotations.

Set Default Proof Using "Type".

(* ===================================================================== *)
(** * Part I. The embedding                                               *)
(* ===================================================================== *)

(** ** Python exceptions *)

Inductive result (A : Type) : Type :=
| Ok (a : A)
| Raise (exn : string).
Arguments Ok {A} a.
Arguments Raise {A} exn.

#[global] Instance result_ret : MRet result := fun A a => Ok a.

#[global] Instance result_bind : MBind result := fun A B k m =>
  match m with
  | Ok a => k a
  | Raise e => Raise e
  end.

#[global] Instance result_fmap : FMap result := fun A B f m =>
  match m with
  | Ok a => Ok (f a)
  | Raise e => Raise e
  end.

(** ** Small linear algebra: numpy 3-vectors, 3x3 and 4x4 arrays *)

Open Scope R_scope.

Definition Vec3 : Type := R * R * R.

(** A 3x3 array, stored by rows. *)
Definition Mat3 : Type := Vec3 * Vec3 * Vec3.

Definition vadd (u v : Vec3) : Vec3 :=
  let '(u1, u2, u3) := u in let '(v1, v2, v3) := v in
  (u1 + v1, u2 + v2, u3 + v3).

Definition vsub (u v : Vec3) : Vec3 :=
  let '(u1, u2, u3) := u in let '(v1, v2, v3) := v in
  (u1 - v1, u2 - v2, u3 - v3).

Definition vscale (c : R) (v : Vec3) : Vec3 :=
  let '(v1, v2, v3) := v in (c * v1, c * v2, c * v3).

Definition vdiv (v : Vec3) (c : R) : Vec3 :=
  let '(v1, v2, v3) := v in (v1 / c, v2 / c, v3 / c).

(** [np.dot] of two vectors. *)
Definition dot (u v : Vec3) : R :=
  let '(u1, u2, u3) := u in let '(v1, v2, v3) := v in
  u1 * v1 + u2 * v2 + u3 * v3.

(** [np.cross]. *)
Definition cross (u v : Vec3) : Vec3 :=
  let '(u1, u2, u3) := u in let '(v1, v2, v3) := v in
  (u2 * v3 - u3 * v2, u3 * v1 - u1 * v3, u1 * v2 - u2 * v1).

(** [np.linalg.norm] of a vector (2-norm). *)
Definition norm (v : Vec3) : R := sqrt (dot v v).

Definition eye3 : Mat3 := ((1, 0, 0), (0, 1, 0), (0, 0, 1)).

(** [np.transpose] / [M.T]. *)
Definition transpose (M : Mat3) : Mat3 :=
  let '((a11, a12, a13), (a21, a22, a23), (a31, a32, a33)) := M in
  ((a11, a21, a31), (a12, a22, a32), (a13, a23, a33)).

(** [np.dot(M, v)] / [M @ v]. *)
Definition matvec (M : Mat3) (v : Vec3) : Vec3 :=
  let '(r1, r2, r3) := M in (dot r1 v, dot r2 v, dot r3 v).

(** [A @ B]. *)
Definition matmul (A B : Mat3) : Mat3 :=
  let '(a1, a2, a3) := A in
  let '(b1, b2, b3) := transpose B in
  ((dot a1 b1, dot a1 b2, dot a1 b3),
   (dot a2 b1, dot a2 b2, dot a2 b3),
   (dot a3 b1, dot a3 b2, dot a3 b3)).

Infix "@@" := matmul (at level 40, left associativity).

Definition msub (A B : Mat3) : Mat3 :=
  let '(a1, a2, a3) := A in let '(b1, b2, b3) := B in
  (vsub a1 b1, vsub a2 b2, vsub a3 b3).

Definition mdiv (A : Mat3) (c : R) : Mat3 :=
  let '(a1, a2, a3) := A in (vdiv a1 c, vdiv a2 c, vdiv a3 c).

(** Column vector times row vector, [T @ n.T] for 3x1 arrays. *)
Definition outer (u v : Vec3) : Mat3 :=
  let '(u1, u2, u3) := u in (vscale u1 v, vscale u2 v, vscale u3 v).

Definition det3 (M : Mat3) : R :=
  let '(r1, r2, r3) := M in dot (cross r1 r2) r3.

Definition adjugate (M : Mat3) : Mat3 :=
  let '(r1, r2, r3) := M in
  transpose (cross r2 r3, cross r3 r1, cross r1 r2).

(** [np.linalg.inv]: the exact inverse; a singular argument raises
    [LinAlgError]. *)
Definition np_linalg_inv (M : Mat3) : result Mat3 :=
  if Req_dec_T (det3 M) 0 then Raise "LinAlgError"
  else Ok (mdiv (adjugate M) (det3 M)).

(** A 4x4 array seen through the slices the code takes of it:
    [M[:3, :3]], [M[:3, 3]] and the last row [M[3]]. *)
Record Mat4 := mkMat4 {
  rot : Mat3;
  trans : Vec3;
  bottom : R * R * R * R
}.

(** [np.eye(4)]. *)
Definition eye4 : Mat4 := mkMat4 eye3 (0, 0, 0) (0, 0, 0, 1).

(** [M[:3, :3] = R] and [M[:3, 3] = T], in place. *)
Definition set_rot (M : Mat4) (R_ : Mat3) : Mat4 :=
  mkMat4 R_ (trans M) (bottom M).
Definition set_trans (M : Mat4) (T : Vec3) : Mat4 :=
  mkMat4 (rot M) T (bottom M).

(** ** Camera intrinsics (camera_intrinsics.py) *)

Module CameraIntrinsics.

(** The [camera_intrinsics] entry of the configuration file. *)
Record t := mk { fx : R; fy : R; cx : R; cy : R }.

Definition get_camera_calibration_matrix (self : t)
  : result (Mat3 * Mat3) :=
  let K : Mat3 := ((fx self, 0, cx self), (0, fy self, cy self), (0, 0, 1)) in
  K_inv ← np_linalg_inv K;
  Ok (K, K_inv).

End CameraIntrinsics.

(** ** Homography of a relative motion (homography_utils.py) *)

(** Modelled from the spec: [compute_homography_from_rt] (the spec's
    synthesizeHomography) lives in homography_utils.py, which is not among
    the sources.  Spec 4.2: "builds the homography induced by a relative
    rigid motion of a plane with known normal/distance, via
    H = K (R_rel - (T_rel normal^t)/distance) K^-1 ... Fails with
    DecompositionError if distance is zero"; spec 4.1: the inverse is
    "computed by direct matrix inversion; fails with SingularMatrixError". *)
Definition compute_homography_from_rt
    (K R_rel : Mat3) (T_rel plane_normal : Vec3) (plane_distance : R)
  : result Mat3 :=
  if Req_dec_T plane_distance 0 then Raise "DecompositionError"
  else if Req_dec_T (det3 K) 0 then Raise "SingularMatrixError"
  else
    Ok (K @@ msub R_rel (mdiv (outer T_rel plane_normal) plane_distance)
          @@ mdiv (adjugate K) (det3 K)).

(** ** Bounding boxes (vicreg_dataset.py, does_overlap) *)

Module BBox.

(** [xmin, ymin, xmax, ymax], integers ([int(np.min ...)]). *)
Record t := mk { xmin : Z; ymin : Z; xmax : Z; ymax : Z }.

Definition does_overlap (cur_bbox past_bbox : t) : bool :=
  let '(mk x_min_cur y_min_cur x_max_cur y_max_cur) := cur_bbox in
  let '(mk x_min_past y_min_past x_max_past y_max_past) := past_bbox in
  negb ((x_max_cur <? x_min_past)%Z || (x_max_past <? x_min_cur)%Z ||
        (y_max_cur <? y_min_past)%Z || (y_max_past <? y_min_cur)%Z).

End BBox.

(** ** Rasters *)

(** A pixel of an 8-bit colour raster: its B, G, R channels. *)
Definition Pixel : Type := (Z * Z * Z)%type.

(** An image, as its rows of pixels. *)
Abbreviation Image := (list (list Pixel)).

(** [img.shape] of a colour raster: (rows, columns, 3). *)
Definition shape (img : Image) : list nat :=
  [length img; length (hd [] img); 3%nat].

(** ** The robot data source and the Python store *)

(** Modelled from the spec: [RobotDataAtTimestep]
    (robot_data_at_timestep.py is not among the sources).  Spec 6: it
    "exposes timestepCount() -> int, imageAt(t) -> raster, poseAt(t) ->
    4x4 rigid transform", an indexed sequence.  The spec does not say
    whether the array handed out is the source's own.  In this store it
    is: the pose handed out for timestep [t] is the [t]-th matrix object
    of the sequence, so writing through [cur_rt[:3, 3]] writes into it;
    the statements that depend on this say so.  The source that derives a
    new array at each call is [Derived], below. *)
Record Frame := mkFrame { image : Image; odom : Mat4 }.

Abbreviation RobotData := (list Frame).

(** Python code running against the data source: it may update the store
    and either returns or raises. *)
Definition Py (A : Type) : Type := RobotData -> RobotData * result A.

#[global] Instance Py_ret : MRet Py := fun A a s => (s, Ok a).

#[global] Instance Py_bind : MBind Py := fun A B k m s =>
  match m s with
  | (s', Ok a) => k a s'
  | (s', Raise e) => (s', Raise e)
  end.

Definition lift {A} (r : result A) : Py A := fun s => (s, r).

(** A Python [for] loop over [xs] threading the local variable [a]. *)
Fixpoint foldM {A X} (body : A -> X -> Py A) (a : A) (xs : list X) : Py A :=
  match xs with
  | [] => mret a
  | x :: xs' => a' ← body a x; foldM body a' xs'
  end.

(** [range(a, b)]. *)
Definition range (a b : nat) : list nat := seq a (b - a).

Definition getNTimesteps : Py nat := fun s => (s, Ok (length s)).

Definition getImageAtTimestep (t : nat) : Py Image := fun s =>
  (s, match s !! t with
      | Some f => Ok (image f)
      | None => Raise "IndexError"
      end).

(** The returned value is the reference to the pose matrix of timestep
    [t]; references are the indices of the sequence. *)
Definition getOdomAtTimestep (t : nat) : Py nat := fun s =>
  (s, match s !! t with
      | Some _ => Ok t
      | None => Raise "IndexError"
      end).

(** Reading the numpy views [rt[:3, :3]] and [rt[:3, 3]] of the matrix
    referenced by [rt]. *)
Definition view_rot (rt : nat) : Py Mat3 := fun s =>
  (s, match s !! rt with
      | Some f => Ok (rot (odom f))
      | None => Raise "IndexError"
      end).

Definition view_trans (rt : nat) : Py Vec3 := fun s =>
  (s, match s !! rt with
      | Some f => Ok (trans (odom f))
      | None => Raise "IndexError"
      end).

(** [T += v] where [T] is the view [rt[:3, 3]]: an in-place update of the
    matrix referenced by [rt]. *)
Definition iadd_trans (rt : nat) (v : Vec3) : Py unit := fun s =>
  (alter (fun f => mkFrame (image f)
                     (set_trans (odom f) (vadd (trans (odom f)) v))) rt s,
   Ok tt).

(** [np.min] / [np.max] of a one-dimensional array. *)
Definition np_min (xs : list R) : result R :=
  match xs with
  | [] => Raise "ValueError"
  | x :: xs' => Ok (fold_left Rmin xs' x)
  end.

Definition np_max (xs : list R) : result R :=
  match xs with
  | [] => Raise "ValueError"
  | x :: xs' => Ok (fold_left Rmax xs' x)
  end.

(** [int(x)]: truncation towards zero. *)
Definition np_int (x : R) : Z :=
  if Rle_dec 0 x then Int_part x else (- Int_part (- x))%Z.

(** ** The temporal patch sampler (vicreg_dataset.py) *)

(** Static transform offset from odometry to camera frame. *)
Definition camera_offset : Vec3 := (0.2286, 0, 0.5715).

Section ComputeVicRegData.

(** OpenCV collaborators and the absent homography_utils helper. *)
Variable warpPerspective : Image -> Mat3 -> nat * nat -> Image.
Variable resize : Image -> nat * nat -> Image.
Variable perspectiveTransform : list (R * R) -> Mat3 -> list (R * R).
Variable compute_homography_from_rt :
  Mat3 -> Mat3 -> Vec3 -> Vec3 -> R -> result Mat3.

Variable H K : Mat3.
Variable plane_normal : Vec3.
Variable plane_distance : R.

(** Lines 53-58: the past-to-current homography and its composition
    with [H]. *)
Definition homography_past_to_patch
    (R_cur : Mat3) (T_cur : Vec3) (R_past : Mat3) (T_past : Vec3)
  : result (Mat3 * Mat3) :=
  let R_rel := transpose R_cur @@ R_past in
  let T_rel := matvec (transpose R_cur) (vsub T_past T_cur) in
  H_past2cur ← compute_homography_from_rt K R_rel T_rel
                 plane_normal plane_distance;
  let H_past2patch := H @@ H_past2cur in
  Ok (H_past2cur, H_past2patch).

(** Lines 60-73: the bounding box of the transformed patch corners. *)
Definition past_bounding_box (patch_size : nat * nat) (H_past2cur : Mat3)
  : result BBox.t :=
  let past_bbox_corners :=
    [(0, 0); (INR (fst patch_size), 0);
     (INR (fst patch_size), INR (snd patch_size));
     (0, INR (snd patch_size))] in
  let transformed_corners :=
    perspectiveTransform past_bbox_corners H_past2cur in
  x_min ← np_int <$> np_min (fst <$> transformed_corners);
  y_min ← np_int <$> np_min (snd <$> transformed_corners);
  x_max ← np_int <$> np_max (fst <$> transformed_corners);
  y_max ← np_int <$> np_max (snd <$> transformed_corners);
  Ok (BBox.mk x_min y_min x_max y_max).

(** [cv2.warpPerspective] followed by the shape check of lines 33-34 and
    79-80. *)
Definition warp_patch (img : Image) (M : Mat3) (patch_size : nat * nat)
  : Image :=
  let patch := warpPerspective img M patch_size in
  if decide (shape patch ≠ [fst patch_size; snd patch_size])
  then resize patch patch_size
  else patch.

(** Lines 47-73 of the loop over [past_hist]: the past frame is read,
    its translation is offset in place, and its bounding box in the
    current patch is computed. *)
Definition past_frame
    (patch_size : nat * nat) (cur_rt past_timestep : nat)
  : Py (Image * Mat3 * BBox.t) :=
  past_image ← getImageAtTimestep past_timestep;
  past_rt ← getOdomAtTimestep past_timestep;
  _ ← iadd_trans past_rt camera_offset;
  R_cur ← view_rot cur_rt;
  T_cur ← view_trans cur_rt;
  R_past ← view_rot past_rt;
  T_past ← view_trans past_rt;
  '(H_past2cur, H_past2patch) ←
    lift (homography_past_to_patch R_cur T_cur R_past T_past);
  past_bbox ← lift (past_bounding_box patch_size H_past2cur);
  mret (past_image, H_past2patch, past_bbox).

(** The body of the loop over [past_hist] (lines 43-81). *)
Definition past_iteration
    (patch_size : nat * nat) (timestep cur_rt : nat) (cur_bbox : BBox.t)
    (timestep_patches : list Image) (past_hist : nat)
  : Py (list Image) :=
  if (timestep <? past_hist)%nat then mret timestep_patches
  else
    let past_timestep := (timestep - past_hist)%nat in
    '(past_image, H_past2patch, past_bbox) ←
      past_frame patch_size cur_rt past_timestep;
    if BBox.does_overlap cur_bbox past_bbox
    then mret (timestep_patches
                 ++ [warp_patch past_image H_past2patch patch_size])
    else mret timestep_patches.

(** The body of the loop over [timestep] (lines 21-83). *)
Definition timestep_iteration
    (history_size : nat) (patch_size : nat * nat)
    (patches : list (list Image)) (timestep : nat)
  : Py (list (list Image)) :=
  cur_image ← getImageAtTimestep timestep;
  cur_rt ← getOdomAtTimestep timestep;
  _ ← iadd_trans cur_rt camera_offset;
  let cur_patch := warp_patch cur_image H patch_size in
  let cur_bbox :=
    BBox.mk 0 0 (Z.of_nat (fst patch_size)) (Z.of_nat (snd patch_size)) in
  timestep_patches ←
    foldM (past_iteration patch_size timestep cur_rt cur_bbox)
          [cur_patch] (range 1 history_size);
  mret (patches ++ [timestep_patches]).

Definition ComputeVicRegData (history_size : nat) (patch_size : nat * nat)
  : Py (list (list Image)) :=
  n_timesteps ← getNTimesteps;
  foldM (timestep_iteration history_size patch_size) []
        (range history_size n_timesteps).

End ComputeVicRegData.

(** ** The sampler against a source that derives its poses *)

Module Derived.

(** Modelled from the spec: [RobotDataAtTimestep]
    (robot_data_at_timestep.py is not among the sources).  Spec 3:
    "Pose(t): 4x4 rigid transform per timestep from an external odometry
    source; read-only input, indexed by integer timestep"; spec 6:
    "poseAt(t) -> 4x4 rigid transform (odometry-derived)".  The source
    keeps one record per timestep, an image and the pose its odometry
    stands for; [getOdomAtTimestep] derives the 4x4 array from the record
    each time it is called, and the array is a new one.  [arrays] are the
    arrays derived so far, in the order they were made; an array is
    referred to by its place in that list. *)
Record World := mkWorld {
  source : list Frame;
  arrays : list Mat4
}.

Definition Py (A : Type) : Type := World -> World * result A.

#[global] Instance Py_ret : MRet Py := fun A a w => (w, Ok a).

#[global] Instance Py_bind : MBind Py := fun A B k m w =>
  match m w with
  | (w', Ok a) => k a w'
  | (w', Raise e) => (w', Raise e)
  end.

Definition lift {A} (r : result A) : Py A := fun w => (w, r).

Fixpoint foldM {A X} (body : A -> X -> Py A) (a : A) (xs : list X) : Py A :=
  match xs with
  | [] => mret a
  | x :: xs' => a' ← body a x; foldM body a' xs'
  end.

Definition getNTimesteps : Py nat := fun w => (w, Ok (length (source w))).

Definition getImageAtTimestep (t : nat) : Py Image := fun w =>
  (w, match source w !! t with
      | Some f => Ok (image f)
      | None => Raise "IndexError"
      end).

(** The 4x4 array is built from the record of timestep [t]; the value
    returned refers to it. *)
Definition getOdomAtTimestep (t : nat) : Py nat := fun w =>
  match source w !! t with
  | Some f => (mkWorld (source w) (arrays w ++ [odom f]),
               Ok (length (arrays w)))
  | None => (w, Raise "IndexError")
  end.


Definition view_rot (rt : nat) : Py Mat3 := fun w =>
  (w, match arrays w !! rt with
      | Some M => Ok (rot M)
      | None => Raise "IndexError"
      end).

Definition view_trans (rt : nat) : Py Vec3 := fun w =>
  (w, match arrays w !! rt with
      | Some M => Ok (trans M)
      | None => Raise "IndexError"
      end).

(** [T += v] where [T] is the view [rt[:3, 3]]. *)
Definition iadd_trans (rt : nat) (v : Vec3) : Py unit := fun w =>
  (mkWorld (source w)
           (alter (fun M => set_trans M (vadd (trans M) v)) rt (arrays w)),
   Ok tt).

Section ComputeVicRegData.

Variable warpPerspective : Image -> Mat3 -> nat * nat -> Image.
Variable resize : Image -> nat * nat -> Image.
Variable perspectiveTransform : list (R * R) -> Mat3 -> list (R * R).
Variable compute_homography_from_rt :
  Mat3 -> Mat3 -> Vec3 -> Vec3 -> R -> result Mat3.

Variable H K : Mat3.
Variable plane_normal : Vec3.
Variable plane_distance : R.

(** Lines 47-73. *)
Definition past_frame
    (patch_size : nat * nat) (cur_rt past_timestep : nat)
  : Py (Image * Mat3 * BBox.t) :=
  past_image ← getImageAtTimestep past_timestep;
  past_rt ← getOdomAtTimestep past_timestep;
  _ ← iadd_trans past_rt camera_offset;
  R_cur ← view_rot cur_rt;
  T_cur ← view_trans cur_rt;
  R_past ← view_rot past_rt;
  T_past ← view_trans past_rt;
  '(H_past2cur, H_past2patch) ←
    lift (homography_past_to_patch compute_homography_from_rt H K
            plane_normal plane_distance R_cur T_cur R_past T_past);
  past_bbox ← lift (past_bounding_box perspectiveTransform patch_size
                      H_past2cur);
  mret (past_image, H_past2patch, past_bbox).

(** The body of the loop over [past_hist] (lines 43-81). *)
Definition past_iteration
    (patch_size : nat * nat) (timestep cur_rt : nat) (cur_bbox : BBox.t)
    (timestep_patches : list Image) (past_hist : nat)
  : Py (list Image) :=
  if (timestep <? past_hist)%nat then mret timestep_patches
  else
    let past_timestep := (timestep - past_hist)%nat in
    '(past_image, H_past2patch, past_bbox) ←
      past_frame patch_size cur_rt past_timestep;
    if BBox.does_overlap cur_bbox past_bbox
    then mret (timestep_patches
                 ++ [warp_patch warpPerspective resize past_image
                       H_past2patch patch_size])
    else mret timestep_patches.

(** The body of the loop over [timestep] (lines 21-83). *)
Definition timestep_iteration
    (history_size : nat) (patch_size : nat * nat)
    (patches : list (list Image)) (timestep : nat)
  : Py (list (list Image)) :=
  cur_image ← getImageAtTimestep timestep;
  cur_rt ← getOdomAtTimestep timestep;
  _ ← iadd_trans cur_rt camera_offset;
  let cur_patch := warp_patch warpPerspective resize cur_image H patch_size in
  let cur_bbox :=
    BBox.mk 0 0 (Z.of_nat (fst patch_size)) (Z.of_nat (snd patch_size)) in
  timestep_patches ←
    foldM (past_iteration patch_size timestep cur_rt cur_bbox)
          [cur_patch] (range 1 history_size);
  mret (patches ++ [timestep_patches]).

Definition ComputeVicRegData (history_size : nat) (patch_size : nat * nat)
  : Py (list (list Image)) :=
  n_timesteps ← getNTimesteps;
  foldM (timestep_iteration history_size patch_size) []
        (range history_size n_timesteps).

End ComputeVicRegData.

End Derived.

(** ** The grid of patches (vicreg_dataset.py) *)

(** [math.sqrt]: a negative argument raises [ValueError]. *)
Definition math_sqrt (x : R) : result R :=
  if Rlt_dec x 0 then Raise "ValueError" else Ok (sqrt x).

(** [math.ceil]. *)
Definition math_ceil (x : R) : Z := (- Int_part (- x))%Z.

(** Unpacking a tuple into three names. *)
Definition unpack3 {A} (t : list A) : result (A * A * A) :=
  match t with
  | [a; b; c] => Ok (a, b, c)
  | _ => Raise "ValueError"
  end.

(** [row.shape] of a row of a colour raster: (columns, 3). *)
Definition row_shape (row : list Pixel) : list nat := [length row; 3%nat].

(** Lines 100-109 of [stitch_patches_in_grid]: the grid size and the
    patch dimensions, worked out before the canvas is made.  [patches] is
    the patch list of one timestep, as [validate_vicreg_data] passes it;
    [patches[0]] is a raster and [patches[0][0]] its first row. *)
Definition stitch_patches_in_grid_dimensions
    (patches : list Image) (grid_size : option (Z * Z))
  : result (Z * Z * nat * nat) :=
  '(grid_rows, grid_cols) ←
    match grid_size with
    | None =>
        let num_patches := (Z.of_nat (length patches) - 1)%Z in
        root ← math_sqrt (IZR num_patches);
        let grid_cols := math_ceil root in
        quotient ← (if decide (grid_cols = 0%Z)
                    then Raise "ZeroDivisionError"
                    else Ok (IZR num_patches / IZR grid_cols));
        let grid_rows := math_ceil quotient in
        Ok (grid_rows, grid_cols)
    | Some size => Ok size
    end;
  first_patch ← match patches !! 0%nat with
                | Some patch => Ok patch
                | None => Raise "IndexError"
                end;
  first_row ← match (first_patch : list (list Pixel)) !! 0%nat with
              | Some row => Ok row
              | None => Raise "IndexError"
              end;
  '(patch_height, patch_width, _) ← unpack3 (row_shape first_row);
  Ok (grid_rows, grid_cols, patch_height, patch_width).

(** Spec 4.4, [propagate]: lines 26-29 and 50-58 applied to two pose
    matrices, with the homography of the relative motion as the spec
    gives it. *)
Definition propagate
    (calibratedH K : Mat3) (RT_reference RT_other : Mat4)
    (normal : Vec3) (distance : R) : result Mat3 :=
  let R_cur := rot RT_reference in
  let T_cur := vadd (trans RT_reference) camera_offset in
  let R_past := rot RT_other in
  let T_past := vadd (trans RT_other) camera_offset in
  snd <$> homography_past_to_patch compute_homography_from_rt
            calibratedH K normal distance R_cur T_cur R_past T_past.

(** ** The propagation in binary64 *)

(** numpy computes lines 26-29 and 50-58 on float64 arrays.  The same
    operations on binary64 numbers: every product, sum, difference and
    quotient is rounded, and the three products of an entry of [A @ B] are
    summed from left to right. *)
Module Binary64.
Import PrimFloat.
Local Open Scope float_scope.

Definition Vec3 : Type := float * float * float.

Definition Mat3 : Type := Vec3 * Vec3 * Vec3.

Definition vadd (u v : Vec3) : Vec3 :=
  let '(u1, u2, u3) := u in let '(v1, v2, v3) := v in
  (u1 + v1, u2 + v2, u3 + v3).

Definition vsub (u v : Vec3) : Vec3 :=
  let '(u1, u2, u3) := u in let '(v1, v2, v3) := v in
  (u1 - v1, u2 - v2, u3 - v3).

Definition vscale (c : float) (v : Vec3) : Vec3 :=
  let '(v1, v2, v3) := v in (c * v1, c * v2, c * v3).

Definition vdiv (v : Vec3) (c : float) : Vec3 :=
  let '(v1, v2, v3) := v in (v1 / c, v2 / c, v3 / c).

Definition dot (u v : Vec3) : float :=
  let '(u1, u2, u3) := u in let '(v1, v2, v3) := v in
  u1 * v1 + u2 * v2 + u3 * v3.

Definition cross (u v : Vec3) : Vec3 :=
  let '(u1, u2, u3) := u in let '(v1, v2, v3) := v in
  (u2 * v3 - u3 * v2, u3 * v1 - u1 * v3, u1 * v2 - u2 * v1).

Definition transpose (M : Mat3) : Mat3 :=
  let '((a11, a12, a13), (a21, a22, a23), (a31, a32, a33)) := M in
  ((a11, a21, a31), (a12, a22, a32), (a13, a23, a33)).

Definition matvec (M : Mat3) (v : Vec3) : Vec3 :=
  let '(r1, r2, r3) := M in (dot r1 v, dot r2 v, dot r3 v).

Definition matmul (A B : Mat3) : Mat3 :=
  let '(a1, a2, a3) := A in
  let '(b1, b2, b3) := transpose B in
  ((dot a1 b1, dot a1 b2, dot a1 b3),
   (dot a2 b1, dot a2 b2, dot a2 b3),
   (dot a3 b1, dot a3 b2, dot a3 b3)).

Definition msub (A B : Mat3) : Mat3 :=
  let '(a1, a2, a3) := A in let '(b1, b2, b3) := B in
  (vsub a1 b1, vsub a2 b2, vsub a3 b3).

Definition mdiv (A : Mat3) (c : float) : Mat3 :=
  let '(a1, a2, a3) := A in (vdiv a1 c, vdiv a2 c, vdiv a3 c).

Definition outer (u v : Vec3) : Mat3 :=
  let '(u1, u2, u3) := u in (vscale u1 v, vscale u2 v, vscale u3 v).

Definition det3 (M : Mat3) : float :=
  let '(r1, r2, r3) := M in dot (cross r1 r2) r3.

Definition adjugate (M : Mat3) : Mat3 :=
  let '(r1, r2, r3) := M in
  transpose (cross r2 r3, cross r3 r1, cross r1 r2).

(** The nearest binary64 numbers to 0.2286 and 0.5715. *)
Definition camera_offset : Vec3 :=
  (0x1.d42c3c9eecbfbp-3, 0, 0x1.249ba5e353f7dp-1).

(** Modelled from the spec: [compute_homography_from_rt], as above, on
    binary64 numbers. *)
Definition compute_homography_from_rt
    (K R_rel : Mat3) (T_rel plane_normal : Vec3) (plane_distance : float)
  : result Mat3 :=
  if plane_distance =? 0 then Raise "DecompositionError"
  else if det3 K =? 0 then Raise "SingularMatrixError"
  else
    Ok (matmul
          (matmul K (msub R_rel
                       (mdiv (outer T_rel plane_normal) plane_distance)))
          (mdiv (adjugate K) (det3 K))).

(** Spec 4.4, [propagate], on binary64 numbers: lines 26-29 and 50-58
    applied to the rotation blocks and translation columns of two
    poses. *)
Definition propagate
    (calibratedH K : Mat3) (R_reference : Mat3) (T_reference : Vec3)
    (R_other : Mat3) (T_other : Vec3) (normal : Vec3) (distance : float)
  : result Mat3 :=
  let R_cur := R_reference in
  let T_cur := vadd T_reference camera_offset in
  let R_past := R_other in
  let T_past := vadd T_other camera_offset in
  let R_rel := matmul (transpose R_cur) R_past in
  let T_rel := matvec (transpose R_cur) (vsub T_past T_cur) in
  H_past2cur ← compute_homography_from_rt K R_rel T_rel normal distance;
  let H_past2patch := matmul calibratedH H_past2cur in
  Ok H_past2patch.

End Binary64.

(** ** homography.py *)

Module Homography.

(** [compute_model_chessboard]: a zero array of [rows * cols] points is
    filled in place, entry [row * cols + col] receiving first its
    coordinate 0, then its coordinate 1. *)
Definition compute_model_chessboard (rows cols : nat) : list (R * R) :=
  let model_chessboard := replicate (rows * cols) (0, 0) in
  let midpoint_row := INR rows / 2 in
  let midpoint_col := INR cols / 2 in
  fold_left (fun mc row =>
    fold_left (fun mc col =>
      let mc := alter (fun p => ((INR col + 0.5) - midpoint_col, p.2))
                      (row * cols + col)%nat mc in
      alter (fun p => (p.1, (INR row + 0.5) - midpoint_row))
            (row * cols + col)%nat mc)
      (range 0 cols) mc)
    (range 0 rows) model_chessboard.

Section HomToCart.
(** The scalar division of the array's element type. *)
Context {A : Type} (divide : A -> A -> A).

(** [hom_to_cart]: [points] is an array of rows (the last one holding
    [w]); [points / w] broadcasts [w] over the rows. *)
Definition hom_to_cart (points : list (list A)) : result (list (list A)) :=
  match last points with
  | None => Raise "IndexError"
  | Some w =>
      let cart_pts := (fun row => zip_with divide row w) <$> points in
      Ok (take (length cart_pts - 1) cart_pts)
  end.
End HomToCart.

Section Decompose.
(** [np.linalg.svd]: returns [U], the singular values and [V^H]. *)
Variable svd : Mat3 -> Mat3 * Vec3 * Mat3.

(** The 3x3 array handed to the singular value decomposition, and the
    translation, of [decompose_homography_return_rt]. *)
Definition scaled_frame (H K_inv : Mat3) : Mat3 * Vec3 :=
  let H := transpose H in
  let '(h1, h2, h3) := H in
  let L := 1 / norm (matvec K_inv h1) in
  let r1 := vscale L (matvec K_inv h1) in
  let r2 := vscale L (matvec K_inv h2) in
  let r3 := cross r1 r2 in
  let T := vscale L (matvec K_inv h3) in
  ((r1, r2, r3), T).

Definition decompose_homography_return_rt (H K_inv : Mat3) : Mat4 :=
  let '(R_, T) := scaled_frame H K_inv in
  let '(U, S_, V) := svd R_ in
  let R_ := U @@ V in
  let M := eye4 in
  let M := set_rot M R_ in
  let M := set_trans M T in
  M.
End Decompose.

End Homography.

(** ** homography_utils.py: the model chessboard *)

(** Modelled from the spec: [compute_model_chessboard_2d] lives in
    homography_utils.py, which is not among the sources.  Spec 3 and 4.2:
    "laid out row-major, centered or corner-anchored -- a pure function of
    (rows, cols, tile_width, centering flag)", "deterministic grid
    generation".  The centred grid is the one of
    [Homography.compute_model_chessboard], at the given tile width. *)
Definition compute_model_chessboard_2d
    (rows cols : nat) (tile_width : R) (center_at_zero : bool)
  : list (R * R) :=
  let grid :=
    if center_at_zero then Homography.compute_model_chessboard rows cols
    else row ← range 0 rows; col ← range 0 cols; [(INR col, INR row)] in
  (fun p => (p.1 * tile_width, p.2 * tile_width)) <$> grid.

(** [np.mean(points, axis=0)]. *)
Definition sum_list (xs : list R) : R := fold_right Rplus 0 xs.

Definition np_mean (points : list (R * R)) : R * R :=
  (sum_list (fst <$> points) / INR (length points),
   sum_list (snd <$> points) / INR (length points)).

(** ** homography_from_chessboard.py *)

(** [sorted(l, key=key)] and [l.sort(key=key)]: the stable sort. *)
Fixpoint insert_by {A} (key : A -> R) (x : A) (l : list A) : list A :=
  match l with
  | [] => [x]
  | y :: l' =>
      if Rlt_dec (key y) (key x) then y :: insert_by key x l'
      else x :: y :: l'
  end.

Definition sorted {A} (key : A -> R) (l : list A) : list A :=
  foldr (insert_by key) [] l.

(** [sorted(l, reverse=True)] on integers. *)
Fixpoint insert_desc (x : Z) (l : list Z) : list Z :=
  match l with
  | [] => [x]
  | y :: l' =>
      if (x <? y)%Z then y :: insert_desc x l' else x :: y :: l'
  end.

Definition sorted_reverse (l : list Z) : list Z := foldr insert_desc [] l.

(** [np.arange(a, b)]. *)
Definition arange (a b : Z) : list Z :=
  (fun i => (a + Z.of_nat i)%Z) <$> seq 0 (Z.to_nat (b - a)).

(** [np.linalg.norm] of a point difference. *)
Definition norm2 (p : R * R) : R := sqrt (p.1 * p.1 + p.2 * p.2).

Definition psub (p q : R * R) : R * R := (p.1 - q.1, p.2 - q.2).

(** [l[a:b]]. *)
Definition slice {A} (l : list A) (a b : nat) : list A :=
  take (b - a) (drop a l).

Module HomographyFromChessboardImage.

(** The rows of [chessboard_tile_width]: the corners sorted on the
    vertical coordinate, cut into groups of [cb_cols]. *)
Definition corner_rows (corners : list (R * R)) (cb_cols : nat)
  : list (list (R * R)) :=
  let sorted_corners := sorted snd corners in
  let interval := cb_cols in
  (fun i => slice sorted_corners (i * interval) ((i + 1) * interval))
    <$> range 0 (length sorted_corners / interval).

(** The loop over [i] of one row. *)
Definition row_tile_width (cb_tile_width : R) (row : list (R * R)) : R :=
  let row := sorted fst row in
  fold_left (fun cb_tile_width i =>
      let distance :=
        norm2 (psub (nth i row (0, 0)) (nth (i + 1) row (0, 0))) in
      Rmax cb_tile_width distance)
    (range 0 (length row - 1)) cb_tile_width.

Definition chessboard_tile_width (corners : list (R * R)) (cb_cols : nat)
  : result R :=
  if decide (cb_cols = 0%nat) then Raise "ZeroDivisionError"
  else Ok (fold_left row_tile_width (corner_rows corners cb_cols) 0).

(** The attributes of the constructed object. *)
Record t := mk {
  image : Image;
  cb_rows : nat;
  cb_cols : nat;
  corners : list (R * R);
  cb_tile_width : Z;
  H : Mat3;
  K : Mat3;
  RT : Mat4;
  plane_normal : Vec3;
  plane_distance : R;
  transformed_model_chessboard_2d : list (R * R);
  model_cb_3d_to_2d : list (R * R)
}.

Section Init.
(** OpenCV collaborators. [findChessboardCorners] returns [ret] and
    the corners, [None] when no board is found. *)
Variable cvtColor_BGR2GRAY : Image -> list (list Z).
Variable findChessboardCorners :
  list (list Z) -> nat * nat -> bool * option (list (R * R)).
Variable findHomography : list (R * R) -> list (R * R) -> Mat3.
(** The configuration file read by [CameraIntrinsics()]. *)
Variable camera_config : result CameraIntrinsics.t.
(** homography_utils helpers that are not among the sources. *)
Variable decompose_homography : Mat3 -> Mat3 -> result (Mat4 * Vec3 * R).
Variable compute_model_chessboard_3d :
  nat -> nat -> Z -> bool -> list (R * R * R * R).
Variable cart_to_hom : list (R * R) -> list Vec3.
Variable hom_to_cart : list Vec3 -> list (R * R).

(** [transform_points]. *)
Definition transform_points (points : list (R * R)) (H : Mat3)
  : list (R * R) :=
  let hom_points := cart_to_hom points in
  let transformed_points := matvec H <$> hom_points in
  hom_to_cart transformed_points.

(** [K @ RT[:3] @ model_chessboard_3d.T] followed by [hom_to_cart]. *)
Definition validate_chessboard_3d (K : Mat3) (RT : Mat4)
    (model_chessboard_3d : list (R * R * R * R)) : list (R * R) :=
  let IEK :=
    (fun p : R * R * R * R =>
       let '(x, y, z, w) := p in
       matvec K (vadd (matvec (rot RT) (x, y, z)) (vscale w (trans RT))))
      <$> model_chessboard_3d in
  hom_to_cart IEK.

(** [__init__]. *)
Definition init (image : Image) (cb_rows cb_cols : nat) : result t :=
  let gray := cvtColor_BGR2GRAY image in
  let '(ret, corners) := findChessboardCorners gray (cb_cols, cb_rows) in
  (* corners.reshape(-1, 2) *)
  corners ← match corners with
            | Some c => Ok c
            | None => Raise "AttributeError"
            end;
  cb_tile_width ← np_int <$> chessboard_tile_width corners cb_cols;
  let model_chessboard_2d :=
    compute_model_chessboard_2d cb_rows cb_cols (IZR cb_tile_width) true in
  let H := findHomography model_chessboard_2d corners in
  config ← camera_config;
  '(K, K_inv) ← CameraIntrinsics.get_camera_calibration_matrix config;
  '(RT, plane_normal, plane_distance) ← decompose_homography H K;
  let transformed_model_chessboard_2d :=
    transform_points model_chessboard_2d H in
  let model_chessboard_3d :=
    compute_model_chessboard_3d cb_rows cb_cols cb_tile_width true in
  let model_cb_3d_to_2d :=
    validate_chessboard_3d K RT model_chessboard_3d in
  Ok (mk image cb_rows cb_cols corners cb_tile_width H K RT
         plane_normal plane_distance
         transformed_model_chessboard_2d model_cb_3d_to_2d).
End Init.

Section Mosaic.
(** [cv2.cvtColor(_, COLOR_BGR2GRAY)] acts pixel by pixel. *)
Variable gray_of : Pixel -> Z.
Variable warpPerspective : Image -> Mat3 -> nat * nat -> Image.
Variable resize : Image -> nat * nat -> Image.
Variable hconcat : list Image -> Image.
Variable vconcat : list Image -> Image.

Definition cvtColor (img : Image) : list (list Z) :=
  (fun row : list Pixel => gray_of <$> row) <$> (img : list (list Pixel)).

(** [np.any(gray[row, :] > threshold)]. *)
Definition row_has_content (gray : list (list Z)) (threshold : Z)
    (row : nat) : bool :=
  existsb (fun v => (threshold <? v)%Z) (nth row gray []).

(** The loop [for row in range(h - 1, -1, -1)] with its [break]. *)
Fixpoint scan_rows (gray : list (list Z)) (threshold : Z)
    (crop_row : nat) (rows : list nat) : nat :=
  match rows with
  | [] => crop_row
  | row :: rest =>
      if row_has_content gray threshold row then (row + 1)%nat
      else scan_rows gray threshold crop_row rest
  end.

Definition crop_bottom_to_content (img : Image) (threshold : Z) : Image :=
  let gray := cvtColor img in
  let h := length gray in
  let crop_row := h in
  let crop_row := scan_rows gray threshold crop_row (reverse (range 0 h)) in
  take crop_row img.

(** [process_patch]. *)
Definition process_patch (img : Image) (H : Mat3) (patch_size : nat * nat)
    (shift : Z * Z) : Image :=
  let '(sx, sy) := shift in
  let T_shift : Mat3 := ((1, 0, IZR sx), (0, 1, IZR sy), (0, 0, 1)) in
  let H_shifted := T_shift @@ H in
  let cur_patch := warpPerspective img H_shifted patch_size in
  if decide (take 2 (shape cur_patch) ≠ [patch_size.1; patch_size.2])
  then resize cur_patch patch_size
  else cur_patch.

Definition shift_x : list Z :=
  let num_patches_x := 6%Z in
  let shift_step := 128%Z in
  sorted_reverse ((fun i => (i * shift_step)%Z)
                    <$> arange (- num_patches_x) (num_patches_x + 2)).

Definition shift_y : list Z :=
  let num_patches_y := 10%Z in
  let shift_step := 128%Z in
  sorted_reverse ((fun i => (i * shift_step)%Z)
                    <$> arange (-2) num_patches_y).

Definition shift_pairs : list (Z * Z) :=
  sy ← shift_y; sx ← shift_x; [(sx, sy)].

(** The mosaic before the final crop; [executor.map] keeps the order
    of [shift_pairs]. *)
Definition stitch (img : Image) (H : Mat3) (patch_size : nat * nat)
  : Image :=
  let patches := process_patch img H patch_size <$> shift_pairs in
  let rows := length shift_y in
  let cols := length shift_x in
  let row_images :=
    (fun i => hconcat (slice patches (i * cols) ((i + 1) * cols)))
      <$> range 0 rows in
  vconcat row_images.

Definition plot_BEV_full (img : Image) (H : Mat3) (patch_size : nat * nat)
  : Image :=
  let stitched_image := stitch img H patch_size in
  crop_bottom_to_content stitched_image 1.
End Mosaic.

End HomographyFromChessboardImage.

(** ** homography.py, continued *)

Section CartToHom.
(** The scalar one of the array's element type. *)
Context {A : Type} (one : A).

(** [cart_to_hom]: [points] is a two-dimensional array, given by its rows
    (at least one, all of one length); [points.shape[1]] is the length of
    a row, and [np.vstack] puts the row of ones below the others. *)
Definition cart_to_hom (points : list (list A)) : list (list A) :=
  let row_of_ones := replicate (length (hd [] points)) one in
  points ++ [row_of_ones].
End CartToHom.

(* ===================================================================== *)
(** * Notions used in the statements, and test data                       *)
(* ===================================================================== *)

(** What a piece of Python code leaves as it is: the projection [f] of
    every frame of the store. *)
Definition keeps {X A} (f : Frame -> X) (m : Py A) : Prop :=
  forall s, f <$> (m s).1 = f <$> s.

(** [T += camera_offset] on the pose of one frame. *)
Definition offset_frame (fr : Frame) : Frame :=
  mkFrame (image fr)
          (set_trans (odom fr) (vadd (trans (odom fr)) camera_offset)).

(** The stores reachable from [s] by in-place camera offsets. *)
Definition offsets_of (s s' : RobotData) : Prop :=
  forall i fr, s !! i = Some fr ->
    exists k, s' !! i = Some (Nat.iter k offset_frame fr).

Definition advances {A} (m : Py A) : Prop := forall s, offsets_of s (m s).1.


(** The store [s'] holds the frames of [s], the pose of timestep [j]
    offset in place [c j] times. *)
Definition offset_by (c : nat -> nat) (s s' : RobotData) : Prop :=
  forall j, s' !! j = Nat.iter (c j) offset_frame <$> s !! j.

(** The number of timesteps of [range(history_size, n_timesteps)] whose
    window [timestep - history_size < j <= timestep] holds [j]. *)
Definition offset_count (history_size n_timesteps j : nat) : nat :=
  (Nat.min n_timesteps (j + history_size) - Nat.max history_size j)%nat.

(** [c * M], the array [M] with every entry scaled. *)
Definition mscale (c : R) (M : Mat3) : Mat3 :=
  let '(r1, r2, r3) := M in (vscale c r1, vscale c r2, vscale c r3).

(** The entry the loops write at [row * cols + col]. *)
Definition centred_point (midpoint_row midpoint_col : R) (row col : nat)
  : R * R :=
  ((INR col + 0.5) - midpoint_col, (INR row + 0.5) - midpoint_row).

(** The grid laid out row after row. *)
Fixpoint centred_grid (midpoint_row midpoint_col : R) (rows cols : nat)
  : list (R * R) :=
  match rows with
  | O => []
  | S row =>
      centred_grid midpoint_row midpoint_col row cols
        ++ (centred_point midpoint_row midpoint_col row <$> seq 0 cols)
  end.

(** What is assumed of [np.linalg.svd] on the array [M]: its three
    results factor [M], the outer ones are orthogonal and the singular
    values are not negative. *)
Definition svd_contract (M : Mat3) (USV : Mat3 * Vec3 * Mat3) : Prop :=
  let '(U, S_, Vh) := USV in
  let '(s1, s2, s3) := S_ in
  transpose U @@ U = eye3 /\ transpose Vh @@ Vh = eye3 /\
  0 <= s1 /\ 0 <= s2 /\ 0 <= s3 /\
  M = U @@ ((s1, 0, 0), (0, s2, 0), (0, 0, s3)) @@ Vh.

(** The order of a list sorted on [key]. *)
Definition ascending {A} (key : A -> R) (a b : A) : Prop := key a <= key b.

(** The distances between neighbours of a row, in the order of the loop
    over [i]. *)
Definition neighbour_distances (row : list (R * R)) : list R :=
  (fun i => norm2 (psub (nth i row (0, 0)) (nth (i + 1) row (0, 0))))
    <$> range 0 (length row - 1).

(** A row has content when one of its pixels is brighter than the
    threshold. *)
Definition has_content (gray_of : Pixel -> Z) (threshold : Z)
    (row : list Pixel) : Prop :=
  exists p, p ∈ row /\ (threshold < gray_of p)%Z.

(** ** Test data *)

(** A pose at the origin, and a three-frame recording of it. *)
Definition still_frame : Frame := mkFrame [[(0, 0, 0)%Z]] eye4.

Definition still_recording : RobotData :=
  [still_frame; still_frame; still_frame].

(** An all-black calibration image, on which no board is found. *)
Definition black_image : Image := replicate 4 (replicate 6 (0, 0, 0)%Z).

Definition gray_mean (p : Pixel) : Z :=
  let '(b, g, r) := p in ((b + g + r) / 3)%Z.

Definition no_board_found (gray : list (list Z)) (size : nat * nat)
  : bool * option (list (R * R)) := (false, None).

Definition black_patch : Image :=
  [[(0, 0, 0); (0, 0, 0)]; [(0, 0, 0); (0, 0, 0)]]%Z.

(** A patch whose upper row is white and whose lower row is black. *)
Definition half_patch : Image :=
  [[(255, 255, 255); (255, 255, 255)]; [(0, 0, 0); (0, 0, 0)]]%Z.

(** Collaborators for rasters of the size of one patch: the warp and the
    resize hand the source back, [hconcat] glues rows side by side and
    [vconcat] stacks rasters. *)
Definition warp_copy (img : Image) (M : Mat3) (dsize : nat * nat) : Image :=
  img.

Definition resize_copy (img : Image) (dsize : nat * nat) : Image := img.

Definition hconcat_rows (imgs : list Image) : Image :=
  match imgs with
  | [] => []
  | img :: rest => fold_left (zip_with app) rest img
  end.

Definition vconcat_rows (imgs : list Image) : Image := concat imgs.

(** The ideal [cv2.perspectiveTransform]. *)
Definition project_points (pts : list (R * R)) (M : Mat3) : list (R * R) :=
  (fun p : R * R =>
     let '(x, y, w) := matvec M (p.1, p.2, 1) in (x / w, y / w)) <$> pts.

(** Three frames; the robot stands at the origin, then is 1000 units
    further along x at timestep 2. *)
Definition moved_recording : RobotData :=
  [mkFrame black_patch eye4; mkFrame black_patch eye4;
   mkFrame black_patch (set_trans eye4 (1000, 0, 0))].

Definition moved_anchor : Image :=
  warp_patch warp_copy resize_copy black_patch eye3 (128, 128)%nat.

Definition moved_cur_bbox : BBox.t := BBox.mk 0 0 128 128.

(** Four frames: [moved_recording], and the robot still 1000 units along
    x at timestep 3. *)
Definition drift_recording : RobotData :=
  moved_recording ++ [mkFrame black_patch (set_trans eye4 (1000, 0, 0))].

Section FloatData.
Import PrimFloat.
Local Open Scope float_scope.

(** The machine epsilon of binary64. *)
Definition machine_epsilon : float := 0x1p-52.

(** Three homogeneous points, the first of them at infinity ([w = 0]). *)
Definition points_at_infinity : list (list float) :=
  [[1; 1; 6]; [2; 2; 8]; [0; 1; 2]].




End FloatData.

(* ===================================================================== *)
(** * Part II. Properties                                                 *)
(* ===================================================================== *)

(** ** Bounding-box overlap *)

Section OverlapProperties.
Import BBox.

Lemma does_overlap_spec (a b : BBox.t) :
  does_overlap a b = true <->
  ~ (xmax a < xmin b \/ xmax b < xmin a \/
     ymax a < ymin b \/ ymax b < ymin a)%Z.
Proof.
  destruct a as [ax ay aX aY], b as [bx by_ bX bY]; cbn.
  rewrite negb_true_iff, !orb_false_iff, !Z.ltb_ge. lia.
Qed.

(** C3. [does_overlap] is exactly the inclusive-boundary interval test:
    it answers true iff none of the four strict separations holds; boxes
    touching at an edge, such as [0,0,10,10] and [10,0,20,10], overlap. *)
Theorem does_overlap_inclusive_interval_test :
  (forall xminA yminA xmaxA ymaxA xminB yminB xmaxB ymaxB : Z,
      does_overlap (mk xminA yminA xmaxA ymaxA) (mk xminB yminB xmaxB ymaxB)
        = true
      <-> ~ (xmaxA < xminB \/ xmaxB < xminA \/
             ymaxA < yminB \/ ymaxB < yminA)%Z)
  /\ does_overlap (mk 0 0 10 10) (mk 10 0 20 10) = true.
Proof.
  split.
  - intros. apply (does_overlap_spec (mk _ _ _ _) (mk _ _ _ _)).
  - reflexivity.
Qed.

End OverlapProperties.

(** ** Linear algebra facts *)

Ltac destruct_vec v := destruct v as [[? ?] ?].

Ltac destruct_mat M := destruct M as [[[[? ?] ?] [[? ?] ?]] [[? ?] ?]].

(** Equality of arrays, entry by entry. *)
Tactic Notation "array_eq" tactic3(tac) :=
  unfold eye3;
  cbn [matmul transpose dot cross matvec msub mdiv vsub vadd vscale vdiv
       outer adjugate det3 eye3 fst snd];
  repeat match goal with
         | |- (_, _) = (_, _) => apply f_equal2
         end; tac.


Lemma matmul_eye_l (A : Mat3) : eye3 @@ A = A.
Proof. destruct_mat A. array_eq ring. Qed.

Lemma matmul_assoc (A B C : Mat3) : A @@ B @@ C = A @@ (B @@ C).
Proof. destruct_mat A. destruct_mat B. destruct_mat C. array_eq ring. Qed.





(** ** Motion-propagated homography *)

Section PropagateProperties.


End PropagateProperties.


Section PropagateFloats.
Import PrimFloat.
Local Open Scope float_scope.


End PropagateFloats.

(** ** Python code against the store *)

Lemma Py_bind_Ok {A B} (m : Py A) (k : A -> Py B) (s s' : RobotData) (b : B) :
  (m ≫= k) s = (s', Ok b) <->
  exists s1 a, m s = (s1, Ok a) /\ k a s1 = (s', Ok b).
Proof.
  unfold mbind, Py_bind. destruct (m s) as [s1 [a|e]]; split.
  - intros Hk. eauto.
  - intros (s2 & a' & [= <- <-] & Hk). exact Hk.
  - intros [=].
  - intros (s2 & a' & [=] & _).
Qed.

Lemma foldM_app {A X} (body : A -> X -> Py A) (a : A) (xs ys : list X)
    (s : RobotData) :
  foldM body a (xs ++ ys) s = (a' ← foldM body a xs; foldM body a' ys) s.
Proof.
  revert a s. induction xs as [|x xs IH]; intros a s; [done|].
  cbn [foldM app]. unfold mbind, Py_bind in *.
  destruct (body a x s) as [s1 [a1|e]]; [apply IH|done].
Qed.

Lemma foldM_app_Ok {A X} (body : A -> X -> Py A) (a b : A) (xs ys : list X)
    (s s' : RobotData) :
  foldM body a (xs ++ ys) s = (s', Ok b) <->
  exists s1 a1, foldM body a xs s = (s1, Ok a1) /\
                foldM body a1 ys s1 = (s', Ok b).
Proof. rewrite foldM_app. apply Py_bind_Ok. Qed.

Lemma range_split (a b c : nat) :
  (a <= b)%nat -> (b <= c)%nat -> range a c = range a b ++ range b c.
Proof.
  intros Hab Hbc. unfold range.
  replace (c - a)%nat with ((b - a) + (c - b))%nat by lia.
  rewrite seq_app. do 2 f_equal. lia.
Qed.

Lemma range_cons (a b : nat) :
  (a < b)%nat -> range a b = a :: range (S a) b.
Proof.
  intros Hab. unfold range.
  replace (b - a)%nat with (S (b - S a)) by lia. done.
Qed.

Section Keeps.
Context {X : Type} (f : Frame -> X).

Lemma keeps_ret {A} (a : A) : keeps f (mret a).
Proof. done. Qed.

Lemma keeps_lift {A} (r : result A) : keeps f (lift r).
Proof. done. Qed.

Lemma keeps_bind {A B} (m : Py A) (k : A -> Py B) :
  keeps f m -> (forall a, keeps f (k a)) -> keeps f (m ≫= k).
Proof.
  intros Hm Hk s. specialize (Hm s). unfold mbind, Py_bind.
  destruct (m s) as [s1 [a|e]]; [|done].
  cbn [fst] in Hm. rewrite <- Hm. apply Hk.
Qed.

Lemma keeps_foldM {A Y} (body : A -> Y -> Py A) (a : A) (xs : list Y) :
  (forall a x, keeps f (body a x)) -> keeps f (foldM body a xs).
Proof.
  intros Hbody. revert a. induction xs as [|x xs IH]; intros a.
  - apply keeps_ret.
  - cbn [foldM]. apply keeps_bind; [apply Hbody|apply IH].
Qed.

Lemma keeps_getNTimesteps : keeps f getNTimesteps.
Proof. done. Qed.

Lemma keeps_getImageAtTimestep t : keeps f (getImageAtTimestep t).
Proof. done. Qed.

Lemma keeps_getOdomAtTimestep t : keeps f (getOdomAtTimestep t).
Proof. done. Qed.

Lemma keeps_view_rot rt : keeps f (view_rot rt).
Proof. done. Qed.

Lemma keeps_view_trans rt : keeps f (view_trans rt).
Proof. done. Qed.

(** The in-place addition touches the translation column only. *)
Lemma keeps_iadd_trans rt v :
  (forall img M T, f (mkFrame img (set_trans M T)) = f (mkFrame img M)) ->
  keeps f (iadd_trans rt v).
Proof.
  intros Hf s. unfold iadd_trans. cbn [fst].
  erewrite (list_fmap_alter f _ (fun x => x)).
  - apply list_alter_id. done.
  - apply Forall_forall. intros [img M] _. cbn. apply Hf.
Qed.
End Keeps.

(** ** The sampler and the data source *)

Section SamplerStore.

Variable warpPerspective : Image -> Mat3 -> nat * nat -> Image.
Variable resize : Image -> nat * nat -> Image.
Variable perspectiveTransform : list (R * R) -> Mat3 -> list (R * R).
Variable compute_homography_from_rt :
  Mat3 -> Mat3 -> Vec3 -> Vec3 -> R -> result Mat3.
Variable H K : Mat3.
Variable plane_normal : Vec3.
Variable plane_distance : R.

Abbreviation sample :=
  (ComputeVicRegData warpPerspective resize perspectiveTransform
     compute_homography_from_rt H K plane_normal plane_distance).

(** The sampler touches nothing but translation columns: images,
    rotation blocks and bottom rows of the store stay as they are. *)
Lemma ComputeVicRegData_keeps {X} (f : Frame -> X) history_size patch_size :
  (forall img M T, f (mkFrame img (set_trans M T)) = f (mkFrame img M)) ->
  keeps f (sample history_size patch_size).
Proof.
  intros Hf. unfold ComputeVicRegData.
  apply keeps_bind; [apply keeps_getNTimesteps|]. intros n.
  apply keeps_foldM. intros patches t. unfold timestep_iteration.
  apply keeps_bind; [apply keeps_getImageAtTimestep|]. intros cur_image.
  apply keeps_bind; [apply keeps_getOdomAtTimestep|]. intros cur_rt.
  apply keeps_bind; [by apply keeps_iadd_trans|]. intros _.
  apply keeps_bind; [|intros; apply keeps_ret].
  apply keeps_foldM. intros acc h. unfold past_iteration.
  destruct (_ <? _)%nat; [apply keeps_ret|].
  apply keeps_bind.
  - unfold past_frame.
    apply keeps_bind; [apply keeps_getImageAtTimestep|]. intros past_image.
    apply keeps_bind; [apply keeps_getOdomAtTimestep|]. intros past_rt.
    apply keeps_bind; [by apply keeps_iadd_trans|]. intros _.
    apply keeps_bind; [apply keeps_view_rot|]. intros R_cur.
    apply keeps_bind; [apply keeps_view_trans|]. intros T_cur.
    apply keeps_bind; [apply keeps_view_rot|]. intros R_past.
    apply keeps_bind; [apply keeps_view_trans|]. intros T_past.
    apply keeps_bind; [apply keeps_lift|]. intros [H1 H2].
    apply keeps_bind; [apply keeps_lift|]. intros bbox.
    apply keeps_ret.
  - intros [[past_image H2] bbox].
    destruct (BBox.does_overlap _ _); apply keeps_ret.
Qed.

Lemma ComputeVicRegData_keeps_images history_size patch_size s :
  image <$> (sample history_size patch_size s).1 = image <$> s.
Proof. by apply ComputeVicRegData_keeps. Qed.

Lemma ComputeVicRegData_keeps_rotations history_size patch_size s :
  (fun fr => rot (odom fr)) <$> (sample history_size patch_size s).1
  = (fun fr => rot (odom fr)) <$> s.
Proof. by apply (ComputeVicRegData_keeps (fun fr => rot (odom fr))). Qed.

(** With the store that hands out its own matrices the poses do not
    survive a run: on the three-frame recording of a robot standing at the
    origin, with history size 2, the run leaves the pose matrices of
    timesteps 2 (the current one, line 29) and 1 (the past one, line 51)
    with [camera_offset] added to their translation columns -- whatever
    the collaborators return. *)
Lemma ComputeVicRegData_offsets_stored_poses :
  (sample 2%nat (128, 128)%nat still_recording).1
    = [still_frame; offset_frame still_frame; offset_frame still_frame]
  /\ trans (odom (offset_frame still_frame)) <> trans (odom still_frame).
Proof.
  split.
  - cbv [ComputeVicRegData foldM range seq Nat.sub timestep_iteration mbind
         mret Py_bind Py_ret getNTimesteps getImageAtTimestep
         getOdomAtTimestep iadd_trans length still_recording lookup
         list_lookup alter list_alter fst snd past_iteration past_frame
         Nat.ltb Nat.leb view_rot view_trans lift].
    fold (offset_frame still_frame).
    destruct (homography_past_to_patch _ _ _ _ _ _ _ _ _) as [[H1 H2]|e];
      [|reflexivity].
    destruct (past_bounding_box _ _ _) as [bbox|e]; [|reflexivity].
    destruct (BBox.does_overlap _ _); reflexivity.
  - cbn. unfold camera_offset. intros [= Hx _]. lra.
Qed.

(** *** The history loop *)

Abbreviation past_step patch_size timestep cur_bbox :=
  (past_iteration warpPerspective resize perspectiveTransform
     compute_homography_from_rt H K plane_normal plane_distance
     patch_size timestep timestep cur_bbox).

Abbreviation past_frame_at patch_size timestep past_timestep :=
  (past_frame perspectiveTransform compute_homography_from_rt H K
     plane_normal plane_distance patch_size timestep past_timestep).

Abbreviation timestep_step history_size patch_size :=
  (timestep_iteration warpPerspective resize perspectiveTransform
     compute_homography_from_rt H K plane_normal plane_distance
     history_size patch_size).

(** One offset appends at most one patch. *)
Lemma past_iteration_Ok patch_size timestep cur_rt cur_bbox acc past_hist
    s s' out :
  past_iteration warpPerspective resize perspectiveTransform
    compute_homography_from_rt H K plane_normal plane_distance
    patch_size timestep cur_rt cur_bbox acc past_hist s = (s', Ok out) ->
  out = acc \/ exists patch, out = acc ++ [patch].
Proof.
  unfold past_iteration. destruct (_ <? _)%nat.
  - intros [= _ <-]. by left.
  - intros (s1 & [[img Hp] bbox] & _ & Hk)%Py_bind_Ok.
    destruct (BBox.does_overlap _ _); injection Hk as _ <-; eauto.
Qed.

(** An offset whose bounding box misses the current patch is skipped
    without a word: the patch list comes back as it was. *)
Lemma past_iteration_skip patch_size timestep cur_rt cur_bbox acc past_hist
    s s' past_image H_past2patch past_bbox :
  (past_hist <= timestep)%nat ->
  past_frame perspectiveTransform compute_homography_from_rt H K
    plane_normal plane_distance patch_size cur_rt (timestep - past_hist) s
    = (s', Ok (past_image, H_past2patch, past_bbox)) ->
  BBox.does_overlap cur_bbox past_bbox = false ->
  past_iteration warpPerspective resize perspectiveTransform
    compute_homography_from_rt H K plane_normal plane_distance
    patch_size timestep cur_rt cur_bbox acc past_hist s = (s', Ok acc).
Proof.
  intros Hle Hframe Hmiss. unfold past_iteration.
  destruct (Nat.ltb_spec timestep past_hist) as [?|_]; [lia|].
  unfold mbind at 1, Py_bind. rewrite Hframe, Hmiss. done.
Qed.

Lemma foldM_past_iteration_length patch_size timestep cur_rt cur_bbox
    hs acc s s' out :
  foldM (past_iteration warpPerspective resize perspectiveTransform
           compute_homography_from_rt H K plane_normal plane_distance
           patch_size timestep cur_rt cur_bbox) acc hs s = (s', Ok out) ->
  (length acc <= length out <= length acc + length hs)%nat.
Proof.
  revert acc s. induction hs as [|h hs IH]; intros acc s.
  - intros [= _ <-]. cbn. lia.
  - cbn [foldM]. intros (s1 & acc1 & Hstep & Hrest)%Py_bind_Ok.
    apply IH in Hrest.
    apply past_iteration_Ok in Hstep as [->|[patch ->]];
      rewrite ?length_app in *; cbn [length] in *; lia.
Qed.

(** What one pass over a timestep does when it returns. *)
Lemma timestep_iteration_Ok history_size patch_size patches timestep
    s s' out :
  timestep_step history_size patch_size patches timestep s = (s', Ok out) ->
  exists fr entry,
    s !! timestep = Some fr /\
    out = patches ++ [entry] /\
    foldM (past_step patch_size timestep
             (BBox.mk 0 0 (Z.of_nat patch_size.1) (Z.of_nat patch_size.2)))
          [warp_patch warpPerspective resize (image fr) H patch_size]
          (range 1 history_size)
          (alter offset_frame timestep s) = (s', Ok entry).
Proof.
  unfold timestep_iteration.
  intros (s1 & cur_image & Himg & Hk)%Py_bind_Ok.
  apply Py_bind_Ok in Hk as (s2 & cur_rt & Hrt & Hk).
  apply Py_bind_Ok in Hk as (s3 & [] & Hadd & Hk).
  apply Py_bind_Ok in Hk as (s4 & entry & Hloop & Hret).
  unfold getImageAtTimestep in Himg. unfold getOdomAtTimestep in Hrt.
  destruct (s !! timestep) as [fr|] eqn:Hfr; [|by injection Himg].
  injection Himg as <- <-. rewrite Hfr in Hrt. injection Hrt as <- <-.
  unfold iadd_trans in Hadd. injection Hadd as <-.
  injection Hret as <- <-.
  exists fr, entry. done.
Qed.

(** The patch lists of a run that returns, one per timestep, each with
    the store its timestep started from. *)
Lemma foldM_timestep_iteration_Ok history_size patch_size ts acc s s' out :
  foldM (timestep_step history_size patch_size) acc ts s = (s', Ok out) ->
  exists entries,
    out = acc ++ entries /\ length entries = length ts /\
    forall i entry, entries !! i = Some entry ->
      exists timestep s0 s0',
        ts !! i = Some timestep /\
        foldM (timestep_step history_size patch_size) acc (take i ts) s
          = (s0, Ok (acc ++ take i entries)) /\
        timestep_step history_size patch_size (acc ++ take i entries)
          timestep s0 = (s0', Ok (acc ++ take i entries ++ [entry])).
Proof.
  revert s' out. induction ts as [|t ts IH] using rev_ind; intros s' out.
  - intros [= <- <-]. exists []. rewrite app_nil_r.
    split_and!; [done..|]. intros i entry [=].
  - intros (s1 & acc1 & Hts & Hstep)%foldM_app_Ok.
    cbn [foldM] in Hstep.
    apply Py_bind_Ok in Hstep as (s2 & out2 & Hstep & [= <- <-]).
    destruct (IH _ _ Hts) as (entries & -> & Hlen & Hentries).
    pose proof Hstep as (fr & entry & _ & -> & _)%timestep_iteration_Ok.
    exists (entries ++ [entry]). rewrite !length_app, Hlen. cbn [length].
    split_and!; [by rewrite app_assoc|done|].
    intros i entry' Hi.
    destruct (decide (i < length entries)%nat) as [Hlt|Hge].
    + rewrite lookup_app_l in Hi by done.
      destruct (Hentries _ _ Hi) as (t' & s0 & s0' & Ht' & Hpre & Hrun).
      exists t', s0, s0'.
      rewrite lookup_app_l, !take_app_le by lia. done.
    + apply lookup_lt_Some in Hi as Hi'. rewrite length_app in Hi'.
      cbn [length] in Hi'. assert (i = length entries) as -> by lia.
      rewrite lookup_app_r, Nat.sub_diag in Hi by lia.
      injection Hi as <-.
      exists t, s1, s2.
      replace (take (length entries) (ts ++ [t])) with ts
        by (by rewrite Hlen, take_app_length).
      rewrite take_app_length, <- app_assoc in *.
      split_and!; [|done..].
      by rewrite Hlen, lookup_app_r, Nat.sub_diag.
Qed.

(** C4. History bound.  When a run with history size [N >= 1] returns,
    it returns one patch list per timestep of [range(N, n_timesteps)];
    the list of timestep [N + i] holds the anchor patch and at most
    [N - 1] history patches, so at most [N] patches.  If, at some offset
    [past_hist] of that timestep (taken in the loop state the offset is
    reached in), the bounding box of the past frame misses the current
    patch, the offset is skipped -- the loop body returns the patch list
    as it was and raises nothing -- and the list ends with fewer than [N]
    patches. *)
Theorem history_bound history_size patch_size (s s' : RobotData)
    (patches : list (list Image)) :
  (1 <= history_size)%nat ->
  sample history_size patch_size s = (s', Ok patches) ->
  length patches = (length s - history_size)%nat /\
  forall i entry, patches !! i = Some entry ->
    let timestep := (history_size + i)%nat in
    let cur_bbox :=
      BBox.mk 0 0 (Z.of_nat patch_size.1) (Z.of_nat patch_size.2) in
    (1 <= length entry <= history_size)%nat /\
    exists s0 fr,
      foldM (timestep_step history_size patch_size) []
            (range history_size timestep) s = (s0, Ok (take i patches)) /\
      s0 !! timestep = Some fr /\
      forall past_hist s1 acc s2 past_image H_past2patch past_bbox,
        (1 <= past_hist < history_size)%nat ->
        foldM (past_step patch_size timestep cur_bbox)
              [warp_patch warpPerspective resize (image fr) H patch_size]
              (range 1 past_hist)
              (alter offset_frame timestep s0) = (s1, Ok acc) ->
        past_frame_at patch_size timestep (timestep - past_hist) s1
          = (s2, Ok (past_image, H_past2patch, past_bbox)) ->
        BBox.does_overlap cur_bbox past_bbox = false ->
        past_step patch_size timestep cur_bbox acc past_hist s1
          = (s2, Ok acc) /\
        (length entry < history_size)%nat.
Proof.
  intros HN Hrun. unfold ComputeVicRegData in Hrun.
  apply Py_bind_Ok in Hrun as (s1 & n & [= <- <-] & Hloop).
  apply foldM_timestep_iteration_Ok in Hloop
    as (entries & Hpatches & Hlen & Hentries).
  cbn [app] in Hpatches. subst patches.
  unfold range at 1 in Hlen. rewrite length_seq in Hlen.
  split; [done|]. intros i entry Hi timestep cur_bbox.
  destruct (Hentries _ _ Hi) as (t & s0 & s0' & Ht & Hpre & Hstep).
  cbn [app] in Hpre, Hstep.
  apply lookup_seq in Ht as [-> Hi'].
  unfold range in Hpre at 1. rewrite take_seq, Nat.min_l in Hpre by lia.
  apply timestep_iteration_Ok in Hstep
    as (fr & entry0 & Hfr & Hentry & Hpast).
  apply app_inj_tail in Hentry as [_ <-].
  fold timestep cur_bbox in Hfr, Hpast.
  pose proof (foldM_past_iteration_length _ _ _ _ _ _ _ _ _ Hpast) as Hbound.
  unfold range in Hbound. rewrite length_seq in Hbound. cbn [length] in Hbound.
  split; [lia|]. exists s0, fr. split_and!; [|done|].
  { unfold range. by replace (timestep - history_size)%nat with i
      by (unfold timestep; lia). }
  intros past_hist s1 acc s2 past_image H_past2patch past_bbox
    Hh Hupto Hframe Hmiss.
  assert (Hskip : past_step patch_size timestep cur_bbox acc past_hist s1
                  = (s2, Ok acc)).
  { eapply past_iteration_skip; [unfold timestep; lia|done..]. }
  split; [done|].
  rewrite (range_split 1 past_hist history_size) in Hpast by lia.
  rewrite (range_cons past_hist history_size) in Hpast by lia.
  apply foldM_app_Ok in Hpast as (s1' & acc' & Hupto' & Hrest).
  rewrite Hupto in Hupto'. injection Hupto' as <- <-.
  cbn [foldM] in Hrest.
  apply Py_bind_Ok in Hrest as (s2' & acc2 & Hskip' & Hrest).
  rewrite Hskip in Hskip'. injection Hskip' as <- <-.
  apply foldM_past_iteration_length in Hupto, Hrest.
  unfold range in Hupto, Hrest. rewrite length_seq in Hupto, Hrest.
  cbn [length] in Hupto. lia.
Qed.

End SamplerStore.

(** ** The source that derives its poses is left as it is *)










Section DerivedSource.

Variable warpPerspective : Image -> Mat3 -> nat * nat -> Image.
Variable resize : Image -> nat * nat -> Image.
Variable perspectiveTransform : list (R * R) -> Mat3 -> list (R * R).
Variable compute_homography_from_rt :
  Mat3 -> Mat3 -> Vec3 -> Vec3 -> R -> result Mat3.
Variable H K : Mat3.
Variable plane_normal : Vec3.
Variable plane_distance : R.




End DerivedSource.

(** The writes are there: on the three-frame recording of a robot
    standing at the origin, with history size 2, the run derives two
    arrays -- the poses of timesteps 2 and 1 -- and both end with the
    camera offset in their translation column, while the records keep
    the translation (0, 0, 0). *)
Lemma ComputeVicRegData_derived_arrays
    (warpPerspective : Image -> Mat3 -> nat * nat -> Image)
    (resize : Image -> nat * nat -> Image)
    (perspectiveTransform : list (R * R) -> Mat3 -> list (R * R))
    (helper : Mat3 -> Mat3 -> Vec3 -> Vec3 -> R -> result Mat3)
    (H K : Mat3) (plane_normal : Vec3) (plane_distance : R) :
  let w' :=
    (Derived.ComputeVicRegData warpPerspective resize perspectiveTransform
       helper H K plane_normal plane_distance 2 (128, 128)%nat
       (Derived.mkWorld still_recording [])).1 in
  Derived.source w' = still_recording /\
  Derived.arrays w'
  = [odom (offset_frame still_frame); odom (offset_frame still_frame)].
Proof.
  cbv [Derived.ComputeVicRegData Derived.foldM range seq Nat.sub
       Derived.timestep_iteration mbind mret Derived.Py_bind Derived.Py_ret
       Derived.getNTimesteps Derived.getImageAtTimestep
       Derived.getOdomAtTimestep Derived.iadd_trans length still_recording
       lookup list_lookup alter list_alter fst snd Derived.past_iteration
       Derived.past_frame Nat.ltb Nat.leb Derived.view_rot Derived.view_trans
       Derived.lift Derived.source Derived.arrays app].
  destruct (homography_past_to_patch _ _ _ _ _ _ _ _ _) as [[H1 H2]|e];
    [|done].
  destruct (past_bounding_box _ _ _) as [bbox|e]; [|done].
  destruct (BBox.does_overlap _ _); done.
Qed.

(** ** A run in which the past frame misses the current patch *)

Lemma up_IZR (z : Z) : up (IZR z) = (z + 1)%Z.
Proof.
  symmetry. apply tech_up; rewrite plus_IZR; lra.
Qed.

Lemma np_int_IZR (z : Z) : np_int (IZR z) = z.
Proof.
  unfold np_int, Int_part. destruct (Rle_dec 0 (IZR z)) as [_|_].
  - rewrite up_IZR. lia.
  - rewrite <- opp_IZR, up_IZR. lia.
Qed.

Lemma moved_homography :
  homography_past_to_patch compute_homography_from_rt eye3 eye3 (0, 0, 1) 1
    eye3 (vadd (1000, 0, 0) camera_offset)
    eye3 (vadd (0, 0, 0) camera_offset)
  = Ok (((1, 0, 1000), (0, 1, 0), (0, 0, 1)),
        ((1, 0, 1000), (0, 1, 0), (0, 0, 1))).
Proof.
  unfold homography_past_to_patch, compute_homography_from_rt.
  destruct (Req_dec_T 1 0) as [?|_]; [lra|].
  destruct (Req_dec_T (det3 eye3) 0) as [Hdet|_]; [cbn in Hdet; lra|].
  cbn [mbind result_bind]. unfold camera_offset.
  f_equal. apply f_equal2; array_eq field.
Qed.

Lemma moved_corners :
  project_points [(0, 0); (128, 0); (128, 128); (0, 128)]
    ((1, 0, 1000), (0, 1, 0), (0, 0, 1))
  = [(1000, 0); (1128, 0); (1128, 128); (1000, 128)].
Proof.
  unfold project_points. cbn [fst snd fmap list_fmap matvec dot].
  repeat (apply f_equal2; [apply f_equal2; field|]). reflexivity.
Qed.

Lemma moved_bounding_box :
  past_bounding_box project_points (128, 128)%nat
    ((1, 0, 1000), (0, 1, 0), (0, 0, 1))
  = Ok (BBox.mk 1000 0 1128 128).
Proof.
  unfold past_bounding_box. cbn [fst snd].
  rewrite !INR_IZR_INZ. change (Z.of_nat 128) with 128%Z.
  rewrite moved_corners.
  cbn [fmap list_fmap fst snd np_min np_max fold_left].
  repeat match goal with
         | |- context [Rmin (IZR ?a) (IZR ?b)] =>
             first [rewrite (Rmin_left (IZR a) (IZR b)) by lra
                   |rewrite (Rmin_right (IZR a) (IZR b)) by lra]
         | |- context [Rmax (IZR ?a) (IZR ?b)] =>
             first [rewrite (Rmax_left (IZR a) (IZR b)) by lra
                   |rewrite (Rmax_right (IZR a) (IZR b)) by lra]
         end.
  cbn [fmap result_fmap mbind result_bind]. by rewrite !np_int_IZR.
Qed.

Lemma moved_past_frame :
  past_frame project_points compute_homography_from_rt eye3 eye3 (0, 0, 1) 1
    (128, 128)%nat 2 1 (alter offset_frame 2%nat moved_recording)
  = (alter offset_frame 1%nat (alter offset_frame 2%nat moved_recording),
     Ok (black_patch, ((1, 0, 1000), (0, 1, 0), (0, 0, 1)),
         BBox.mk 1000 0 1128 128)).
Proof.
  cbv [past_frame mbind mret Py_bind Py_ret getImageAtTimestep
       getOdomAtTimestep iadd_trans moved_recording lookup list_lookup
       alter list_alter offset_frame view_rot view_trans lift image odom
       rot trans set_trans eye4].
  rewrite moved_homography, moved_bounding_box. reflexivity.
Qed.

Lemma moved_run :
  ComputeVicRegData warp_copy resize_copy project_points
    compute_homography_from_rt eye3 eye3 (0, 0, 1) 1 2 (128, 128)%nat
    moved_recording
  = (alter offset_frame 1%nat (alter offset_frame 2%nat moved_recording),
     Ok [[moved_anchor]]).
Proof.
  unfold ComputeVicRegData.
  cbv [mbind Py_bind getNTimesteps moved_recording length range Nat.sub seq
       foldM timestep_iteration getImageAtTimestep getOdomAtTimestep
       lookup list_lookup image iadd_trans past_iteration Nat.ltb Nat.leb].
  fold moved_recording.
  change (alter _ 2%nat moved_recording)
    with (alter offset_frame 2%nat moved_recording).
  rewrite moved_past_frame. reflexivity.
Qed.

(** The run on [moved_recording] with history size 2: at timestep 2 the
    only offset, 1, finds the past frame 1000 pixels off the patch; the
    timestep's list holds the anchor alone. *)
Lemma history_bound_witness :
  let step :=
    past_iteration warp_copy resize_copy project_points
      compute_homography_from_rt eye3 eye3 (0, 0, 1) 1 (128, 128)%nat
      2 2 moved_cur_bbox in
  let s1 := alter offset_frame 2%nat moved_recording in
  let s2 := alter offset_frame 1%nat s1 in
  (1 <= 2)%nat /\
  ComputeVicRegData warp_copy resize_copy project_points
    compute_homography_from_rt eye3 eye3 (0, 0, 1) 1 2 (128, 128)%nat
    moved_recording = (s2, Ok [[moved_anchor]]) /\
  foldM step [moved_anchor] (range 1 1) s1 = (s1, Ok [moved_anchor]) /\
  past_frame project_points compute_homography_from_rt eye3 eye3 (0, 0, 1) 1
    (128, 128)%nat 2 (2 - 1) s1
  = (s2, Ok (black_patch, ((1, 0, 1000), (0, 1, 0), (0, 0, 1)),
             BBox.mk 1000 0 1128 128)) /\
  BBox.does_overlap moved_cur_bbox (BBox.mk 1000 0 1128 128) = false /\
  step [moved_anchor] 1%nat s1 = (s2, Ok [moved_anchor]) /\
  (1 <= length [moved_anchor] <= 2)%nat /\
  (length [moved_anchor] < 2)%nat.
Proof.
  intros step s1 s2.
  assert (HN : (1 <= 2)%nat) by lia.
  assert (Hupto : foldM step [moved_anchor] (range 1 1) s1
                  = (s1, Ok [moved_anchor])) by reflexivity.
  assert (Hmiss : BBox.does_overlap moved_cur_bbox (BBox.mk 1000 0 1128 128)
                  = false) by reflexivity.
  destruct (history_bound warp_copy resize_copy project_points
              compute_homography_from_rt eye3 eye3 (0, 0, 1) 1
              2 (128, 128)%nat moved_recording s2 [[moved_anchor]]
              HN moved_run) as [_ Hentries].
  destruct (Hentries 0%nat [moved_anchor] eq_refl)
    as (Hbound & s0 & fr & Hpre & Hfr & Hskip).
  injection Hpre as <-. injection Hfr as <-.
  destruct (Hskip 1%nat s1 [moved_anchor] s2 black_patch
              ((1, 0, 1000), (0, 1, 0), (0, 0, 1)) (BBox.mk 1000 0 1128 128)
              (conj (le_n 1) (le_n 2)) Hupto moved_past_frame Hmiss)
    as [Hskipped Hfewer].
  exact (conj HN (conj moved_run (conj Hupto (conj moved_past_frame
           (conj Hmiss (conj Hskipped (conj Hbound Hfewer))))))).
Defined.

(** ** Every run writes into the poses of the data source *)

Lemma offsets_of_refl (s : RobotData) : offsets_of s s.
Proof. intros i fr Hfr. by exists 0%nat. Qed.

Lemma offsets_of_trans (s1 s2 s3 : RobotData) :
  offsets_of s1 s2 -> offsets_of s2 s3 -> offsets_of s1 s3.
Proof.
  intros H12 H23 i fr Hfr.
  destruct (H12 i fr Hfr) as [k Hk]. destruct (H23 i _ Hk) as [k' Hk'].
  exists (k' + k)%nat. by rewrite Nat.iter_add.
Qed.

Lemma advances_ret {A} (a : A) : advances (mret a).
Proof. intros s. apply offsets_of_refl. Qed.

Lemma advances_lift {A} (r : result A) : advances (lift r).
Proof. intros s. apply offsets_of_refl. Qed.

Lemma advances_bind {A B} (m : Py A) (k : A -> Py B) :
  advances m -> (forall a, advances (k a)) -> advances (m ≫= k).
Proof.
  intros Hm Hk s. specialize (Hm s). unfold mbind, Py_bind.
  destruct (m s) as [s1 [a|e]]; [|done].
  eapply offsets_of_trans; [exact Hm|apply Hk].
Qed.

Lemma advances_foldM {A Y} (body : A -> Y -> Py A) (a : A) (xs : list Y) :
  (forall a x, advances (body a x)) -> advances (foldM body a xs).
Proof.
  intros Hbody. revert a. induction xs as [|x xs IH]; intros a.
  - apply advances_ret.
  - cbn [foldM]. apply advances_bind; [apply Hbody|apply IH].
Qed.

Lemma advances_iadd_trans (rt : nat) : advances (iadd_trans rt camera_offset).
Proof.
  intros s i fr Hfr. unfold iadd_trans. cbn [fst].
  destruct (decide (rt = i)) as [->|Hne].
  - exists 1%nat. by rewrite list_lookup_alter_eq, Hfr.
  - exists 0%nat. by rewrite list_lookup_alter_ne.
Qed.

Lemma trans_iter_offset_frame (k : nat) (fr : Frame) :
  trans (odom (Nat.iter k offset_frame fr))
  = vadd (trans (odom fr)) (vscale (INR k) camera_offset).
Proof.
  induction k as [|k IH].
  - cbn. destruct (trans (odom fr)) as [[x y] z]. array_eq ring.
  - rewrite S_INR, Nat.iter_succ. unfold offset_frame at 1.
    cbn [odom trans set_trans]. rewrite IH.
    destruct (trans (odom fr)) as [[x y] z]. unfold camera_offset.
    array_eq ring.
Qed.

Lemma image_iter_offset_frame (k : nat) (fr : Frame) :
  image (Nat.iter k offset_frame fr) = image fr.
Proof. induction k as [|k IH]; [done|]. rewrite Nat.iter_succ. exact IH. Qed.

Section SamplerWrites.

Variable warpPerspective : Image -> Mat3 -> nat * nat -> Image.
Variable resize : Image -> nat * nat -> Image.
Variable perspectiveTransform : list (R * R) -> Mat3 -> list (R * R).
Variable compute_homography_from_rt :
  Mat3 -> Mat3 -> Vec3 -> Vec3 -> R -> result Mat3.
Variable H K : Mat3.
Variable plane_normal : Vec3.
Variable plane_distance : R.

Lemma advances_past_iteration patch_size timestep cur_rt cur_bbox acc h :
  advances (past_iteration warpPerspective resize perspectiveTransform
              compute_homography_from_rt H K plane_normal plane_distance
              patch_size timestep cur_rt cur_bbox acc h).
Proof.
  unfold past_iteration. destruct (_ <? _)%nat; [apply advances_ret|].
  apply advances_bind.
  - unfold past_frame.
    apply advances_bind; [intros s; apply offsets_of_refl|]. intros past_image.
    apply advances_bind; [intros s; apply offsets_of_refl|]. intros past_rt.
    apply advances_bind; [apply advances_iadd_trans|]. intros _.
    apply advances_bind; [intros s; apply offsets_of_refl|]. intros R_cur.
    apply advances_bind; [intros s; apply offsets_of_refl|]. intros T_cur.
    apply advances_bind; [intros s; apply offsets_of_refl|]. intros R_past.
    apply advances_bind; [intros s; apply offsets_of_refl|]. intros T_past.
    apply advances_bind; [apply advances_lift|]. intros [H1 H2].
    apply advances_bind; [apply advances_lift|]. intros bbox.
    apply advances_ret.
  - intros [[past_image H2] bbox].
    destruct (BBox.does_overlap _ _); apply advances_ret.
Qed.

Lemma advances_timestep_iteration history_size patch_size patches timestep :
  advances (timestep_iteration warpPerspective resize perspectiveTransform
              compute_homography_from_rt H K plane_normal plane_distance
              history_size patch_size patches timestep).
Proof.
  unfold timestep_iteration.
  apply advances_bind; [intros s; apply offsets_of_refl|]. intros cur_image.
  apply advances_bind; [intros s; apply offsets_of_refl|]. intros cur_rt.
  apply advances_bind; [apply advances_iadd_trans|]. intros _.
  apply advances_bind; [|intros; apply advances_ret].
  apply advances_foldM. intros acc h. apply advances_past_iteration.
Qed.

(** Whatever the collaborators do, a run over a recording with more than
    [history_size] timesteps leaves the pose of timestep [history_size]
    with its translation moved by a positive multiple of [camera_offset];
    the image of that frame is untouched. *)
Lemma ComputeVicRegData_changes_first_pose history_size patch_size
    (s : RobotData) (fr : Frame) :
  s !! history_size = Some fr ->
  exists fr',
    (ComputeVicRegData warpPerspective resize perspectiveTransform
       compute_homography_from_rt H K plane_normal plane_distance
       history_size patch_size s).1 !! history_size = Some fr' /\
    image fr' = image fr /\
    trans (odom fr') <> trans (odom fr).
Proof.
  intros Hfr. pose proof (lookup_lt_Some _ _ _ Hfr) as Hlt.
  assert (Hgrow : offsets_of (alter offset_frame history_size s)
            (ComputeVicRegData warpPerspective resize perspectiveTransform
               compute_homography_from_rt H K plane_normal plane_distance
               history_size patch_size s).1).
  { unfold ComputeVicRegData, mbind at 1, Py_bind at 1, getNTimesteps.
    rewrite range_cons by done. cbn [foldM].
    unfold mbind at 1, Py_bind at 1.
    (* the first pass starts by offsetting the current pose *)
    assert (Hfirst : offsets_of (alter offset_frame history_size s)
              (timestep_iteration warpPerspective resize perspectiveTransform
                 compute_homography_from_rt H K plane_normal plane_distance
                 history_size patch_size [] history_size s).1).
    { unfold timestep_iteration.
      unfold mbind at 1, Py_bind at 1, getImageAtTimestep. rewrite Hfr.
      unfold mbind at 1, Py_bind at 1, getOdomAtTimestep. rewrite Hfr.
      unfold mbind at 1, Py_bind at 1, iadd_trans at 1.
      apply (advances_bind _ (fun a => mret ([] ++ [a])));
        [|intros; apply advances_ret].
      apply advances_foldM. intros acc h. apply advances_past_iteration. }
    destruct (timestep_iteration _ _ _ _ _ _ _ _ _ _ _ _ _) as [s1 [a|e]];
      [|exact Hfirst].
    eapply offsets_of_trans; [exact Hfirst|].
    apply advances_foldM. intros acc t. apply advances_timestep_iteration. }
  destruct (Hgrow history_size (offset_frame fr)) as [k Hk].
  { by rewrite list_lookup_alter_eq, Hfr. }
  exists (Nat.iter (S k) offset_frame fr).
  rewrite Nat.iter_succ_r. split_and!; [exact Hk| |].
  - rewrite <- Nat.iter_succ_r. apply image_iter_offset_frame.
  - rewrite <- Nat.iter_succ_r, trans_iter_offset_frame.
    destruct (trans (odom fr)) as [[x y] z]. unfold camera_offset.
    cbn [vadd vscale]. intros Hx.
    apply (f_equal (fun v : Vec3 => v.1.1)) in Hx. cbn [fst] in Hx.
    pose proof (pos_INR k). rewrite S_INR in Hx. nra.
Qed.

End SamplerWrites.

(** ** Runs that return *)

Section SamplerReturns.

Variable warpPerspective : Image -> Mat3 -> nat * nat -> Image.
Variable resize : Image -> nat * nat -> Image.
Variable perspectiveTransform : list (R * R) -> Mat3 -> list (R * R).
Variable compute_homography_from_rt :
  Mat3 -> Mat3 -> Vec3 -> Vec3 -> R -> result Mat3.
Variable H K : Mat3.
Variable plane_normal : Vec3.
Variable plane_distance : R.

(** The collaborators do their part: the perspective transform hands back
    as many points as it was given, and the homography of a relative motion
    is always produced. *)
Hypothesis perspectiveTransform_length :
  forall pts M, length (perspectiveTransform pts M) = length pts.
Hypothesis compute_homography_from_rt_returns :
  forall K' R_rel T_rel n d,
    exists M, compute_homography_from_rt K' R_rel T_rel n d = Ok M.

Lemma past_bounding_box_returns patch_size M :
  exists bbox, past_bounding_box perspectiveTransform patch_size M = Ok bbox.
Proof using perspectiveTransform_length.
  unfold past_bounding_box.
  match goal with
  | |- context [perspectiveTransform ?pts M] =>
      pose proof (perspectiveTransform_length pts M) as Hlen;
      destruct (perspectiveTransform pts M) as [|p ps]; [done|]
  end.
  cbn. eauto.
Qed.

Lemma past_frame_returns patch_size cur_rt past_timestep (s : RobotData) :
  (cur_rt < length s)%nat -> (past_timestep < length s)%nat ->
  exists s' r,
    past_frame perspectiveTransform compute_homography_from_rt H K
      plane_normal plane_distance patch_size cur_rt past_timestep s
    = (s', Ok r) /\ length s' = length s.
Proof using perspectiveTransform_length compute_homography_from_rt_returns.
  intros Hcur Hpast. unfold past_frame.
  destruct (lookup_lt_is_Some_2 s past_timestep Hpast) as [fr Hfr].
  unfold mbind at 1, Py_bind at 1, getImageAtTimestep. rewrite Hfr.
  unfold mbind at 1, Py_bind at 1, getOdomAtTimestep. rewrite Hfr.
  unfold mbind at 1, Py_bind at 1, iadd_trans at 1.
  set (s1 := alter _ past_timestep s).
  assert (Hlen : length s1 = length s) by apply length_alter.
  destruct (lookup_lt_is_Some_2 s1 cur_rt) as [fc Hfc]; [lia|].
  destruct (lookup_lt_is_Some_2 s1 past_timestep) as [fp Hfp]; [lia|].
  unfold mbind at 1, Py_bind at 1, view_rot at 1. rewrite Hfc.
  unfold mbind at 1, Py_bind at 1, view_trans at 1. rewrite Hfc.
  unfold mbind at 1, Py_bind at 1, view_rot at 1. rewrite Hfp.
  unfold mbind at 1, Py_bind at 1, view_trans at 1. rewrite Hfp.
  unfold homography_past_to_patch.
  destruct (compute_homography_from_rt_returns K
              (transpose (rot (odom fc)) @@ rot (odom fp))
              (matvec (transpose (rot (odom fc)))
                 (vsub (trans (odom fp)) (trans (odom fc))))
              plane_normal plane_distance) as [M HM].
  rewrite HM.
  destruct (past_bounding_box_returns patch_size M) as [bbox Hbbox].
  unfold mbind, Py_bind, lift. cbn [result_bind]. rewrite Hbbox.
  eexists _, _. split; [reflexivity|exact Hlen].
Qed.

Lemma foldM_past_iteration_returns patch_size timestep cur_bbox hs acc
    (s : RobotData) :
  (timestep < length s)%nat ->
  exists s' out,
    foldM (past_iteration warpPerspective resize perspectiveTransform
             compute_homography_from_rt H K plane_normal plane_distance
             patch_size timestep timestep cur_bbox) acc hs s = (s', Ok out)
    /\ length s' = length s.
Proof using perspectiveTransform_length compute_homography_from_rt_returns.
  revert acc s. induction hs as [|h hs IH]; intros acc s Ht.
  - by exists s, acc.
  - assert (Hstep : exists s1 acc1,
              past_iteration warpPerspective resize perspectiveTransform
                compute_homography_from_rt H K plane_normal plane_distance
                patch_size timestep timestep cur_bbox acc h s = (s1, Ok acc1)
              /\ length s1 = length s).
    { unfold past_iteration. destruct (_ <? _)%nat; [by exists s, acc|].
      destruct (past_frame_returns patch_size timestep (timestep - h) s)
        as (s1 & [[img Hp] bbox] & Hframe & Hlen); [lia..|].
      unfold mbind, Py_bind. rewrite Hframe.
      destruct (BBox.does_overlap _ _); eexists _, _; split; done. }
    destruct Hstep as (s1 & acc1 & Hstep & Hlen).
    destruct (IH acc1 s1) as (s' & out & Hrest & Hlen'); [lia|].
    exists s', out. cbn [foldM]. unfold mbind, Py_bind. rewrite Hstep.
    split; [exact Hrest|lia].
Qed.

Lemma timestep_iteration_returns history_size patch_size patches timestep
    (s : RobotData) :
  (timestep < length s)%nat ->
  exists s' out,
    timestep_iteration warpPerspective resize perspectiveTransform
      compute_homography_from_rt H K plane_normal plane_distance
      history_size patch_size patches timestep s = (s', Ok out)
    /\ length s' = length s.
Proof using perspectiveTransform_length compute_homography_from_rt_returns.
  intros Ht. destruct (lookup_lt_is_Some_2 s timestep Ht) as [fr Hfr].
  unfold timestep_iteration.
  unfold mbind at 1, Py_bind at 1, getImageAtTimestep. rewrite Hfr.
  unfold mbind at 1, Py_bind at 1, getOdomAtTimestep. rewrite Hfr.
  unfold mbind at 1, Py_bind at 1, iadd_trans at 1.
  set (s1 := alter _ timestep s).
  assert (Hlen : length s1 = length s) by apply length_alter.
  destruct (foldM_past_iteration_returns patch_size timestep
              (BBox.mk 0 0 (Z.of_nat patch_size.1) (Z.of_nat patch_size.2))
              (range 1 history_size)
              [warp_patch warpPerspective resize (image fr) H patch_size]
              s1) as (s2 & entry & Hpast & Hlen2); [lia|].
  unfold mbind at 1, Py_bind at 1. rewrite Hpast.
  eexists _, _. split; [reflexivity|lia].
Qed.

(** With collaborators that do their part the sampler returns: no
    exception is raised, overlap failures included. *)
Lemma ComputeVicRegData_returns history_size patch_size (s : RobotData) :
  exists s' patches,
    ComputeVicRegData warpPerspective resize perspectiveTransform
      compute_homography_from_rt H K plane_normal plane_distance
      history_size patch_size s = (s', Ok patches).
Proof using perspectiveTransform_length compute_homography_from_rt_returns.
  unfold ComputeVicRegData, mbind at 1, Py_bind at 1, getNTimesteps.
  assert (Hloop : forall ts acc (s0 : RobotData),
            Forall (fun t => (t < length s0)%nat) ts ->
            exists s' patches,
              foldM (timestep_iteration warpPerspective resize
                       perspectiveTransform compute_homography_from_rt H K
                       plane_normal plane_distance history_size patch_size)
                    acc ts s0 = (s', Ok patches)).
  { induction ts as [|t ts IH]; intros acc s0 Hts; [by exists s0, acc|].
    apply Forall_cons in Hts as [Ht Hts].
    destruct (timestep_iteration_returns history_size patch_size acc t s0 Ht)
      as (s1 & out & Hstep & Hlen).
    cbn [foldM]. unfold mbind, Py_bind. rewrite Hstep.
    apply IH. eapply Forall_impl; [exact Hts|]. cbn. intros t' Ht'. lia. }
  apply Hloop. apply Forall_forall. intros t Ht%elem_of_seq. lia.
Qed.

End SamplerReturns.

(** ** The model chessboard *)

Section ModelChessboard.

Variables midpoint_row midpoint_col : R.

Let write (row cols : nat) (mc : list (R * R)) (col : nat) :=
  alter (fun p : R * R => (p.1, (INR row + 0.5) - midpoint_row))
        (row * cols + col)%nat
        (alter (fun p : R * R => ((INR col + 0.5) - midpoint_col, p.2))
               (row * cols + col)%nat mc).

Lemma write_next row cols col (pre rest : list (R * R)) (x : R * R) :
  length pre = (row * cols + col)%nat ->
  write row cols (pre ++ x :: rest) col
  = (pre ++ [centred_point midpoint_row midpoint_col row col]) ++ rest.
Proof.
  intros Hlen. unfold write. rewrite <- Hlen.
  rewrite <- (Nat.add_0_r (length pre)), !alter_app_r.
  by rewrite <- app_assoc.
Qed.

Lemma fill_row row cols (pre rest : list (R * R)) (n : nat) :
  length pre = (row * cols)%nat -> (n <= length rest)%nat ->
  fold_left (write row cols) (seq 0 n) (pre ++ rest)
  = (pre ++ (centred_point midpoint_row midpoint_col row <$> seq 0 n))
      ++ drop n rest.
Proof.
  intros Hpre. induction n as [|n IH]; intros Hn.
  - cbn. by rewrite app_nil_r.
  - rewrite seq_S, fold_left_app, IH by lia. cbn [fold_left].
    destruct (lookup_lt_is_Some_2 rest n) as [x Hx]; [lia|].
    rewrite (drop_S _ _ _ Hx), write_next.
    + by rewrite fmap_app, !app_assoc.
    + rewrite length_app, length_fmap, length_seq. lia.
Qed.

Lemma length_centred_grid rows cols :
  length (centred_grid midpoint_row midpoint_col rows cols)
  = (rows * cols)%nat.
Proof.
  induction rows as [|row IH]; [done|]. cbn [centred_grid].
  rewrite length_app, IH, length_fmap, length_seq. lia.
Qed.

Lemma fill_rows cols (mc0 : list (R * R)) (n : nat) :
  (n * cols <= length mc0)%nat ->
  fold_left (fun mc row => fold_left (write row cols) (range 0 cols) mc)
            (seq 0 n) mc0
  = centred_grid midpoint_row midpoint_col n cols ++ drop (n * cols) mc0.
Proof.
  induction n as [|n IH]; intros Hn; [done|].
  rewrite seq_S, fold_left_app, IH by lia. cbn [fold_left centred_grid].
  unfold range. rewrite Nat.sub_0_r, fill_row.
  - rewrite drop_drop. do 2 f_equal. lia.
  - apply length_centred_grid.
  - rewrite length_drop. lia.
Qed.

Lemma lookup_centred_grid rows cols row col :
  (row < rows)%nat -> (col < cols)%nat ->
  centred_grid midpoint_row midpoint_col rows cols !! (row * cols + col)%nat
  = Some (centred_point midpoint_row midpoint_col row col).
Proof.
  intros Hrow Hcol. induction rows as [|n IH]; [lia|]. cbn [centred_grid].
  destruct (decide (row = n)) as [->|Hne].
  - rewrite lookup_app_r; rewrite length_centred_grid; [|lia].
    replace (n * cols + col - n * cols)%nat with col by lia.
    by rewrite list_lookup_fmap, lookup_seq_lt.
  - rewrite lookup_app_l; [apply IH; lia|].
    rewrite length_centred_grid. nia.
Qed.

End ModelChessboard.

Lemma compute_model_chessboard_grid rows cols :
  Homography.compute_model_chessboard rows cols
  = centred_grid (INR rows / 2) (INR cols / 2) rows cols.
Proof.
  unfold Homography.compute_model_chessboard, range at 2.
  rewrite Nat.sub_0_r.
  rewrite (fill_rows (INR rows / 2) (INR cols / 2) cols)
    by (by rewrite length_replicate).
  rewrite drop_ge by (by rewrite length_replicate).
  apply app_nil_r.
Qed.

Lemma sum_list_nil : sum_list [] = 0.
Proof. reflexivity. Qed.

Lemma sum_list_cons x xs : sum_list (x :: xs) = x + sum_list xs.
Proof. reflexivity. Qed.

Lemma sum_list_app xs ys : sum_list (xs ++ ys) = sum_list xs + sum_list ys.
Proof.
  induction xs as [|x xs IH]; cbn [app].
  - rewrite sum_list_nil. lra.
  - rewrite !sum_list_cons, IH. lra.
Qed.

Lemma sum_list_scale (c : R) xs :
  sum_list ((fun x => x * c) <$> xs) = sum_list xs * c.
Proof.
  induction xs as [|x xs IH]; cbn [fmap list_fmap].
  - rewrite sum_list_nil. lra.
  - rewrite !sum_list_cons, IH. lra.
Qed.

(** The sum of [INR i + a] over [i < n]. *)
Lemma sum_list_affine (a : R) (n : nat) :
  sum_list ((fun i => INR i + a) <$> seq 0 n)
  = INR n * (INR n - 1) / 2 + INR n * a.
Proof.
  induction n as [|n IH].
  - cbn [seq fmap list_fmap INR]. rewrite sum_list_nil. lra.
  - rewrite seq_S, fmap_app, sum_list_app, IH, S_INR.
    cbn [fmap list_fmap Nat.add]. rewrite sum_list_cons, sum_list_nil. lra.
Qed.

Lemma sum_list_const (a : R) {A} (l : list A) :
  sum_list ((fun _ => a) <$> l) = INR (length l) * a.
Proof.
  induction l as [|x l IH]; cbn [fmap list_fmap length].
  - rewrite sum_list_nil. cbn [INR]. lra.
  - rewrite sum_list_cons, IH, S_INR. lra.
Qed.

Lemma sum_centred_grid_x mr mc rows cols :
  sum_list (fst <$> centred_grid mr mc rows cols)
  = INR rows * (INR cols * (INR cols - 1) / 2 + INR cols * (0.5 - mc)).
Proof.
  induction rows as [|row IH].
  { cbn [centred_grid fmap list_fmap INR]. rewrite sum_list_nil. lra. }
  cbn [centred_grid].
  rewrite fmap_app, sum_list_app, IH, S_INR, <- list_fmap_compose.
  rewrite <- (sum_list_affine (0.5 - mc) cols).
  assert (Hext : (fst ∘ centred_point mr mc row) <$> seq 0 cols
                 = (fun i => INR i + (0.5 - mc)) <$> seq 0 cols).
  { apply list_fmap_ext. intros _ i _. cbn. lra. }
  rewrite Hext. lra.
Qed.

Lemma sum_centred_grid_y mr mc rows cols :
  sum_list (snd <$> centred_grid mr mc rows cols)
  = INR cols * (INR rows * (INR rows - 1) / 2 + INR rows * (0.5 - mr)).
Proof.
  induction rows as [|row IH].
  { cbn [centred_grid fmap list_fmap INR]. rewrite sum_list_nil. lra. }
  cbn [centred_grid].
  rewrite fmap_app, sum_list_app, IH, S_INR, <- list_fmap_compose.
  assert (Hext : (snd ∘ centred_point mr mc row) <$> seq 0 cols
                 = (fun _ => INR row + 0.5 - mr) <$> seq 0 cols).
  { apply list_fmap_ext. intros _ i _. cbn. lra. }
  rewrite Hext, sum_list_const, length_seq. lra.
Qed.

Lemma fmap_fst_scale (c : R) (l : list (R * R)) :
  fst <$> ((fun p : R * R => (p.1 * c, p.2 * c)) <$> l)
  = (fun x => x * c) <$> (fst <$> l).
Proof. induction l as [|p l IH]; [done|]. cbn. by f_equal. Qed.

Lemma fmap_snd_scale (c : R) (l : list (R * R)) :
  snd <$> ((fun p : R * R => (p.1 * c, p.2 * c)) <$> l)
  = (fun x => x * c) <$> (snd <$> l).
Proof. induction l as [|p l IH]; [done|]. cbn. by f_equal. Qed.

Section ModelChessboardProperties.

(** C6. Model chessboard.  With centring enabled, the generator returns
    [rows * cols] points in row-major order: the point of index
    [row * cols + col] is the centred grid point of that row and column
    at the given tile width; for a non-empty board the mean of the points
    is exactly (0, 0); two consecutive points of a row are [tile_width]
    apart horizontally and level vertically, so with at least two
    columns [point[1].x - point[0].x = tile_width]; and 6 rows of 8
    columns make 48 points. *)
Theorem model_chessboard_centred (rows cols : nat) (tile_width : R) :
  let points := compute_model_chessboard_2d rows cols tile_width true in
  length points = (rows * cols)%nat /\
  (forall row col, (row < rows)%nat -> (col < cols)%nat ->
     points !! (row * cols + col)%nat
     = Some (((INR col + 0.5) - INR cols / 2) * tile_width,
             ((INR row + 0.5) - INR rows / 2) * tile_width)) /\
  ((0 < rows)%nat -> (0 < cols)%nat -> np_mean points = (0, 0)) /\
  (forall row col, (row < rows)%nat -> (col + 1 < cols)%nat ->
     exists p q,
       points !! (row * cols + col)%nat = Some p /\
       points !! (row * cols + col + 1)%nat = Some q /\
       q.1 - p.1 = tile_width /\ q.2 = p.2) /\
  ((0 < rows)%nat -> (2 <= cols)%nat ->
     exists p q, points !! 0%nat = Some p /\ points !! 1%nat = Some q /\
                 q.1 - p.1 = tile_width) /\
  length (compute_model_chessboard_2d 6 8 30 true) = 48%nat.
Proof.
  intros points.
  assert (Hlen : forall r c tw,
             length (compute_model_chessboard_2d r c tw true) = (r * c)%nat).
  { intros r c tw. unfold compute_model_chessboard_2d.
    by rewrite length_fmap, compute_model_chessboard_grid,
      length_centred_grid. }
  assert (Hlookup : forall row col, (row < rows)%nat -> (col < cols)%nat ->
     points !! (row * cols + col)%nat
     = Some (((INR col + 0.5) - INR cols / 2) * tile_width,
             ((INR row + 0.5) - INR rows / 2) * tile_width)).
  { intros row col Hrow Hcol. unfold points, compute_model_chessboard_2d.
    rewrite list_lookup_fmap, compute_model_chessboard_grid.
    by rewrite lookup_centred_grid. }
  split_and!.
  - apply Hlen.
  - exact Hlookup.
  - intros _ _. unfold np_mean, points, compute_model_chessboard_2d.
    rewrite compute_model_chessboard_grid, fmap_fst_scale, fmap_snd_scale.
    rewrite !sum_list_scale, sum_centred_grid_x, sum_centred_grid_y.
    replace 0.5 with (1 / 2) by lra.
    apply f_equal2;
      match goal with
      | |- ?x / _ = 0 => replace x with 0 by field
      end; unfold Rdiv; apply Rmult_0_l.
  - intros row col Hrow Hcol. eexists _, _.
    rewrite <- Nat.add_assoc, !Hlookup by lia.
    split_and!; [done..| |done]. cbn. rewrite plus_INR. cbn. ring.
  - intros Hrows Hcols. eexists _, _.
    split_and!;
      [apply (Hlookup 0%nat 0%nat); lia|apply (Hlookup 0%nat 1%nat); lia|].
    cbn. ring.
  - by rewrite Hlen.
Qed.

End ModelChessboardProperties.

(** The 6 x 8 board with 30-pixel tiles. *)
Lemma model_chessboard_centred_witness :
  let points := compute_model_chessboard_2d 6 8 30 true in
  (0 < 6)%nat /\ (2 <= 8)%nat /\
  length points = 48%nat /\
  np_mean points = (0, 0) /\
  points !! 9%nat = Some (((1 + 0.5) - 8 / 2) * 30, ((1 + 0.5) - 6 / 2) * 30) /\
  exists p q, points !! 0%nat = Some p /\ points !! 1%nat = Some q /\
              q.1 - p.1 = 30.
Proof.
  intros points.
  destruct (model_chessboard_centred 6 8 30)
    as (Hlen & Hgrid & Hmean & _ & Hfirst & _).
  assert (H6 : (0 < 6)%nat) by lia. assert (H8 : (2 <= 8)%nat) by lia.
  split_and!; [exact H6|exact H8|exact Hlen| | |].
  - apply Hmean; lia.
  - assert (H1 : (1 < 6)%nat) by lia. assert (H1' : (1 < 8)%nat) by lia.
    pose proof (Hgrid 1%nat 1%nat H1 H1') as Hp. cbn [INR] in Hp.
    replace (1 + 1 + 1 + 1 + 1 + 1 + 1 + 1) with 8 in Hp by lra.
    replace (1 + 1 + 1 + 1 + 1 + 1) with 6 in Hp by lra.
    exact Hp.
  - exact (Hfirst H6 H8).
Defined.

(** ** Homography decomposition *)

Lemma det3_matmul (A B : Mat3) : det3 (A @@ B) = det3 A * det3 B.
Proof. destruct_mat A. destruct_mat B. cbn. ring. Qed.

Lemma det3_transpose (A : Mat3) : det3 (transpose A) = det3 A.
Proof. destruct_mat A. cbn. ring. Qed.

Lemma transpose_matmul (A B : Mat3) :
  transpose (A @@ B) = transpose B @@ transpose A.
Proof. destruct_mat A. destruct_mat B. array_eq ring. Qed.

Lemma det3_orthogonal (A : Mat3) :
  transpose A @@ A = eye3 -> det3 A * det3 A = 1.
Proof.
  intros HA. apply (f_equal det3) in HA.
  rewrite det3_matmul, det3_transpose in HA. rewrite HA. cbn. ring.
Qed.

Lemma orthogonal_matmul (U V : Mat3) :
  transpose U @@ U = eye3 -> transpose V @@ V = eye3 ->
  transpose (U @@ V) @@ (U @@ V) = eye3.
Proof.
  intros HU HV.
  rewrite transpose_matmul, matmul_assoc, <- (matmul_assoc (transpose U)).
  by rewrite HU, matmul_eye_l.
Qed.

Lemma dot_self_nonneg (v : Vec3) : 0 <= dot v v.
Proof. destruct_vec v. cbn. nra. Qed.

Lemma dot_self_pos (v : Vec3) : v <> (0, 0, 0) -> 0 < dot v v.
Proof.
  destruct_vec v. intros Hv. cbn.
  destruct (Req_dec r 0) as [->|Hr]; [|nra].
  destruct (Req_dec r0 0) as [->|Hr0]; [|nra].
  destruct (Req_dec r1 0) as [->|Hr1]; [|nra].
  by destruct Hv.
Qed.

Lemma cross_zero_l (v : Vec3) : cross (0, 0, 0) v = (0, 0, 0).
Proof. destruct_vec v. array_eq ring. Qed.

Lemma dot_zero_l (v : Vec3) : dot (0, 0, 0) v = 0.
Proof. destruct_vec v. cbn. ring. Qed.

Lemma cross_vscale (c : R) (u v : Vec3) :
  cross (vscale c u) (vscale c v) = vscale (c * c) (cross u v).
Proof. destruct_vec u. destruct_vec v. array_eq ring. Qed.

Lemma dot_vscale (c : R) (u : Vec3) :
  dot (vscale c u) (vscale c u) = c * c * dot u u.
Proof. destruct_vec u. cbn. ring. Qed.

(** The rows [K_inv h1], [K_inv h2], [K_inv h3] are the transpose of
    [K_inv @@ H]. *)
Lemma columns_of_product (H K_inv : Mat3) :
  let '(h1, h2, h3) := transpose H in
  (matvec K_inv h1, matvec K_inv h2, matvec K_inv h3)
  = transpose (K_inv @@ H).
Proof. destruct_mat H. destruct_mat K_inv. array_eq ring. Qed.

(** The array handed to the SVD has a positive determinant. *)
Lemma scaled_frame_det_pos (H K_inv : Mat3) :
  det3 H <> 0 -> det3 K_inv <> 0 ->
  0 < det3 (Homography.scaled_frame H K_inv).1.
Proof.
  intros HH HK.
  pose proof (columns_of_product H K_inv) as Hcols.
  unfold Homography.scaled_frame.
  destruct (transpose H) as [[h1 h2] h3].
  set (a := matvec K_inv h1) in *. set (b := matvec K_inv h2) in *.
  set (c := matvec K_inv h3) in *.
  assert (Hdet : dot (cross a b) c <> 0).
  { change (det3 (a, b, c) <> 0).
    rewrite Hcols, det3_transpose, det3_matmul. by apply Rmult_integral_contrapositive. }
  assert (Hab : cross a b <> (0, 0, 0)).
  { intros Hab. rewrite Hab, dot_zero_l in Hdet. done. }
  assert (Ha : a <> (0, 0, 0)).
  { intros Ha. rewrite Ha, cross_zero_l in Hab. done. }
  assert (Hnorm : 0 < norm a) by (apply sqrt_lt_R0, dot_self_pos, Ha).
  set (L := 1 / norm a).
  assert (HL : 0 < L) by (apply Rdiv_lt_0_compat; lra).
  cbn [fst det3]. rewrite cross_vscale, dot_vscale.
  clearbody L.
  repeat apply Rmult_lt_0_compat; try exact HL. by apply dot_self_pos.
Qed.

Section DecomposeProperties.

Variable svd : Mat3 -> Mat3 * Vec3 * Mat3.

(** C5. The rigid transform returned by the decomposition is a proper
    one: for invertible [H] and [K_inv], and an SVD of the scaled frame,
    the rotation block [R] satisfies [R^T R = I] with determinant [+1]
    and the bottom row is (0, 0, 0, 1). *)
Theorem decompose_homography_proper_rigid (H K_inv : Mat3) :
  det3 H <> 0 -> det3 K_inv <> 0 ->
  svd_contract (Homography.scaled_frame H K_inv).1
               (svd (Homography.scaled_frame H K_inv).1) ->
  let RT := Homography.decompose_homography_return_rt svd H K_inv in
  transpose (rot RT) @@ rot RT = eye3 /\
  det3 (rot RT) = 1 /\
  bottom RT = (0, 0, 0, 1).
Proof.
  intros HH HK Hsvd RT.
  pose proof (scaled_frame_det_pos H K_inv HH HK) as Hpos.
  unfold RT, Homography.decompose_homography_return_rt.
  destruct (Homography.scaled_frame H K_inv) as [R_ T]. cbn [fst] in *.
  destruct (svd R_) as [[U [[s1 s2] s3]] Vh].
  destruct Hsvd as (HU & HV & Hs1 & Hs2 & Hs3 & Hfactor).
  cbn [rot bottom set_rot set_trans eye4].
  split_and!; [by apply orthogonal_matmul| |done].
  rewrite Hfactor, !det3_matmul in Hpos. rewrite det3_matmul.
  apply det3_orthogonal in HU, HV.
  assert (Hdiag : det3 ((s1, 0, 0), (0, s2, 0), (0, 0, s3)) = s1 * s2 * s3)
    by (cbn; ring).
  rewrite Hdiag in Hpos.
  assert (0 <= s1 * s2 * s3) by (apply Rmult_le_pos; [apply Rmult_le_pos|]; done).
  assert (HUV : (det3 U * det3 Vh) * (det3 U * det3 Vh) = 1) by nra.
  assert (0 < det3 U * det3 Vh) by nra.
  nra.
Qed.

End DecomposeProperties.

(** A camera of focal length 2 looking straight at the plane: the scaled
    frame is the identity, whose SVD is (I, (1, 1, 1), I). *)
Lemma decompose_homography_proper_rigid_witness :
  let H : Mat3 := ((2, 0, 0), (0, 2, 0), (0, 0, 1)) in
  let K_inv : Mat3 := ((1 / 2, 0, 0), (0, 1 / 2, 0), (0, 0, 1)) in
  let svd := fun _ : Mat3 => (eye3, (1, 1, 1), eye3) in
  let RT := Homography.decompose_homography_return_rt svd H K_inv in
  det3 H <> 0 /\ det3 K_inv <> 0 /\
  svd_contract (Homography.scaled_frame H K_inv).1
               (svd (Homography.scaled_frame H K_inv).1) /\
  transpose (rot RT) @@ rot RT = eye3 /\ det3 (rot RT) = 1 /\
  bottom RT = (0, 0, 0, 1).
Proof.
  intros H K_inv svd RT.
  assert (HH : det3 H <> 0) by (cbn; lra).
  assert (HK : det3 K_inv <> 0) by (cbn; lra).
  assert (Hsvd : svd_contract (Homography.scaled_frame H K_inv).1
                              (svd (Homography.scaled_frame H K_inv).1)).
  { assert (Hnorm : norm (matvec K_inv (2, 0, 0)) = 1).
    { unfold norm. replace (dot _ _) with 1 by (cbn; field). apply sqrt_1. }
    unfold svd, svd_contract, Homography.scaled_frame, H.
    cbn [transpose fst]. rewrite Hnorm. unfold K_inv.
    split_and!; [array_eq ring|array_eq ring|lra..|].
    array_eq field. }
  split_and!; [exact HH|exact HK|exact Hsvd|..];
    apply (decompose_homography_proper_rigid svd H K_inv HH HK Hsvd).
Defined.

(** ** Calibration from a chessboard image *)

Section InitProperties.

Variable cvtColor_BGR2GRAY : Image -> list (list Z).
Variable findChessboardCorners :
  list (list Z) -> nat * nat -> bool * option (list (R * R)).
Variable findHomography : list (R * R) -> list (R * R) -> Mat3.
Variable camera_config : result CameraIntrinsics.t.
Variable decompose_homography : Mat3 -> Mat3 -> result (Mat4 * Vec3 * R).
Variable compute_model_chessboard_3d :
  nat -> nat -> Z -> bool -> list (R * R * R * R).
Variable cart_to_hom : list (R * R) -> list Vec3.
Variable hom_to_cart : list Vec3 -> list (R * R).

(** C7, as the code has it.  When corner detection fails --
    [findChessboardCorners] hands back no corners -- the construction
    raises, and the exception is the [AttributeError] of
    [corners.reshape]: no object is built, so no homography, rigid
    transform, plane normal or plane distance is exposed. *)
Theorem init_detection_failure (image : Image) (cb_rows cb_cols : nat)
    (ret : bool) :
  findChessboardCorners (cvtColor_BGR2GRAY image) (cb_cols, cb_rows)
    = (ret, None) ->
  HomographyFromChessboardImage.init cvtColor_BGR2GRAY findChessboardCorners
    findHomography camera_config decompose_homography
    compute_model_chessboard_3d cart_to_hom hom_to_cart
    image cb_rows cb_cols
  = Raise "AttributeError".
Proof.
  intros Hfail. unfold HomographyFromChessboardImage.init.
  rewrite Hfail. reflexivity.
Qed.

End InitProperties.

Lemma init_detection_failure_witness :
  no_board_found (map (map gray_mean) black_image) (8, 6)%nat = (false, None)
  /\ HomographyFromChessboardImage.init (map (map gray_mean)) no_board_found
       (fun _ _ => eye3) (Raise "FileNotFoundError")
       (fun _ _ => Raise "LinAlgError") (fun _ _ _ _ => [])
       (fun _ => []) (fun _ => []) black_image 6 8
     = Raise "AttributeError".
Proof.
  split; [reflexivity|].
  exact (init_detection_failure (map (map gray_mean)) no_board_found
           (fun _ _ => eye3) (Raise "FileNotFoundError")
           (fun _ _ => Raise "LinAlgError") (fun _ _ _ _ => [])
           (fun _ => []) (fun _ => []) black_image 6 8 false eq_refl).
Defined.

(** C7, as the spec words it, fails: on the all-black image the exception
    raised is not [CalibrationError]. *)
Lemma init_black_image_counterexample :
  ~ (forall findChessboardCorners image cb_rows cb_cols,
        (findChessboardCorners (map (map gray_mean) image) (cb_cols, cb_rows)).2
          = None ->
        HomographyFromChessboardImage.init (map (map gray_mean))
          findChessboardCorners
          (fun _ _ => eye3) (Raise "FileNotFoundError")
          (fun _ _ => Raise "LinAlgError") (fun _ _ _ _ => [])
          (fun _ => []) (fun _ => []) image cb_rows cb_cols
        = Raise "CalibrationError").
Proof.
  intros Hclaim.
  specialize (Hclaim no_board_found black_image 6%nat 8%nat eq_refl).
  discriminate Hclaim.
Qed.

(** ** Homogeneous to cartesian coordinates *)

Section HomToCartProperties.
Context {A : Type} (divide : A -> A -> A).

(** C8, as the code has it.  [hom_to_cart] checks nothing and raises
    nothing on account of [w]: on every array with a last row [w] it
    returns all rows but the last, each entry divided by the entry of
    [w] in its column -- a zero [w] included. *)
Theorem hom_to_cart_divides (points : list (list A)) (w : list A) :
  last points = Some w ->
  exists cart_pts,
    Homography.hom_to_cart divide points = Ok cart_pts /\
    length cart_pts = (length points - 1)%nat /\
    forall i j row x wj,
      (i + 1 < length points)%nat ->
      points !! i = Some row -> row !! j = Some x -> w !! j = Some wj ->
      exists cart_row,
        cart_pts !! i = Some cart_row /\
        cart_row !! j = Some (divide x wj).
Proof.
  intros Hw. unfold Homography.hom_to_cart. rewrite Hw.
  eexists. split; [reflexivity|]. rewrite length_fmap. split.
  - rewrite length_take, length_fmap. lia.
  - intros i j row x wj Hi Hrow Hx Hwj.
    exists (zip_with divide row w). split.
    + rewrite lookup_take_lt by lia.
      by rewrite list_lookup_fmap, Hrow.
    + by rewrite lookup_zip_with, Hx, (* column j *) Hwj.
Qed.

End HomToCartProperties.

Section HomToCartFloats.
Import PrimFloat.
Local Open Scope float_scope.

Lemma hom_to_cart_divides_witness :
  last points_at_infinity = Some [0; 1; 2] /\
  exists cart_pts,
    Homography.hom_to_cart div points_at_infinity = Ok cart_pts /\
    length cart_pts = 2%nat /\
    exists cart_row,
      cart_pts !! 1%nat = Some cart_row /\
      cart_row !! 0%nat = Some (2 / 0).
Proof.
  assert (Hw : last points_at_infinity = Some [0; 1; 2]) by reflexivity.
  split; [exact Hw|].
  destruct (hom_to_cart_divides div points_at_infinity [0; 1; 2] Hw)
    as (cart_pts & Hrun & Hlen & Hentries).
  exists cart_pts. split_and!; [exact Hrun|exact Hlen|].
  apply (Hentries 1%nat 0%nat [2; 2; 8] 2 0); [cbn; lia|reflexivity..].
Defined.

(** C8, as the spec words it, fails: with a [w] that is exactly zero,
    hence within machine epsilon of zero, nothing is raised and the
    output holds infinities. *)
Lemma hom_to_cart_zero_w_counterexample :
  last points_at_infinity = Some [0; 1; 2] /\
  leb (abs 0) machine_epsilon = true /\
  Homography.hom_to_cart div points_at_infinity
    = Ok [[infinity; 1; 3]; [infinity; 2; 4]] /\
  Homography.hom_to_cart div points_at_infinity
    <> Raise "DegenerateProjectionError".
Proof. split_and!; [reflexivity..|discriminate]. Qed.

End HomToCartFloats.

(** ** Tile-width estimation *)

Section StableSort.
Context {A : Type} (key : A -> R).

Lemma insert_by_Permutation (x : A) (l : list A) :
  insert_by key x l ≡ₚ x :: l.
Proof.
  induction l as [|y l IH]; cbn [insert_by]; [done|].
  destruct (Rlt_dec (key y) (key x)); [|done].
  rewrite IH. apply Permutation_swap.
Qed.

Lemma sorted_Permutation (l : list A) : sorted key l ≡ₚ l.
Proof.
  induction l as [|x l IH]; [done|]. cbn [sorted foldr].
  fold (sorted key l). by rewrite insert_by_Permutation, IH.
Qed.

Lemma insert_by_StronglySorted (x : A) (l : list A) :
  StronglySorted (ascending key) l -> StronglySorted (ascending key) (insert_by key x l).
Proof.
  induction 1 as [|y l Hsorted IH Hy]; cbn [insert_by].
  - repeat constructor.
  - destruct (Rlt_dec (key y) (key x)) as [Hlt|Hge].
    + constructor; [done|].
      rewrite insert_by_Permutation. constructor; [|done].
      unfold ascending. lra.
    + constructor; [by constructor|].
      constructor; [unfold ascending; lra|].
      eapply Forall_impl; [exact Hy|]. unfold ascending. intros z Hz. lra.
Qed.

Lemma sorted_StronglySorted (l : list A) :
  StronglySorted (ascending key) (sorted key l).
Proof.
  induction l as [|x l IH]; [constructor|].
  cbn [sorted foldr]. by apply insert_by_StronglySorted.
Qed.

Lemma length_sorted (l : list A) : length (sorted key l) = length l.
Proof. by rewrite sorted_Permutation. Qed.
End StableSort.

(** The running maximum of a loop. *)
Lemma fold_left_Rmax_init (ds : list R) (w : R) : w <= fold_left Rmax ds w.
Proof.
  revert w. induction ds as [|d ds IH]; intros w; cbn [fold_left]; [lra|].
  etrans; [|apply IH]. apply Rmax_l.
Qed.

Lemma fold_left_Rmax_bound (ds : list R) (w d : R) :
  d ∈ ds -> d <= fold_left Rmax ds w.
Proof.
  revert w. induction ds as [|d' ds IH]; intros w Hd; cbn [fold_left].
  - by apply elem_of_nil in Hd.
  - apply elem_of_cons in Hd as [->|Hd]; [|by apply IH].
    etrans; [|apply fold_left_Rmax_init]. apply Rmax_r.
Qed.

Lemma fold_left_Rmax_attained (ds : list R) (w : R) :
  fold_left Rmax ds w = w \/ fold_left Rmax ds w ∈ ds.
Proof.
  revert w. induction ds as [|d ds IH]; intros w; cbn [fold_left]; [by left|].
  destruct (IH (Rmax w d)) as [->|Hin].
  - unfold Rmax. destruct (Rle_dec w d); [right; left|by left].
  - right. by right.
Qed.

Lemma row_tile_width_Rmax (w : R) (row : list (R * R)) :
  HomographyFromChessboardImage.row_tile_width w row
  = fold_left Rmax (neighbour_distances (sorted fst row)) w.
Proof.
  unfold HomographyFromChessboardImage.row_tile_width, neighbour_distances.
  generalize (range 0 (length (sorted fst row) - 1)). intros idxs.
  revert w. induction idxs as [|i idxs IH]; intros w; [done|].
  cbn [fold_left fmap list_fmap]. apply IH.
Qed.

Lemma fold_row_tile_width_Rmax (w : R) (rows : list (list (R * R))) :
  fold_left HomographyFromChessboardImage.row_tile_width rows w
  = fold_left Rmax
      (concat ((fun row => neighbour_distances (sorted fst row)) <$> rows)) w.
Proof.
  revert w. induction rows as [|row rows IH]; intros w; [done|].
  cbn [fold_left fmap list_fmap concat].
  by rewrite fold_left_app, IH, row_tile_width_Rmax.
Qed.

Lemma elem_of_neighbour_distances (row : list (R * R)) (d : R) :
  d ∈ neighbour_distances row <->
  exists i p q, row !! i = Some p /\ row !! S i = Some q /\
                d = norm2 (psub p q).
Proof.
  unfold neighbour_distances, range. rewrite Nat.sub_0_r, list_elem_of_fmap.
  split.
  - intros (i & -> & Hi). apply elem_of_seq in Hi.
    destruct (lookup_lt_is_Some_2 row i) as [p Hp]; [lia|].
    destruct (lookup_lt_is_Some_2 row (S i)) as [q Hq]; [lia|].
    exists i, p, q. split_and!; [done..|].
    rewrite Nat.add_1_r. by rewrite !nth_lookup, Hp, Hq.
  - intros (i & p & q & Hp & Hq & ->). exists i. split.
    + rewrite Nat.add_1_r. by rewrite !nth_lookup, Hp, Hq.
    + apply elem_of_seq. apply lookup_lt_Some in Hq. lia.
Qed.

Lemma neighbour_distances_nil (row : list (R * R)) :
  neighbour_distances row = [] -> (length row <= 1)%nat.
Proof.
  unfold neighbour_distances, range. rewrite Nat.sub_0_r.
  intros Hnil%fmap_nil_inv. apply (f_equal length) in Hnil.
  rewrite length_seq in Hnil. cbn in Hnil. lia.
Qed.

Lemma norm2_nonneg (p : R * R) : 0 <= norm2 p.
Proof. apply sqrt_pos. Qed.

Section TileWidthProperties.
Import HomographyFromChessboardImage.

(** C9. Tile-width estimation.  The corners are sorted on the vertical
    coordinate and cut into groups of [cb_cols]; each group, sorted
    horizontally, is a row; the estimate is the largest distance between
    two neighbours of a row, over all rows: it bounds every such
    distance and is one of them (it is 0 when no row has two corners). *)
Theorem chessboard_tile_width_max (corners : list (R * R)) (cb_cols : nat) :
  cb_cols <> 0%nat ->
  let sorted_corners := sorted snd corners in
  let groups := corner_rows corners cb_cols in
  let rows := sorted fst <$> groups in
  (sorted_corners ≡ₚ corners /\
   StronglySorted (ascending snd) sorted_corners) /\
  (length groups = (length corners / cb_cols)%nat /\
   forall k, (k < length corners / cb_cols)%nat ->
     groups !! k = Some (take cb_cols (drop (k * cb_cols) sorted_corners))) /\
  (forall k group, groups !! k = Some group ->
     exists row, rows !! k = Some row /\ row ≡ₚ group /\
                 StronglySorted (ascending fst) row) /\
  exists cb_tile_width,
    chessboard_tile_width corners cb_cols = Ok cb_tile_width /\
    (forall row i p q,
        row ∈ rows -> row !! i = Some p -> row !! S i = Some q ->
        norm2 (psub p q) <= cb_tile_width) /\
    ((exists row i p q,
         row ∈ rows /\ row !! i = Some p /\ row !! S i = Some q /\
         cb_tile_width = norm2 (psub p q))
     \/ (cb_tile_width = 0 /\
         forall row, row ∈ rows -> (length row <= 1)%nat)).
Proof.
  intros Hcols sorted_corners groups rows.
  split; [split; [apply sorted_Permutation|apply sorted_StronglySorted]|].
  assert (Hlen : length groups = (length corners / cb_cols)%nat).
  { unfold groups, corner_rows, range.
    by rewrite length_fmap, length_seq, Nat.sub_0_r, length_sorted. }
  split; [split; [done|]|split].
  - intros k Hk. unfold groups, corner_rows, range, slice.
    rewrite list_lookup_fmap, length_sorted, Nat.sub_0_r, lookup_seq_lt by done.
    cbn. do 2 f_equal. lia.
  - intros k group Hgroup. exists (sorted fst group). split_and!.
    + unfold rows. by rewrite list_lookup_fmap, Hgroup.
    + apply sorted_Permutation.
    + apply sorted_StronglySorted.
  - exists (fold_left row_tile_width groups 0).
    unfold chessboard_tile_width. destruct (decide (cb_cols = 0%nat)); [done|].
    split; [done|]. rewrite fold_row_tile_width_Rmax.
    set (ds := concat ((fun row => neighbour_distances (sorted fst row))
                         <$> groups)).
    assert (Hds : forall d, d ∈ ds <->
              exists row i p q, row ∈ rows /\ row !! i = Some p /\
                                row !! S i = Some q /\ d = norm2 (psub p q)).
    { intros d. unfold ds, rows.
      rewrite list_elem_of_In, in_concat. split.
      - intros (dists & Hdists%list_elem_of_In & Hd%list_elem_of_In).
        apply list_elem_of_fmap in Hdists as (group & -> & Hgroup).
        apply elem_of_neighbour_distances in Hd as (i & p & q & ?).
        exists (sorted fst group), i, p, q.
        split; [|done]. apply list_elem_of_fmap. eauto.
      - intros (row & i & p & q & Hrow & Hp & Hq & ->).
        apply list_elem_of_fmap in Hrow as (group & -> & Hgroup).
        exists (neighbour_distances (sorted fst group)).
        rewrite <- !list_elem_of_In. split.
        + apply list_elem_of_fmap. eauto.
        + apply elem_of_neighbour_distances. eauto 10. }
    split.
    + intros row i p q Hrow Hp Hq. apply fold_left_Rmax_bound.
      apply Hds. eauto 10.
    + destruct (fold_left_Rmax_attained ds 0) as [Hzero|Hin].
      * destruct ds as [|d ds'] eqn:Heq.
        { right. split; [done|]. intros row Hrow.
          destruct (decide (length row <= 1)%nat) as [|Hlong]; [done|].
          destruct (lookup_lt_is_Some_2 row 0) as [p Hp]; [lia|].
          destruct (lookup_lt_is_Some_2 row 1) as [q Hq]; [lia|].
          assert (Habsurd : norm2 (psub p q) ∈ @nil R)
            by (apply Hds; eauto 10).
          by apply elem_of_nil in Habsurd. }
        left. rewrite Hzero.
        assert (Hd : d ∈ d :: ds') by left.
        pose proof (fold_left_Rmax_bound _ 0 _ Hd) as Hle.
        rewrite Hzero in Hle.
        apply Hds in Hd as (row & i & p & q & Hrow & Hp & Hq & ->).
        pose proof (norm2_nonneg (psub p q)).
        exists row, i, p, q. split_and!; [done..|lra].
      * left. by apply Hds.
Qed.

End TileWidthProperties.

(** A 2 x 2 board seen in perspective, its corners in no particular
    order: the near row is 10 wide, the far row 5. *)
Example chessboard_tile_width_example :
  HomographyFromChessboardImage.chessboard_tile_width
    [(6, 18); (0, 0); (0, 10); (3, 4)] 2 = Ok 10.
Proof.
  unfold HomographyFromChessboardImage.chessboard_tile_width.
  destruct (decide (2 = 0)%nat) as [|_]; [lia|]. f_equal.
  unfold HomographyFromChessboardImage.corner_rows.
  assert (Hsorted : sorted snd [(6, 18); (0, 0); (0, 10); (3, 4)]
                    = [(0, 0); (3, 4); (0, 10); (6, 18)]).
  { unfold sorted. cbn [foldr insert_by snd].
    repeat (destruct (Rlt_dec _ _); try lra; cbn [insert_by snd]).
    reflexivity. }
  rewrite Hsorted.
  cbn [length Nat.div Nat.divmod fst range seq Nat.sub fmap list_fmap slice
       Nat.mul Nat.add take drop fold_left].
  unfold HomographyFromChessboardImage.row_tile_width.
  assert (Hfar : sorted fst [(0, 0); (3, 4)] = [(0, 0); (3, 4)]).
  { unfold sorted. cbn [foldr insert_by fst].
    repeat (destruct (Rlt_dec _ _); try lra; cbn [insert_by fst]).
    reflexivity. }
  assert (Hnear : sorted fst [(0, 10); (6, 18)] = [(0, 10); (6, 18)]).
  { unfold sorted. cbn [foldr insert_by fst].
    repeat (destruct (Rlt_dec _ _); try lra; cbn [insert_by fst]).
    reflexivity. }
  rewrite Hfar, Hnear.
  cbn [length Nat.sub range seq fold_left nth Nat.add].
  unfold norm2, psub. cbn [fst snd].
  replace ((0 - 3) * (0 - 3) + (0 - 4) * (0 - 4)) with (5 * 5) by ring.
  replace ((0 - 6) * (0 - 6) + (10 - 18) * (10 - 18)) with (10 * 10) by ring.
  rewrite !sqrt_square by lra.
  unfold Rmax. repeat (destruct (Rle_dec _ _); try lra).
Qed.

Lemma chessboard_tile_width_max_witness :
  let corners : list (R * R) := [(6, 18); (0, 0); (0, 10); (3, 4)] in
  let rows :=
    sorted fst <$> HomographyFromChessboardImage.corner_rows corners 2 in
  2%nat <> 0%nat /\
  length (HomographyFromChessboardImage.corner_rows corners 2) = 2%nat /\
  exists cb_tile_width,
    HomographyFromChessboardImage.chessboard_tile_width corners 2
      = Ok cb_tile_width /\
    (forall row i p q,
        row ∈ rows -> row !! i = Some p -> row !! S i = Some q ->
        norm2 (psub p q) <= cb_tile_width).
Proof.
  intros corners rows.
  assert (Hcols : 2%nat <> 0%nat) by lia.
  destruct (chessboard_tile_width_max corners 2 Hcols)
    as (_ & (Hlen & _) & _ & w & Hrun & Hbound & _).
  split_and!; [exact Hcols|exact Hlen|].
  exists w. split; [exact Hrun|exact Hbound].
Defined.

(** ** The mosaic and its bottom crop *)

Section MosaicProperties.
Import HomographyFromChessboardImage.

Variable gray_of : Pixel -> Z.

Lemma row_has_content_spec (img : list (list Pixel)) (threshold : Z)
    (k : nat) (row : list Pixel) :
  img !! k = Some row ->
  row_has_content (cvtColor gray_of img) threshold k = true
  <-> has_content gray_of threshold row.
Proof.
  intros Hrow. unfold row_has_content, cvtColor, has_content.
  rewrite nth_lookup, list_lookup_fmap, Hrow.
  cbn [fmap option_fmap option_map default].
  rewrite existsb_exists. split.
  - intros (v & Hv%list_elem_of_In & Hlt%Z.ltb_lt).
    apply list_elem_of_fmap in Hv as (p & -> & Hp). eauto.
  - intros (p & Hp & Hlt). exists (gray_of p). split.
    + apply list_elem_of_In, list_elem_of_fmap. eauto.
    + by apply Z.ltb_lt.
Qed.

(** The crop row found by the upward scan over the rows below [n]. *)
Lemma scan_rows_spec (gray : list (list Z)) (threshold : Z) (h n : nat) :
  let crop_row := scan_rows gray threshold h (reverse (range 0 n)) in
  (crop_row = h /\
   forall k, (k < n)%nat -> row_has_content gray threshold k = false)
  \/ (exists k, crop_row = S k /\ (k < n)%nat /\
        row_has_content gray threshold k = true /\
        forall j, (k < j < n)%nat -> row_has_content gray threshold j = false).
Proof.
  unfold range. rewrite Nat.sub_0_r.
  induction n as [|n IH]; cbn zeta.
  - left. split; [done|]. intros k Hk. lia.
  - rewrite seq_S, reverse_app. cbn [reverse rev_append app Nat.add scan_rows].
    change (rev_append ?l []) with (reverse l).
    destruct (row_has_content gray threshold n) eqn:Hn.
    + right. exists n. split_and!; [lia|lia|done|]. intros j Hj. lia.
    + destruct IH as [[Hcrop Hnone]|(k & Hcrop & Hk & Hcontent & Hblack)].
      * left. split; [done|]. intros k Hk.
        destruct (decide (k = n)) as [->|]; [done|]. apply Hnone. lia.
      * right. exists k. split_and!; [done|lia|done|].
        intros j Hj. destruct (decide (j = n)) as [->|]; [done|].
        apply Hblack. lia.
Qed.

(** The bottom crop: the image is cut right after its last row with
    content, and returned whole when no row has content. *)
Lemma crop_bottom_to_content_spec (img : list (list Pixel)) (threshold : Z) :
  let out := crop_bottom_to_content gray_of img threshold in
  (forall k row,
      img !! k = Some row -> has_content gray_of threshold row ->
      (forall j row', (k < j)%nat -> img !! j = Some row' ->
                      ~ has_content gray_of threshold row') ->
      out = take (S k) img /\ last out = Some row) /\
  ((forall k row, img !! k = Some row -> ~ has_content gray_of threshold row) ->
   out = img).
Proof.
  intros out. unfold out, crop_bottom_to_content.
  pose proof (scan_rows_spec (cvtColor gray_of img) threshold
                (length (cvtColor gray_of img))
                (length (cvtColor gray_of img))) as Hscan.
  cbn zeta in Hscan.
  set (crop_row := scan_rows _ _ _ _) in *.
  assert (Hlen : length (cvtColor gray_of img) = length img)
    by (unfold cvtColor; apply length_fmap).
  rewrite Hlen in Hscan.
  assert (Hbool : forall k row, img !! k = Some row ->
            row_has_content (cvtColor gray_of img) threshold k = false ->
            ~ has_content gray_of threshold row).
  { intros k row Hrow Hfalse Hcontent%(row_has_content_spec img _ k); [|done].
    congruence. }
  split.
  - intros k row Hrow Hcontent Hlast.
    pose proof (lookup_lt_Some _ _ _ Hrow) as Hk.
    destruct Hscan as [[_ Hnone]|(k0 & Hcrop & Hk0 & Hcontent0 & Hblack)].
    { exfalso. eapply Hbool; [exact Hrow|by apply Hnone|done]. }
    assert (k = k0) as <-.
    { destruct (Nat.lt_trichotomy k k0) as [Hlt|[->|Hgt]]; [|done|].
      - destruct (lookup_lt_is_Some_2 img k0 Hk0) as [row0 Hrow0].
        exfalso. apply (Hlast k0 row0 Hlt Hrow0).
        by apply (row_has_content_spec img _ k0).
      - exfalso. eapply Hbool; [exact Hrow|apply Hblack; lia|done]. }
    rewrite Hcrop. split; [done|].
    rewrite last_lookup, length_take_le by lia. cbn [pred].
    by rewrite lookup_take_lt by lia.
  - intros Hnone.
    destruct Hscan as [[Hcrop _]|(k0 & _ & Hk0 & Hcontent0 & _)].
    + rewrite Hcrop. by apply take_ge.
    + destruct (lookup_lt_is_Some_2 img k0 Hk0) as [row0 Hrow0].
      exfalso. apply (Hnone k0 row0 Hrow0).
      by apply (row_has_content_spec img _ k0).
Qed.

Variable warpPerspective : Image -> Mat3 -> nat * nat -> Image.
Variable resize : Image -> nat * nat -> Image.
Variable hconcat : list Image -> Image.
Variable vconcat : list Image -> Image.

(** C10, as the code has it.  When the stitched mosaic has a row with a
    pixel brighter than the threshold 1, the returned raster is the
    mosaic cut right after the last such row: that row and all rows above
    it are kept, the all-black rows below it are gone, and the last row
    of the returned raster has a pixel above the threshold.  A mosaic
    without any such row is returned whole. *)
Theorem plot_BEV_full_trims_black_bottom (img : Image) (H : Mat3)
    (patch_size : nat * nat) :
  let stitched : list (list Pixel) :=
    stitch warpPerspective resize hconcat vconcat img H patch_size in
  let out : list (list Pixel) :=
    plot_BEV_full gray_of warpPerspective resize hconcat vconcat
      img H patch_size in
  (forall k row,
      stitched !! k = Some row -> has_content gray_of 1 row ->
      (forall j row', (k < j)%nat -> stitched !! j = Some row' ->
                      ~ has_content gray_of 1 row') ->
      out = take (S k) stitched /\ last out = Some row) /\
  ((forall k row, stitched !! k = Some row -> ~ has_content gray_of 1 row) ->
   out = stitched).
Proof.
  intros stitched out. unfold out, plot_BEV_full.
  apply (crop_bottom_to_content_spec stitched 1).
Qed.

End MosaicProperties.

Lemma gray_mean_black_row (n : nat) :
  ~ has_content gray_mean 1 (replicate n (0, 0, 0)%Z).
Proof.
  intros (p & Hp & Hlt). apply elem_of_replicate in Hp as [-> _].
  vm_compute in Hlt. discriminate.
Qed.

(** C10, as the spec words it, fails: the mosaic of an all-black image is
    returned whole, and its last row has no pixel above the threshold. *)
Lemma plot_BEV_full_black_counterexample :
  let stitched :=
    HomographyFromChessboardImage.stitch warp_copy resize_copy hconcat_rows
      vconcat_rows black_patch eye3 (2, 2)%nat in
  let out :=
    HomographyFromChessboardImage.plot_BEV_full gray_mean warp_copy
      resize_copy hconcat_rows vconcat_rows black_patch eye3 (2, 2)%nat in
  out = stitched /\
  last out = Some (replicate 28 (0, 0, 0)%Z) /\
  ~ has_content gray_mean 1 (replicate 28 (0, 0, 0)%Z).
Proof.
  split_and!; [vm_compute; reflexivity..|apply gray_mean_black_row].
Qed.

(** The mosaic of [half_patch]: 24 rows, white and black in turn; the
    last one is black and is trimmed. *)
Lemma plot_BEV_full_trims_black_bottom_witness :
  let stitched : list (list Pixel) :=
    HomographyFromChessboardImage.stitch warp_copy resize_copy hconcat_rows
      vconcat_rows half_patch eye3 (2, 2)%nat in
  let out : list (list Pixel) :=
    HomographyFromChessboardImage.plot_BEV_full gray_mean warp_copy
      resize_copy hconcat_rows vconcat_rows half_patch eye3 (2, 2)%nat in
  let white_row := replicate 28 (255, 255, 255)%Z in
  stitched !! 22%nat = Some white_row /\
  has_content gray_mean 1 white_row /\
  (forall j row', (22 < j)%nat -> stitched !! j = Some row' ->
                  ~ has_content gray_mean 1 row') /\
  out = take 23 stitched /\ last out = Some white_row.
Proof.
  intros stitched out white_row.
  assert (Hrow : stitched !! 22%nat = Some white_row)
    by (vm_compute; reflexivity).
  assert (Hcontent : has_content gray_mean 1 white_row).
  { exists (255, 255, 255)%Z. split; [by left|]. reflexivity. }
  assert (Hbelow : forall j row', (22 < j)%nat -> stitched !! j = Some row' ->
                                  ~ has_content gray_mean 1 row').
  { intros j row' Hj Hrow'.
    assert (Hlen : length stitched = 24%nat) by (vm_compute; reflexivity).
    apply lookup_lt_Some in Hrow' as Hj'.
    assert (j = 23%nat) as -> by lia.
    assert (Hblack : Some row' = Some (replicate 28 (0, 0, 0)%Z))
      by (rewrite <- Hrow'; vm_compute; reflexivity).
    injection Hblack as ->. apply (gray_mean_black_row 28). }
  split_and!; [exact Hrow|exact Hcontent|exact Hbelow|..];
    apply (plot_BEV_full_trims_black_bottom gray_mean warp_copy resize_copy
             hconcat_rows vconcat_rows half_patch eye3 (2, 2)%nat)
      with (k := 22%nat) (row := white_row); assumption.
Defined.


(* ===================================================================== *)
(** * Part III. Further properties of the code                            *)
(* ===================================================================== *)

(** ** Bounding boxes *)

(** X1. The overlap test does not depend on the order of its
    arguments. *)
Theorem does_overlap_comm (a b : BBox.t) :
  BBox.does_overlap a b = BBox.does_overlap b a.
Proof.
  destruct a as [ax ay aX aY], b as [bx by_ bX bY]. cbn.
  f_equal. repeat (destruct (_ <? _)%Z); reflexivity.
Qed.

(** X2. A box overlaps itself exactly when it is not inside out: its
    minimum is at most its maximum on both axes. *)
Theorem does_overlap_self (a : BBox.t) :
  BBox.does_overlap a a = true
  <-> (BBox.xmin a <= BBox.xmax a /\ BBox.ymin a <= BBox.ymax a)%Z.
Proof. rewrite does_overlap_spec. lia. Qed.

(** X3. A box lying inside another one overlaps it, provided it is not
    inside out. *)
Theorem does_overlap_contained (a b : BBox.t) :
  (BBox.xmin a <= BBox.xmin b)%Z -> (BBox.xmax b <= BBox.xmax a)%Z ->
  (BBox.ymin a <= BBox.ymin b)%Z -> (BBox.ymax b <= BBox.ymax a)%Z ->
  (BBox.xmin b <= BBox.xmax b)%Z -> (BBox.ymin b <= BBox.ymax b)%Z ->
  BBox.does_overlap a b = true.
Proof. intros. apply does_overlap_spec. lia. Qed.

Lemma does_overlap_contained_witness :
  BBox.does_overlap (BBox.mk 0 0 128 128) (BBox.mk 10 20 30 40) = true.
Proof.
  apply (does_overlap_contained (BBox.mk 0 0 128 128) (BBox.mk 10 20 30 40));
    cbn; lia.
Defined.

(** ** Camera intrinsics *)

(** X4. For non-zero focal lengths the calibration matrix comes with its
    inverse: [K_inv] is the closed form below and is a two-sided inverse
    of [K]. *)
Theorem get_camera_calibration_matrix_inverse (self : CameraIntrinsics.t) :
  CameraIntrinsics.fx self <> 0 -> CameraIntrinsics.fy self <> 0 ->
  let fx := CameraIntrinsics.fx self in
  let fy := CameraIntrinsics.fy self in
  let cx := CameraIntrinsics.cx self in
  let cy := CameraIntrinsics.cy self in
  let K : Mat3 := ((fx, 0, cx), (0, fy, cy), (0, 0, 1)) in
  let K_inv : Mat3 := ((1 / fx, 0, - cx / fx), (0, 1 / fy, - cy / fy), (0, 0, 1)) in
  CameraIntrinsics.get_camera_calibration_matrix self = Ok (K, K_inv) /\
  K @@ K_inv = eye3 /\ K_inv @@ K = eye3.
Proof.
  intros Hfx Hfy fx fy cx cy K K_inv.
  unfold CameraIntrinsics.get_camera_calibration_matrix, np_linalg_inv.
  fold fx fy cx cy. fold K.
  assert (Hdet : det3 K = fx * fy) by (cbn; ring).
  destruct (Req_dec_T (det3 K) 0) as [Hzero|_].
  { rewrite Hdet in Hzero. apply Rmult_integral in Hzero as [?|?]; done. }
  split_and!.
  - cbn [mbind result_bind]. do 2 f_equal. rewrite Hdet.
    unfold K, K_inv. array_eq (field; done).
  - unfold K, K_inv. array_eq (field; done).
  - unfold K, K_inv. array_eq (field; done).
Qed.

Lemma get_camera_calibration_matrix_inverse_witness :
  let self := CameraIntrinsics.mk 600 500 320 240 in
  600 <> 0 /\ 500 <> 0 /\
  CameraIntrinsics.get_camera_calibration_matrix self
  = Ok (((600, 0, 320), (0, 500, 240), (0, 0, 1)),
        ((1 / 600, 0, - 320 / 600), (0, 1 / 500, - 240 / 500), (0, 0, 1))).
Proof.
  intros self.
  assert (Hfx : CameraIntrinsics.fx self <> 0) by (cbn; lra).
  assert (Hfy : CameraIntrinsics.fy self <> 0) by (cbn; lra).
  split_and!; [exact Hfx|exact Hfy|].
  apply (get_camera_calibration_matrix_inverse self Hfx Hfy).
Defined.

(** X5. The calibration matrix cannot be had exactly when a focal length
    is zero: the inversion raises [LinAlgError]. *)
Theorem get_camera_calibration_matrix_singular (self : CameraIntrinsics.t) :
  CameraIntrinsics.get_camera_calibration_matrix self = Raise "LinAlgError"
  <-> CameraIntrinsics.fx self = 0 \/ CameraIntrinsics.fy self = 0.
Proof.
  unfold CameraIntrinsics.get_camera_calibration_matrix, np_linalg_inv.
  set (K := ((CameraIntrinsics.fx self, 0, CameraIntrinsics.cx self),
             (0, CameraIntrinsics.fy self, CameraIntrinsics.cy self),
             (0, 0, 1)) : Mat3).
  assert (Hdet : det3 K
                 = CameraIntrinsics.fx self * CameraIntrinsics.fy self)
    by (cbn; ring).
  destruct (Req_dec_T (det3 K) 0) as [Hzero|Hnz]; cbn [mbind result_bind].
  - split; [intros _|done]. rewrite Hdet in Hzero.
    by apply Rmult_integral.
  - split; [done|]. intros [Hfx|Hfy]; exfalso; apply Hnz; rewrite Hdet.
    + rewrite Hfx. ring.
    + rewrite Hfy. ring.
Qed.

(** ** Homogeneous coordinates *)

Section RoundTrip.
Context {A : Type} (divide : A -> A -> A) (one : A).

Lemma zip_with_divide_ones (row : list A) :
  (forall x, divide x one = x) ->
  zip_with divide row (replicate (length row) one) = row.
Proof.
  intros Hone. induction row as [|x row IH]; [done|].
  cbn. by rewrite Hone, IH.
Qed.

(** X6. Round trip.  On an array of at least one row, all rows of one
    length, going to homogeneous coordinates and back gives the array
    again -- as soon as dividing by one changes nothing. *)
Theorem hom_to_cart_cart_to_hom (points : list (list A)) (n : nat) :
  (forall x, divide x one = x) ->
  points <> [] ->
  Forall (fun row => length row = n) points ->
  Homography.hom_to_cart divide (cart_to_hom one points) = Ok points.
Proof.
  intros Hone Hne Hrect. unfold Homography.hom_to_cart, cart_to_hom.
  rewrite last_snoc, fmap_app, length_app, length_fmap. cbn [fmap list_fmap length].
  replace (length points + 1 - 1)%nat with (length points) by lia.
  rewrite <- (length_fmap (fun row => zip_with divide row
                  (replicate (length (hd [] points)) one)) points) at 1.
  rewrite take_app_length. f_equal.
  destruct points as [|row0 points]; [done|]. cbn [hd].
  apply Forall_cons in Hrect as Hrect'. destruct Hrect' as [Hrow0 _].
  rewrite <- (list_fmap_id (row0 :: points)) at 2.
  apply Forall_fmap_ext_1. eapply Forall_impl; [exact Hrect|].
  intros row Hrow. cbn beta. rewrite Hrow0, <- Hrow.
  by apply zip_with_divide_ones.
Qed.

(** X7. [cart_to_hom] adds exactly one row, of ones, as long as the
    rows it is given. *)
Theorem cart_to_hom_shape (points : list (list A)) (n : nat) :
  points <> [] ->
  Forall (fun row => length row = n) points ->
  length (cart_to_hom one points) = S (length points) /\
  Forall (fun row => length row = n) (cart_to_hom one points) /\
  last (cart_to_hom one points) = Some (replicate n one) /\
  take (length points) (cart_to_hom one points) = points.
Proof.
  intros Hne Hrect. unfold cart_to_hom.
  destruct points as [|row0 points]; [done|]. cbn [hd].
  apply Forall_cons in Hrect as Hrect'. destruct Hrect' as [Hrow0 _].
  rewrite Hrow0. split_and!.
  - rewrite length_app. cbn. lia.
  - apply Forall_app. split; [done|].
    apply Forall_singleton, length_replicate.
  - apply last_snoc.
  - apply take_app_length.
Qed.

End RoundTrip.

Lemma hom_to_cart_cart_to_hom_witness :
  let points : list (list R) := [[1; 2; 3]; [4; 5; 6]] in
  (forall x, x / 1 = x) /\ points <> [] /\
  Forall (fun row => length row = 3%nat) points /\
  cart_to_hom 1 points = [[1; 2; 3]; [4; 5; 6]; [1; 1; 1]] /\
  Homography.hom_to_cart Rdiv (cart_to_hom 1 points) = Ok points.
Proof.
  intros points.
  assert (Hone : forall x, x / 1 = x) by (intros; field).
  assert (Hne : points <> []) by done.
  assert (Hrect : Forall (fun row => length row = 3%nat) points)
    by (repeat constructor).
  split_and!; [exact Hone|exact Hne|exact Hrect|reflexivity|].
  exact (hom_to_cart_cart_to_hom Rdiv 1 points 3 Hone Hne Hrect).
Defined.

Lemma cart_to_hom_shape_witness :
  let points : list (list R) := [[1; 2; 3]; [4; 5; 6]] in
  points <> [] /\ Forall (fun row => length row = 3%nat) points /\
  length (cart_to_hom 1 points) = 3%nat /\
  last (cart_to_hom 1 points) = Some [1; 1; 1].
Proof.
  intros points.
  assert (Hne : points <> []) by done.
  assert (Hrect : Forall (fun row => length row = 3%nat) points)
    by (repeat constructor).
  destruct (cart_to_hom_shape 1 points 3 Hne Hrect) as (Hlen & _ & Hlast & _).
  split_and!; [exact Hne|exact Hrect|exact Hlen|exact Hlast].
Defined.

(** ** The bottom crop *)

Section CropProperties.
Import HomographyFromChessboardImage.

Variable gray_of : Pixel -> Z.

(** [np.any(gray[row, :] > threshold)] on the rows of the image. *)
Lemma row_has_content_false (img : list (list Pixel)) (threshold : Z)
    (k : nat) (row : list Pixel) :
  img !! k = Some row ->
  row_has_content (cvtColor gray_of img) threshold k = false ->
  ~ has_content gray_of threshold row.
Proof.
  intros Hrow Hfalse Hcontent%(row_has_content_spec gray_of img _ k); [|done].
  congruence.
Qed.

(** The two ways the crop can end. *)
Lemma crop_bottom_to_content_cases (img : list (list Pixel)) (threshold : Z) :
  let out := crop_bottom_to_content gray_of img threshold in
  (out = img /\
   forall k row, img !! k = Some row -> ~ has_content gray_of threshold row)
  \/ (exists k row,
        img !! k = Some row /\ has_content gray_of threshold row /\
        (forall j row', (k < j)%nat -> img !! j = Some row' ->
                        ~ has_content gray_of threshold row') /\
        out = take (S k) img).
Proof.
  intros out. unfold out, crop_bottom_to_content.
  pose proof (scan_rows_spec (cvtColor gray_of img) threshold
                (length (cvtColor gray_of img))
                (length (cvtColor gray_of img))) as Hscan.
  cbn zeta in Hscan.
  assert (Hlen : length (cvtColor gray_of img) = length img)
    by (unfold cvtColor; apply length_fmap).
  set (crop_row := scan_rows _ _ _ _) in *. rewrite Hlen in Hscan.
  destruct Hscan as [[Hcrop Hnone]|(k & Hcrop & Hk & Hcontent & Hblack)].
  - left. rewrite Hcrop. split; [by apply take_ge|].
    intros k row Hrow. eapply row_has_content_false; [done|].
    apply Hnone. by eapply lookup_lt_Some.
  - right. destruct (lookup_lt_is_Some_2 img k Hk) as [row Hrow].
    exists k, row. split_and!; [done| | |by rewrite Hcrop].
    + by apply (row_has_content_spec gray_of img _ k).
    + intros j row' Hj Hrow'. eapply row_has_content_false; [done|].
      apply Hblack. apply lookup_lt_Some in Hrow'. lia.
Qed.

(** X8. The crop only ever drops rows from the bottom, and only rows
    without content: the result is an initial part of the image, and
    every row of the image beyond it has all its pixels at or below the
    threshold. *)
Theorem crop_bottom_to_content_drops_black_rows (img : list (list Pixel))
    (threshold : Z) :
  let out := crop_bottom_to_content gray_of img threshold in
  out = take (length out) img /\
  forall j row p,
    (length out <= j)%nat -> img !! j = Some row -> p ∈ row ->
    (gray_of p <= threshold)%Z.
Proof.
  intros out.
  destruct (crop_bottom_to_content_cases img threshold)
    as [[Hout _]|(k & row & Hrow & _ & Hbelow & Hout)]; fold out in Hout.
  - rewrite Hout. split; [by rewrite take_ge|].
    intros j row p Hj Hrow. apply lookup_lt_Some in Hrow. lia.
  - pose proof (lookup_lt_Some _ _ _ Hrow) as Hk.
    assert (Hlen : length out = S k) by (rewrite Hout, length_take; lia).
    rewrite Hlen. split; [done|].
    intros j row' p Hj Hrow' Hp.
    destruct (Z_le_gt_dec (gray_of p) threshold) as [|Hgt]; [done|].
    exfalso. apply (Hbelow j row'); [lia|done|]. exists p. split; [done|lia].
Qed.

(** X9. Cropping twice is cropping once. *)
Theorem crop_bottom_to_content_idempotent (img : list (list Pixel))
    (threshold : Z) :
  crop_bottom_to_content gray_of
    (crop_bottom_to_content gray_of img threshold) threshold
  = crop_bottom_to_content gray_of img threshold.
Proof.
  destruct (crop_bottom_to_content_cases img threshold)
    as [[Hout Hnone]|(k & row & Hrow & Hcontent & Hbelow & Hout)];
    rewrite Hout.
  - by rewrite Hout.
  - pose proof (lookup_lt_Some _ _ _ Hrow) as Hk.
    assert (Hrow' : take (S k) img !! k = Some row)
      by (by rewrite lookup_take_lt by lia).
    destruct (crop_bottom_to_content_spec gray_of (take (S k) img) threshold)
      as [Hlast _].
    destruct (Hlast k row Hrow' Hcontent) as [Hcrop _].
    + intros j row' Hj Hrow''. apply lookup_lt_Some in Hrow''.
      rewrite length_take in Hrow''. lia.
    + rewrite Hcrop. apply take_idemp.
Qed.

(** X10. A row with content is never dropped: it is found at the same
    place in the cropped image. *)
Theorem crop_bottom_to_content_keeps_content (img : list (list Pixel))
    (threshold : Z) (k : nat) (row : list Pixel) :
  img !! k = Some row -> has_content gray_of threshold row ->
  crop_bottom_to_content gray_of img threshold !! k = Some row.
Proof.
  intros Hrow Hcontent.
  destruct (crop_bottom_to_content_cases img threshold)
    as [[Hout _]|(k0 & row0 & Hrow0 & _ & Hbelow & Hout)]; rewrite Hout.
  - done.
  - destruct (decide (k <= k0)%nat) as [Hle|Hgt].
    + by rewrite lookup_take_lt by lia.
    + exfalso. apply (Hbelow k row); [lia|done..].
Qed.

End CropProperties.

Lemma crop_bottom_to_content_keeps_content_witness :
  let img : list (list Pixel) := half_patch ++ black_patch in
  img !! 0%nat = Some [(255, 255, 255); (255, 255, 255)]%Z /\
  has_content gray_mean 1 [(255, 255, 255); (255, 255, 255)]%Z /\
  HomographyFromChessboardImage.crop_bottom_to_content gray_mean img 1
    !! 0%nat = Some [(255, 255, 255); (255, 255, 255)]%Z.
Proof.
  intros img.
  assert (Hrow : img !! 0%nat = Some [(255, 255, 255); (255, 255, 255)]%Z)
    by reflexivity.
  assert (Hcontent : has_content gray_mean 1
                       [(255, 255, 255); (255, 255, 255)]%Z).
  { exists (255, 255, 255)%Z. split; [by left|reflexivity]. }
  split_and!; [exact Hrow|exact Hcontent|].
  exact (crop_bottom_to_content_keeps_content gray_mean img 1 0 _
           Hrow Hcontent).
Defined.

(** ** Rows of corners *)

Lemma concat_slices {A} (l : list A) (c m : nat) :
  concat ((fun i => slice l (i * c) ((i + 1) * c)) <$> seq 0 m)
  = take (m * c) l.
Proof.
  induction m as [|m IH]; [done|].
  rewrite seq_S, fmap_app, concat_app, IH. cbn [fmap list_fmap concat Nat.add].
  rewrite app_nil_r. unfold slice.
  replace ((m + 1) * c - m * c)%nat with c by lia.
  rewrite take_take_drop. f_equal. lia.
Qed.

Section CornerRows.
Import HomographyFromChessboardImage.

Lemma corner_rows_concat (corners : list (R * R)) (cb_cols : nat) :
  concat (corner_rows corners cb_cols)
  = take (length corners / cb_cols * cb_cols) (sorted snd corners).
Proof.
  unfold corner_rows, range.
  by rewrite Nat.sub_0_r, length_sorted, concat_slices.
Qed.

Lemma corner_rows_lengths (corners : list (R * R)) (cb_cols : nat) :
  cb_cols <> 0%nat ->
  Forall (fun row => length row = cb_cols) (corner_rows corners cb_cols).
Proof.
  intros Hcols. set (n := length corners).
  assert (Hdiv : (n / cb_cols * cb_cols <= n)%nat).
  { rewrite Nat.mul_comm. by apply Nat.Div0.mul_div_le. }
  unfold corner_rows, range. rewrite Nat.sub_0_r, length_sorted. fold n.
  apply Forall_fmap, Forall_forall. intros i Hi%elem_of_seq.
  unfold compose, slice.
  rewrite length_take, length_drop, length_sorted. fold n.
  assert ((i + 1) * cb_cols <= n / cb_cols * cb_cols)%nat by nia.
  nia.
Qed.

(** X11. The rows are cut out of the corners sorted on the vertical
    coordinate: laid end to end they are the first
    [(n / cb_cols) * cb_cols] sorted corners, every row has [cb_cols]
    corners, and the [n mod cb_cols] corners left over belong to no
    row. *)
Theorem corner_rows_partition (corners : list (R * R)) (cb_cols : nat) :
  cb_cols <> 0%nat ->
  let n := length corners in
  concat (corner_rows corners cb_cols)
    = take (n / cb_cols * cb_cols) (sorted snd corners) /\
  Forall (fun row => length row = cb_cols) (corner_rows corners cb_cols) /\
  length (concat (corner_rows corners cb_cols)) = (n - n mod cb_cols)%nat.
Proof.
  intros Hcols n. split_and!.
  - apply corner_rows_concat.
  - by apply corner_rows_lengths.
  - rewrite corner_rows_concat, length_take, length_sorted. fold n.
    pose proof (Nat.div_mod_eq n cb_cols).
    assert (n / cb_cols * cb_cols <= n)%nat
      by (rewrite Nat.mul_comm; by apply Nat.Div0.mul_div_le).
    nia.
Qed.

(** X12. Edge cases of the tile-width estimate: zero columns raise
    [ZeroDivisionError]; otherwise the estimate is returned and is never
    negative; with fewer corners than columns, or a single column, it
    is 0. *)
Theorem chessboard_tile_width_edges (corners : list (R * R)) (cb_cols : nat) :
  (cb_cols = 0%nat ->
   chessboard_tile_width corners cb_cols = Raise "ZeroDivisionError") /\
  (cb_cols <> 0%nat ->
   exists w, chessboard_tile_width corners cb_cols = Ok w /\ 0 <= w) /\
  (cb_cols <> 0%nat -> (length corners < cb_cols \/ cb_cols = 1)%nat ->
   chessboard_tile_width corners cb_cols = Ok 0).
Proof.
  split_and!.
  - intros ->. reflexivity.
  - intros Hcols. unfold chessboard_tile_width.
    destruct (decide (cb_cols = 0%nat)); [done|].
    eexists. split; [reflexivity|].
    rewrite fold_row_tile_width_Rmax. apply fold_left_Rmax_init.
  - intros Hcols Hfew. unfold chessboard_tile_width.
    destruct (decide (cb_cols = 0%nat)); [done|]. f_equal.
    rewrite fold_row_tile_width_Rmax.
    assert (Hnil : concat ((fun row => neighbour_distances (sorted fst row))
                             <$> corner_rows corners cb_cols) = []).
    { pose proof (corner_rows_lengths corners cb_cols Hcols) as Hrows.
      destruct Hfew as [Hfew| ->].
      - unfold corner_rows, range.
        rewrite length_sorted, Nat.div_small by done. done.
      - induction Hrows as [|row rows Hrow _ IH]; [done|].
        cbn [fmap list_fmap concat]. rewrite IH, app_nil_r.
        unfold neighbour_distances.
        by rewrite length_sorted, Hrow. }
    by rewrite Hnil.
Qed.

End CornerRows.

Lemma corner_rows_partition_witness :
  let corners : list (R * R) :=
    [(6, 18); (0, 0); (0, 10); (3, 4); (9, 30)] in
  2%nat <> 0%nat /\
  Forall (fun row => length row = 2%nat)
         (HomographyFromChessboardImage.corner_rows corners 2) /\
  length (concat (HomographyFromChessboardImage.corner_rows corners 2))
    = 4%nat.
Proof.
  intros corners. assert (Hcols : 2%nat <> 0%nat) by lia.
  destruct (corner_rows_partition corners 2 Hcols) as (_ & Hrows & Hlen).
  split_and!; [exact Hcols|exact Hrows|exact Hlen].
Defined.

Lemma chessboard_tile_width_edges_witness :
  0%nat = 0%nat /\ 3%nat <> 0%nat /\ (2 < 3)%nat /\
  HomographyFromChessboardImage.chessboard_tile_width [(1, 2); (5, 2)] 0
    = Raise "ZeroDivisionError" /\
  HomographyFromChessboardImage.chessboard_tile_width [(1, 2); (5, 2)] 3
    = Ok 0.
Proof.
  destruct (chessboard_tile_width_edges [(1, 2); (5, 2)] 0) as (Hzero & _ & _).
  destruct (chessboard_tile_width_edges [(1, 2); (5, 2)] 3) as (_ & _ & Hfew).
  assert (H3 : 3%nat <> 0%nat) by lia.
  assert (H23 : (2 < 3)%nat) by lia.
  split_and!; [reflexivity|exact H3|exact H23|exact (Hzero eq_refl)|].
  apply (Hfew H3). left. exact H23.
Defined.

(** ** What a run of the sampler leaves in the store *)

Lemma offset_by_alter (i : nat) (s : RobotData) :
  offset_by (fun j => if decide (i = j) then 1%nat else 0%nat)
            s (alter offset_frame i s).
Proof.
  intros j. destruct (decide (i = j)) as [->|Hne].
  - rewrite list_lookup_alter_eq. by destruct (s !! j).
  - rewrite list_lookup_alter_ne by done. by destruct (s !! j).
Qed.

Lemma offset_by_refl (s : RobotData) : offset_by (fun _ => 0%nat) s s.
Proof. intros j. by destruct (s !! j). Qed.

Lemma offset_by_trans (c1 c2 : nat -> nat) (s1 s2 s3 : RobotData) :
  offset_by c1 s1 s2 -> offset_by c2 s2 s3 ->
  offset_by (fun j => (c1 j + c2 j)%nat) s1 s3.
Proof.
  intros H1 H2 j. rewrite H2, H1. destruct (s1 !! j); cbn; [|done].
  f_equal. symmetry. rewrite Nat.add_comm. apply Nat.iter_add.
Qed.

Lemma offset_by_ext (c c' : nat -> nat) (s s' : RobotData) :
  (forall j, c j = c' j) -> offset_by c s s' -> offset_by c' s s'.
Proof. intros Hc H j. rewrite <- Hc. apply H. Qed.

Section SamplerEffects.

Variable warpPerspective : Image -> Mat3 -> nat * nat -> Image.
Variable resize : Image -> nat * nat -> Image.
Variable perspectiveTransform : list (R * R) -> Mat3 -> list (R * R).
Variable compute_homography_from_rt :
  Mat3 -> Mat3 -> Vec3 -> Vec3 -> R -> result Mat3.
Variable H K : Mat3.
Variable plane_normal : Vec3.
Variable plane_distance : R.

Abbreviation sampler :=
  (ComputeVicRegData warpPerspective resize perspectiveTransform
     compute_homography_from_rt H K plane_normal plane_distance).

Abbreviation history_step patch_size timestep cur_bbox :=
  (past_iteration warpPerspective resize perspectiveTransform
     compute_homography_from_rt H K plane_normal plane_distance
     patch_size timestep timestep cur_bbox).

Abbreviation pass history_size patch_size :=
  (timestep_iteration warpPerspective resize perspectiveTransform
     compute_homography_from_rt H K plane_normal plane_distance
     history_size patch_size).

(** A past frame that is read has its pose offset, once, and its image
    handed out as stored. *)
Lemma past_frame_Ok patch_size cur_rt past_timestep (s s' : RobotData)
    past_image H_past2patch past_bbox :
  past_frame perspectiveTransform compute_homography_from_rt H K
    plane_normal plane_distance patch_size cur_rt past_timestep s
  = (s', Ok (past_image, H_past2patch, past_bbox)) ->
  s' = alter offset_frame past_timestep s /\
  exists fr, s !! past_timestep = Some fr /\ past_image = image fr.
Proof.
  unfold past_frame.
  intros (s1 & img & Himg & Hk)%Py_bind_Ok.
  apply Py_bind_Ok in Hk as (s2 & past_rt & Hrt & Hk).
  apply Py_bind_Ok in Hk as (s3 & [] & Hadd & Hk).
  apply Py_bind_Ok in Hk as (s4 & R_cur & HRc & Hk).
  apply Py_bind_Ok in Hk as (s5 & T_cur & HTc & Hk).
  apply Py_bind_Ok in Hk as (s6 & R_past & HRp & Hk).
  apply Py_bind_Ok in Hk as (s7 & T_past & HTp & Hk).
  apply Py_bind_Ok in Hk as (s8 & [H1 H2] & HH & Hk).
  apply Py_bind_Ok in Hk as (s9 & bbox & Hbbox & Hk).
  unfold getImageAtTimestep in Himg. unfold getOdomAtTimestep in Hrt.
  destruct (s !! past_timestep) as [fr|] eqn:Hfr; [|by injection Himg].
  injection Himg as <- <-. rewrite Hfr in Hrt. injection Hrt as <- <-.
  unfold iadd_trans in Hadd. injection Hadd as <-.
  unfold view_rot in HRc, HRp. unfold view_trans in HTc, HTp.
  injection HRc as <- _. injection HTc as <- _.
  injection HRp as <- _. injection HTp as <- _.
  unfold lift in HH, Hbbox. injection HH as <- _. injection Hbbox as <- _.
  injection Hk as <- <- _ _. split; [done|]. by exists fr.
Qed.

(** The history loop over the offsets [a, a + 1, ..., a + k - 1] of a
    timestep they do not exceed. *)
Lemma foldM_past_iteration_store patch_size timestep cur_bbox
    (k a : nat) acc (s s' : RobotData) out :
  (a + k <= timestep + 1)%nat ->
  foldM (history_step patch_size timestep cur_bbox) acc (seq a k) s
    = (s', Ok out) ->
  offset_by (fun j => if decide ((a <= timestep - j < a + k)%nat
                                  /\ (j <= timestep)%nat)
                      then 1%nat else 0%nat) s s'.
Proof.
  revert a acc s. induction k as [|k IH]; intros a acc s Hle.
  - intros [= <- _]. eapply offset_by_ext; [|apply offset_by_refl].
    intros j. cbn beta. case_decide; lia.
  - cbn [seq foldM]. intros (s1 & acc1 & Hstep & Hrest)%Py_bind_Ok.
    apply IH in Hrest; [|lia].
    assert (Hs1 : s1 = alter offset_frame (timestep - a)%nat s).
    { unfold past_iteration in Hstep.
      destruct (Nat.ltb_spec timestep a) as [?|_]; [lia|].
      apply Py_bind_Ok in Hstep as (s2 & [[img Hp] bbox] & Hframe & Hk).
      apply past_frame_Ok in Hframe as [-> _].
      destruct (BBox.does_overlap _ _); by injection Hk as <- _. }
    subst s1.
    eapply offset_by_ext;
      [|exact (offset_by_trans _ _ _ _ _
                 (offset_by_alter (timestep - a)%nat s) Hrest)].
    intros j. cbn beta. repeat case_decide; lia.
Qed.

(** One pass of the loop over [timestep]: the poses of the window
    [timestep - history_size < j <= timestep] are offset once each. *)
Lemma timestep_iteration_store history_size patch_size patches timestep
    (s s' : RobotData) out :
  (1 <= history_size <= timestep)%nat ->
  pass history_size patch_size patches timestep s = (s', Ok out) ->
  offset_by (fun j => if decide (j <= timestep < j + history_size)%nat
                      then 1%nat else 0%nat) s s'.
Proof.
  intros HN Hpass. unfold timestep_iteration in Hpass.
  apply Py_bind_Ok in Hpass as (s1 & cur_image & Himg & Hk).
  apply Py_bind_Ok in Hk as (s2 & cur_rt & Hrt & Hk).
  apply Py_bind_Ok in Hk as (s3 & [] & Hadd & Hk).
  apply Py_bind_Ok in Hk as (s4 & entry & Hloop & Hret).
  unfold getImageAtTimestep in Himg. unfold getOdomAtTimestep in Hrt.
  destruct (s !! timestep) as [fr|] eqn:Hfr; [|by injection Himg].
  injection Himg as <- <-. rewrite Hfr in Hrt. injection Hrt as <- <-.
  unfold iadd_trans in Hadd. injection Hadd as <-.
  injection Hret as <- _.
  unfold range in Hloop.
  apply foldM_past_iteration_store in Hloop; [|lia].
  eapply offset_by_ext;
    [|exact (offset_by_trans _ _ _ _ _ (offset_by_alter timestep s) Hloop)].
  intros j. cbn beta. repeat case_decide; lia.
Qed.

Lemma foldM_timestep_iteration_store history_size patch_size (k : nat)
    acc (s s' : RobotData) out :
  (1 <= history_size)%nat ->
  foldM (pass history_size patch_size) acc (seq history_size k) s
    = (s', Ok out) ->
  offset_by (offset_count history_size (history_size + k)) s s'.
Proof.
  intros HN. revert s' out. induction k as [|k IH]; intros s' out.
  - intros [= <- _]. eapply offset_by_ext; [|apply offset_by_refl].
    intros j. unfold offset_count. lia.
  - rewrite seq_S. intros (s1 & acc1 & Hpre & Hstep)%foldM_app_Ok.
    cbn [foldM] in Hstep.
    apply Py_bind_Ok in Hstep as (s2 & out2 & Hstep & [= <- _]).
    apply IH in Hpre. apply timestep_iteration_store in Hstep; [|lia].
    eapply offset_by_ext; [|exact (offset_by_trans _ _ _ _ _ Hpre Hstep)].
    intros j. unfold offset_count. cbn beta. case_decide; lia.
Qed.

(** X13. What a returning run leaves in the store.  With a history size
    [N >= 1] on [n] timesteps, the pose of timestep [j] has had
    [camera_offset] added to its translation once for every timestep of
    [range(N, n)] whose window [t - N < j <= t] holds [j] -- that is
    [min(n, j + N) - max(N, j)] times; its image and rotation are as they
    were.  The frame of timestep 0 is never written. *)
Theorem ComputeVicRegData_offset_counts history_size patch_size
    (s s' : RobotData) (patches : list (list Image)) :
  (1 <= history_size)%nat ->
  sampler history_size patch_size s = (s', Ok patches) ->
  length s' = length s /\
  s' !! 0%nat = s !! 0%nat /\
  forall j fr, s !! j = Some fr ->
    exists fr',
      s' !! j = Some fr' /\
      image fr' = image fr /\
      rot (odom fr') = rot (odom fr) /\
      trans (odom fr')
      = vadd (trans (odom fr))
             (vscale (INR (offset_count history_size (length s) j))
                     camera_offset).
Proof.
  intros HN Hrun. unfold ComputeVicRegData in Hrun.
  apply Py_bind_Ok in Hrun as (s1 & n & [= <- <-] & Hloop).
  assert (Hcount : offset_by (offset_count history_size (length s)) s s').
  { destruct (decide (history_size <= length s)%nat) as [Hle|Hgt].
    - unfold range in Hloop.
      apply foldM_timestep_iteration_store in Hloop; [|done].
      by replace (history_size + (length s - history_size))%nat
        with (length s) in Hloop by lia.
    - unfold range in Hloop.
      replace (length s - history_size)%nat with 0%nat in Hloop by lia.
      injection Hloop as <- _.
      eapply offset_by_ext; [|apply offset_by_refl].
      intros j. unfold offset_count. lia. }
  split_and!.
  - apply Nat.le_antisymm.
    + destruct (decide (length s' <= length s)%nat) as [|Hgt]; [done|].
      destruct (lookup_lt_is_Some_2 s' (length s)) as [fr Hfr]; [lia|].
      rewrite Hcount, lookup_ge_None_2 in Hfr by lia. done.
    + destruct (decide (length s <= length s')%nat) as [|Hgt]; [done|].
      destruct (lookup_lt_is_Some_2 s (length s')) as [fr Hfr]; [lia|].
      pose proof (Hcount (length s')) as Hj.
      rewrite Hfr, lookup_ge_None_2 in Hj by lia. done.
  - rewrite Hcount. unfold offset_count.
    replace (Nat.min _ _ - Nat.max _ _)%nat with 0%nat by lia.
    by destruct (s !! 0%nat).
  - intros j fr Hfr. eexists. rewrite Hcount, Hfr. split_and!.
    + reflexivity.
    + apply image_iter_offset_frame.
    + generalize (offset_count history_size (length s) j). intros k.
      induction k as [|k IHk]; [done|]. by rewrite Nat.iter_succ.
    + apply trans_iter_offset_frame.
Qed.

End SamplerEffects.

(** On [moved_recording] with history size 2, timestep 2 is the only
    pass: the poses of timesteps 1 and 2 are offset once, the pose of
    timestep 0 not at all. *)
Lemma ComputeVicRegData_offset_counts_witness :
  let s := moved_recording in
  let s' := alter offset_frame 1%nat (alter offset_frame 2%nat s) in
  (1 <= 2)%nat /\
  ComputeVicRegData warp_copy resize_copy project_points
    compute_homography_from_rt eye3 eye3 (0, 0, 1) 1 2 (128, 128)%nat s
  = (s', Ok [[moved_anchor]]) /\
  s' !! 0%nat = s !! 0%nat /\
  exists fr',
    s' !! 2%nat = Some fr' /\
    trans (odom fr')
    = vadd (1000, 0, 0) (vscale (INR (offset_count 2 3 2)) camera_offset).
Proof.
  intros s s'.
  assert (HN : (1 <= 2)%nat) by lia.
  destruct (ComputeVicRegData_offset_counts warp_copy resize_copy
              project_points compute_homography_from_rt eye3 eye3 (0, 0, 1) 1
              2 (128, 128)%nat s s' [[moved_anchor]] HN moved_run)
    as (_ & Hzero & Hframes).
  destruct (Hframes 2%nat (mkFrame black_patch (set_trans eye4 (1000, 0, 0)))
              eq_refl) as (fr' & Hfr' & _ & _ & Htrans).
  split_and!; [exact HN|exact moved_run|exact Hzero|].
  exists fr'. split; [exact Hfr'|exact Htrans].
Defined.

(** ** The patches a run returns *)

Lemma offset_by_image (c : nat -> nat) (s s' : RobotData) (j : nat)
    (fr' : Frame) :
  offset_by c s s' -> s' !! j = Some fr' ->
  exists fr, s !! j = Some fr /\ image fr = image fr'.
Proof.
  intros Hc Hfr'. rewrite Hc in Hfr'.
  destruct (s !! j) as [fr|]; [|done]. injection Hfr' as <-.
  exists fr. by rewrite image_iter_offset_frame.
Qed.

Section SamplerPatches.

Variable warpPerspective : Image -> Mat3 -> nat * nat -> Image.
Variable resize : Image -> nat * nat -> Image.
Variable perspectiveTransform : list (R * R) -> Mat3 -> list (R * R).
Variable compute_homography_from_rt :
  Mat3 -> Mat3 -> Vec3 -> Vec3 -> R -> result Mat3.
Variable H K : Mat3.
Variable plane_normal : Vec3.
Variable plane_distance : R.

(** The shape of a colour raster has three entries, the patch size two:
    the test of lines 33 and 79 always sends the patch through
    [cv2.resize]. *)
Lemma warp_patch_resizes (img : Image) (M : Mat3) (patch_size : nat * nat) :
  warp_patch warpPerspective resize img M patch_size
  = resize (warpPerspective img M patch_size) patch_size.
Proof.
  unfold warp_patch, shape. destruct (decide _) as [_|Heq]; [done|].
  exfalso. apply Heq. intros [=].
Qed.

(** The patch made of the frame [pick.1] timesteps before [timestep],
    with the homography [pick.2]. *)
Let patch_of (s : RobotData) (patch_size : nat * nat) (timestep : nat)
    (patch : Image) (pick : nat * Mat3) : Prop :=
  exists past,
    s !! (timestep - pick.1)%nat = Some past /\
    patch = resize (warpPerspective (image past) pick.2 patch_size)
                   patch_size.

Lemma patch_of_offset_by c (s s' : RobotData) patch_size timestep patch pick :
  offset_by c s s' ->
  patch_of s' patch_size timestep patch pick ->
  patch_of s patch_size timestep patch pick.
Proof.
  intros Hc (past' & Hpast' & ->).
  destruct (offset_by_image _ _ _ _ _ Hc Hpast') as (past & Hpast & <-).
  by exists past.
Qed.

Lemma foldM_past_iteration_patches patch_size timestep cur_bbox
    (k a : nat) acc (s s' : RobotData) out :
  (a + k <= timestep + 1)%nat ->
  foldM (past_iteration warpPerspective resize perspectiveTransform
           compute_homography_from_rt H K plane_normal plane_distance
           patch_size timestep timestep cur_bbox) acc (seq a k) s
    = (s', Ok out) ->
  exists picks extra,
    sublist (fst <$> picks) (seq a k) /\
    out = acc ++ extra /\
    Forall2 (patch_of s patch_size timestep) extra picks.
Proof.
  revert a acc s. induction k as [|k IH]; intros a acc s Hle.
  - intros [= _ <-]. exists [], []. by rewrite app_nil_r.
  - cbn [seq foldM]. intros (s1 & acc1 & Hstep & Hrest)%Py_bind_Ok.
    apply IH in Hrest as (picks & extra & Hsub & -> & Hpatches); [|lia].
    unfold past_iteration in Hstep.
    destruct (Nat.ltb_spec timestep a) as [?|_]; [lia|].
    apply Py_bind_Ok in Hstep as (s2 & [[img Hp] bbox] & Hframe & Hk).
    apply past_frame_Ok in Hframe as (-> & fr & Hfr & ->).
    assert (Hs1 : s1 = alter offset_frame (timestep - a)%nat s).
    { destruct (BBox.does_overlap _ _); by injection Hk. }
    assert (Hpatches' : Forall2 (patch_of s patch_size timestep) extra picks).
    { rewrite Hs1 in Hpatches.
      eapply Forall2_impl; [exact Hpatches|]. intros patch pick.
      apply (patch_of_offset_by _ _ _ _ _ _ _
               (offset_by_alter (timestep - a)%nat s)). }
    clear Hs1 Hpatches.
    destruct (BBox.does_overlap _ _); injection Hk as <- <-.
    + exists ((a, Hp) :: picks), (resize (warpPerspective (image fr) Hp
                                         patch_size) patch_size :: extra).
      split_and!.
      * cbn [fmap list_fmap fst]. by apply sublist_skip.
      * by rewrite warp_patch_resizes, <- app_assoc.
      * constructor; [|done]. by exists fr.
    + exists picks, extra. split_and!; [by apply sublist_cons|done..].
Qed.

(** X14. The patches of a returning run.  With a history size [N >= 1],
    the list of timestep [t = N + i] is made, in this order, of the
    anchor patch -- the image of timestep [t] under [H] -- and of the
    images of the timesteps [t - h] for an increasing selection of the
    offsets [h] of [range(1, N)], each under some homography; the images
    are those of the store the run started from, and every patch,
    the anchor included, has gone through [cv2.resize]. *)
Theorem ComputeVicRegData_patches history_size patch_size
    (s s' : RobotData) (patches : list (list Image)) :
  (1 <= history_size)%nat ->
  ComputeVicRegData warpPerspective resize perspectiveTransform
    compute_homography_from_rt H K plane_normal plane_distance
    history_size patch_size s = (s', Ok patches) ->
  forall i entry, patches !! i = Some entry ->
    let timestep := (history_size + i)%nat in
    exists picks : list (nat * Mat3),
      sublist (fst <$> picks) (range 1 history_size) /\
      Forall2 (fun patch pick =>
                 exists past,
                   s !! (timestep - pick.1)%nat = Some past /\
                   patch = resize (warpPerspective (image past) pick.2
                                     patch_size) patch_size)
              entry ((0%nat, H) :: picks).
Proof.
  intros HN Hrun i entry Hi timestep. unfold ComputeVicRegData in Hrun.
  apply Py_bind_Ok in Hrun as (s1 & n & [= <- <-] & Hloop).
  apply foldM_timestep_iteration_Ok in Hloop
    as (entries & Hpatches & Hlen & Hentries).
  cbn [app] in Hpatches. subst patches.
  destruct (Hentries _ _ Hi) as (t & s0 & s0' & Ht & Hpre & Hstep).
  cbn [app] in Hpre, Hstep.
  apply lookup_seq in Ht as [-> Hi']. fold timestep in Hstep.
  unfold range in Hpre at 1. rewrite take_seq, Nat.min_l in Hpre by lia.
  apply foldM_timestep_iteration_store in Hpre; [|done].
  apply timestep_iteration_Ok in Hstep
    as (fr0 & entry0 & Hfr0 & Hentry & Hpast).
  apply app_inj_tail in Hentry as [_ <-].
  pose proof (offset_by_trans _ _ _ _ _ Hpre
                (offset_by_alter timestep s0)) as Hstore.
  unfold range in Hpast.
  apply foldM_past_iteration_patches in Hpast
    as (picks & extra & Hsub & -> & Hextra); [|unfold timestep; lia].
  exists picks. split; [exact Hsub|].
  cbn [app]. constructor.
  - destruct (offset_by_image _ _ _ _ _ Hpre Hfr0) as (fr & Hfr & <-).
    exists fr. cbn [fst snd]. rewrite Nat.sub_0_r.
    split; [done|]. apply warp_patch_resizes.
  - eapply Forall2_impl; [exact Hextra|]. intros patch pick.
    apply (patch_of_offset_by _ _ _ _ _ _ _ Hstore).
Qed.

End SamplerPatches.

(** On [moved_recording] with history size 2 the list of timestep 2 is
    the anchor alone. *)
Lemma ComputeVicRegData_patches_witness :
  (1 <= 2)%nat /\
  ComputeVicRegData warp_copy resize_copy project_points
    compute_homography_from_rt eye3 eye3 (0, 0, 1) 1 2 (128, 128)%nat
    moved_recording
  = (alter offset_frame 1%nat (alter offset_frame 2%nat moved_recording),
     Ok [[moved_anchor]]) /\
  [[moved_anchor]] !! 0%nat = Some [moved_anchor] /\
  exists picks : list (nat * Mat3),
    sublist (fst <$> picks) (range 1 2) /\
    Forall2 (fun patch pick =>
               exists past,
                 moved_recording !! (2 + 0 - pick.1)%nat = Some past /\
                 patch = resize_copy (warp_copy (image past) pick.2
                                        (128, 128)%nat) (128, 128)%nat)
            [moved_anchor] ((0%nat, eye3) :: picks).
Proof.
  assert (HN : (1 <= 2)%nat) by lia.
  split_and!; [exact HN|exact moved_run|reflexivity|].
  exact (ComputeVicRegData_patches warp_copy resize_copy project_points
           compute_homography_from_rt eye3 eye3 (0, 0, 1) 1
           2 (128, 128)%nat moved_recording _ [[moved_anchor]] HN moved_run
           0%nat [moved_anchor] eq_refl).
Defined.

(** ** The poses the history homographies are computed from *)

Lemma rot_iter_offset_frame (k : nat) (fr : Frame) :
  rot (odom (Nat.iter k offset_frame fr)) = rot (odom fr).
Proof. induction k as [|k IH]; [done|]. by rewrite Nat.iter_succ. Qed.

Lemma vsub_vadd_cancel (u v c : Vec3) :
  vsub (vadd u c) (vadd v c) = vsub u v.
Proof. destruct_vec u. destruct_vec v. destruct_vec c. array_eq ring. Qed.

Section SamplerPoses.

Variable warpPerspective : Image -> Mat3 -> nat * nat -> Image.
Variable resize : Image -> nat * nat -> Image.
Variable perspectiveTransform : list (R * R) -> Mat3 -> list (R * R).
Variable compute_homography_from_rt :
  Mat3 -> Mat3 -> Vec3 -> Vec3 -> R -> result Mat3.
Variable H K : Mat3.
Variable plane_normal : Vec3.
Variable plane_distance : R.

(** X15. The relative motion of lines 53-54 depends on the difference of
    the two translations only: an offset added to both of them -- the
    camera offset of lines 29 and 51, when each pose has received it
    once -- leaves both homographies as they are. *)
Theorem homography_past_to_patch_common_offset
    (R_cur R_past : Mat3) (T_cur T_past offset : Vec3) :
  homography_past_to_patch compute_homography_from_rt H K plane_normal
    plane_distance R_cur (vadd T_cur offset) R_past (vadd T_past offset)
  = homography_past_to_patch compute_homography_from_rt H K plane_normal
      plane_distance R_cur T_cur R_past T_past.
Proof.
  unfold homography_past_to_patch. by rewrite vsub_vadd_cancel.
Qed.

(** X16. The poses a past frame is compared with.  In the pass of
    timestep [t] of a run with history size [N], when the offset [h] is
    reached, the pose of timestep [t] has received the camera offset
    once, and the pose of timestep [t - h] has received it once in each
    of the [t - max(N, t - h)] earlier passes and once more now: the
    homography is computed from the stored translations displaced by 1
    and by [t - max(N, t - h) + 1] camera offsets. *)
Theorem past_frame_pose_drift history_size patch_size cur_bbox
    (timestep past_hist : nat) (s s0 s1 : RobotData)
    (patches : list (list Image)) (anchor acc : list Image)
    (cur past : Frame) :
  (1 <= past_hist < history_size)%nat -> (history_size <= timestep)%nat ->
  foldM (timestep_iteration warpPerspective resize perspectiveTransform
           compute_homography_from_rt H K plane_normal plane_distance
           history_size patch_size) []
        (range history_size timestep) s = (s0, Ok patches) ->
  foldM (past_iteration warpPerspective resize perspectiveTransform
           compute_homography_from_rt H K plane_normal plane_distance
           patch_size timestep timestep cur_bbox) anchor
        (range 1 past_hist) (alter offset_frame timestep s0)
    = (s1, Ok acc) ->
  s !! timestep = Some cur ->
  s !! (timestep - past_hist)%nat = Some past ->
  let drift :=
    (timestep - Nat.max history_size (timestep - past_hist) + 1)%nat in
  past_frame perspectiveTransform compute_homography_from_rt H K
    plane_normal plane_distance patch_size timestep
    (timestep - past_hist) s1
  = (alter offset_frame (timestep - past_hist)%nat s1,
     '(H_past2cur, H_past2patch) ←
        homography_past_to_patch compute_homography_from_rt H K
          plane_normal plane_distance
          (rot (odom cur)) (vadd (trans (odom cur)) camera_offset)
          (rot (odom past))
          (vadd (trans (odom past)) (vscale (INR drift) camera_offset));
     past_bbox ← past_bounding_box perspectiveTransform patch_size
                   H_past2cur;
     Ok (image past, H_past2patch, past_bbox)).
Proof.
  intros Hh HN Hpre Hupto Hcur Hpast drift.
  unfold range in Hpre, Hupto.
  apply foldM_timestep_iteration_store in Hpre; [|lia].
  apply foldM_past_iteration_store in Hupto; [|lia].
  pose proof (offset_by_trans _ _ _ _ _
                (offset_by_trans _ _ _ _ _ Hpre
                   (offset_by_alter timestep s0)) Hupto) as Hstore.
  pose proof (Hstore timestep) as Hcur1.
  pose proof (Hstore (timestep - past_hist)%nat) as Hpast1.
  cbn beta in Hcur1, Hpast1. rewrite Hcur in Hcur1. rewrite Hpast in Hpast1.
  unfold offset_count in Hcur1, Hpast1.
  repeat case_decide; try lia.
  replace (_ + _ + _)%nat with 1%nat in Hcur1 by lia.
  replace (_ + _ + _)%nat
    with (timestep - Nat.max history_size (timestep - past_hist))%nat
    in Hpast1 by lia.
  cbn [fmap option_fmap option_map] in Hcur1, Hpast1.
  set (k := (timestep - Nat.max history_size (timestep - past_hist))%nat)
    in *.
  assert (Hne : (timestep - past_hist)%nat <> timestep) by lia.
  unfold past_frame.
  unfold mbind at 1, Py_bind at 1, getImageAtTimestep. rewrite Hpast1.
  unfold mbind at 1, Py_bind at 1, getOdomAtTimestep. rewrite Hpast1.
  unfold mbind at 1, Py_bind at 1, iadd_trans at 1.
  change (alter _ (timestep - past_hist)%nat s1)
    with (alter offset_frame (timestep - past_hist)%nat s1).
  unfold mbind at 1, Py_bind at 1, view_rot at 1.
  rewrite list_lookup_alter_ne, Hcur1 by done.
  unfold mbind at 1, Py_bind at 1, view_trans at 1.
  rewrite list_lookup_alter_ne, Hcur1 by done.
  unfold mbind at 1, Py_bind at 1, view_rot at 1.
  rewrite list_lookup_alter_eq, Hpast1.
  unfold mbind at 1, Py_bind at 1, view_trans at 1.
  rewrite list_lookup_alter_eq, Hpast1.
  cbn [fmap option_fmap option_map].
  rewrite <- !Nat.iter_succ, !rot_iter_offset_frame,
    !trans_iter_offset_frame, image_iter_offset_frame.
  replace (vscale (INR 1) camera_offset) with camera_offset
    by (unfold camera_offset; cbn [vscale INR]; array_eq lra).
  unfold drift. fold k. replace (k + 1)%nat with (S k) by lia.
  unfold mbind at 1, Py_bind at 1, lift at 1.
  destruct (homography_past_to_patch _ _ _ _ _ _ _ _ _) as [[M1 M2]|e];
    [|reflexivity].
  unfold mbind at 1, Py_bind at 1, lift at 1.
  cbn [mbind result_bind].
  destruct (past_bounding_box _ _ _) as [bbox|e]; reflexivity.
Qed.

End SamplerPoses.

(** The pass of timestep 2 on [drift_recording], with history size 2. *)
Lemma drift_past_frame :
  past_frame project_points compute_homography_from_rt eye3 eye3 (0, 0, 1) 1
    (128, 128)%nat 2 1 (alter offset_frame 2%nat drift_recording)
  = (alter offset_frame 1%nat (alter offset_frame 2%nat drift_recording),
     Ok (black_patch, ((1, 0, 1000), (0, 1, 0), (0, 0, 1)),
         BBox.mk 1000 0 1128 128)).
Proof.
  cbv [past_frame mbind mret Py_bind Py_ret getImageAtTimestep
       getOdomAtTimestep iadd_trans drift_recording moved_recording app
       lookup list_lookup alter list_alter offset_frame view_rot view_trans
       lift image odom rot trans set_trans eye4].
  rewrite moved_homography, moved_bounding_box. reflexivity.
Qed.

Lemma drift_first_pass :
  foldM (timestep_iteration warp_copy resize_copy project_points
           compute_homography_from_rt eye3 eye3 (0, 0, 1) 1
           2 (128, 128)%nat) [] (range 2 3) drift_recording
  = (alter offset_frame 1%nat (alter offset_frame 2%nat drift_recording),
     Ok [[moved_anchor]]).
Proof.
  cbv [mbind Py_bind drift_recording moved_recording app range Nat.sub seq
       foldM timestep_iteration getImageAtTimestep getOdomAtTimestep
       lookup list_lookup image iadd_trans past_iteration Nat.ltb Nat.leb].
  change (alter _ 2%nat _)
    with (alter offset_frame 2%nat drift_recording).
  rewrite drift_past_frame. reflexivity.
Qed.

(** On [drift_recording] with history size 2, timestep 3 and offset 1:
    the pose of timestep 2 was offset once in the pass of timestep 2,
    where it was the current pose, and is offset again now; the
    homography is computed from the pose of timestep 3 displaced by one
    camera offset and the pose of timestep 2 displaced by two, although
    the robot has not moved between the two timesteps. *)
Lemma past_frame_pose_drift_witness :
  let s0 := alter offset_frame 1%nat
              (alter offset_frame 2%nat drift_recording) in
  let s1 := alter offset_frame 3%nat s0 in
  (1 <= 1 < 2)%nat /\ (2 <= 3)%nat /\
  foldM (timestep_iteration warp_copy resize_copy project_points
           compute_homography_from_rt eye3 eye3 (0, 0, 1) 1
           2 (128, 128)%nat) [] (range 2 3) drift_recording
    = (s0, Ok [[moved_anchor]]) /\
  drift_recording !! 3%nat
    = Some (mkFrame black_patch (set_trans eye4 (1000, 0, 0))) /\
  drift_recording !! (3 - 1)%nat
    = Some (mkFrame black_patch (set_trans eye4 (1000, 0, 0))) /\
  (3 - Nat.max 2 (3 - 1) + 1)%nat = 2%nat /\
  past_frame project_points compute_homography_from_rt eye3 eye3 (0, 0, 1) 1
    (128, 128)%nat 3 (3 - 1) s1
  = (alter offset_frame (3 - 1)%nat s1,
     '(H_past2cur, H_past2patch) ←
        homography_past_to_patch compute_homography_from_rt eye3 eye3
          (0, 0, 1) 1
          eye3 (vadd (1000, 0, 0) camera_offset)
          eye3 (vadd (1000, 0, 0)
                     (vscale (INR (3 - Nat.max 2 (3 - 1) + 1))
                             camera_offset));
     past_bbox ← past_bounding_box project_points (128, 128)%nat H_past2cur;
     Ok (black_patch, H_past2patch, past_bbox)).
Proof.
  intros s0 s1.
  assert (Hh : (1 <= 1 < 2)%nat) by lia.
  assert (HN : (2 <= 3)%nat) by lia.
  split_and!; [lia|lia|exact HN|exact drift_first_pass|reflexivity
              |reflexivity|reflexivity|].
  exact (past_frame_pose_drift warp_copy resize_copy project_points
           compute_homography_from_rt eye3 eye3 (0, 0, 1) 1
           2 (128, 128)%nat moved_cur_bbox 3 1 drift_recording
           s0 s1 [[moved_anchor]] [moved_anchor] [moved_anchor]
           (mkFrame black_patch (set_trans eye4 (1000, 0, 0)))
           (mkFrame black_patch (set_trans eye4 (1000, 0, 0)))
           Hh HN drift_first_pass eq_refl eq_refl eq_refl).
Defined.

(** ** Runs with collaborators that do their part *)

Section SamplerTotal.

Variable warpPerspective : Image -> Mat3 -> nat * nat -> Image.
Variable resize : Image -> nat * nat -> Image.
Variable perspectiveTransform : list (R * R) -> Mat3 -> list (R * R).
Variable compute_homography_from_rt :
  Mat3 -> Mat3 -> Vec3 -> Vec3 -> R -> result Mat3.
Variable H K : Mat3.
Variable plane_normal : Vec3.
Variable plane_distance : R.

(** X17. The sampler raises nothing of its own.  When the perspective
    transform hands back as many points as it is given and the
    homography helper returns, a run returns whatever the recording and
    the history size: one patch list for each timestep of
    [range(history_size, n_timesteps)] -- none when the recording has no
    more than [history_size] timesteps. *)
Theorem ComputeVicRegData_never_raises history_size patch_size
    (s : RobotData) :
  (forall pts M, length (perspectiveTransform pts M) = length pts) ->
  (forall K' R_rel T_rel n d,
     exists M, compute_homography_from_rt K' R_rel T_rel n d = Ok M) ->
  exists s' patches,
    ComputeVicRegData warpPerspective resize perspectiveTransform
      compute_homography_from_rt H K plane_normal plane_distance
      history_size patch_size s = (s', Ok patches) /\
    length patches = (length s - history_size)%nat /\
    length s' = length s.
Proof.
  intros Hlen Hreturns.
  destruct (ComputeVicRegData_returns warpPerspective resize
              perspectiveTransform compute_homography_from_rt H K
              plane_normal plane_distance Hlen Hreturns
              history_size patch_size s) as (s' & patches & Hrun).
  exists s', patches. split; [exact Hrun|].
  pose proof (ComputeVicRegData_keeps_images warpPerspective resize
                perspectiveTransform compute_homography_from_rt H K
                plane_normal plane_distance history_size patch_size s)
    as Himages.
  rewrite Hrun in Himages. cbn [fst] in Himages.
  apply (f_equal length) in Himages. rewrite !length_fmap in Himages.
  split; [|exact Himages].
  unfold ComputeVicRegData in Hrun.
  apply Py_bind_Ok in Hrun as (s1 & n & [= <- <-] & Hloop).
  apply foldM_timestep_iteration_Ok in Hloop as (entries & -> & Hentries & _).
  cbn [app]. rewrite Hentries. unfold range. apply length_seq.
Qed.

End SamplerTotal.

Lemma ComputeVicRegData_never_raises_witness :
  let helper := fun (_ _ : Mat3) (_ _ : Vec3) (_ : R) => Ok eye3 in
  (forall pts M, length (project_points pts M) = length pts) /\
  (forall K' R_rel T_rel n d,
     exists M, helper K' R_rel T_rel n d = Ok M) /\
  exists s' patches,
    ComputeVicRegData warp_copy resize_copy project_points helper
      eye3 eye3 (0, 0, 1) 1 2 (128, 128)%nat moved_recording
    = (s', Ok patches) /\
    length patches = (length moved_recording - 2)%nat /\
    length s' = length moved_recording.
Proof.
  intros helper.
  assert (Hlen : forall pts M, length (project_points pts M) = length pts).
  { intros pts M. unfold project_points. apply length_fmap. }
  assert (Hreturns : forall K' R_rel T_rel n d,
            exists M, helper K' R_rel T_rel n d = Ok M).
  { intros. by exists eye3. }
  split_and!; [exact Hlen|exact Hreturns|].
  exact (ComputeVicRegData_never_raises warp_copy resize_copy project_points
           helper eye3 eye3 (0, 0, 1) 1 2 (128, 128)%nat moved_recording
           Hlen Hreturns).
Defined.

(** ** The model chessboard of homography.py *)

(** X18. The model chessboard is symmetric about the origin: it has
    [rows * cols] points, and the point written at [row * cols + col] is
    the opposite of the one found as far from the end of the array, at
    [rows * cols - 1 - (row * cols + col)]. *)
Theorem compute_model_chessboard_point_symmetric (rows cols row col : nat) :
  (row < rows)%nat -> (col < cols)%nat ->
  let mc := Homography.compute_model_chessboard rows cols in
  let i := (row * cols + col)%nat in
  length mc = (rows * cols)%nat /\
  exists p,
    mc !! i = Some p /\
    mc !! (rows * cols - 1 - i)%nat = Some (- p.1, - p.2).
Proof.
  intros Hrow Hcol mc i. unfold mc, i.
  rewrite compute_model_chessboard_grid.
  split; [apply length_centred_grid|].
  exists (centred_point (INR rows / 2) (INR cols / 2) row col).
  split; [by apply lookup_centred_grid|].
  replace (rows * cols - 1 - (row * cols + col))%nat
    with ((rows - 1 - row) * cols + (cols - 1 - col))%nat by nia.
  rewrite lookup_centred_grid by lia. f_equal.
  unfold centred_point. cbn [fst snd].
  rewrite !minus_INR by lia. change (INR 1) with 1.
  apply f_equal2; lra.
Qed.

Lemma compute_model_chessboard_point_symmetric_witness :
  let mc := Homography.compute_model_chessboard 2 3 in
  (1 < 2)%nat /\ (0 < 3)%nat /\
  length mc = 6%nat /\
  exists p,
    mc !! (1 * 3 + 0)%nat = Some p /\
    mc !! (2 * 3 - 1 - (1 * 3 + 0))%nat = Some (- p.1, - p.2).
Proof.
  intros mc.
  assert (Hrow : (1 < 2)%nat) by lia.
  assert (Hcol : (0 < 3)%nat) by lia.
  split_and!; [exact Hrow|exact Hcol|..];
    apply (compute_model_chessboard_point_symmetric 2 3 1 0 Hrow Hcol).
Defined.

(** ** A calibration that succeeds *)

Lemma np_int_floor (x : R) :
  0 <= x -> (0 <= np_int x)%Z /\ IZR (np_int x) <= x < IZR (np_int x) + 1.
Proof.
  intros Hx. unfold np_int. destruct (Rle_dec 0 x) as [_|?]; [|done].
  destruct (base_Int_part x) as [Hle Hgt]. split; [|lra].
  apply le_IZR. assert (-1 < IZR (Int_part x)) by lra.
  assert (Hlt : (-1 < Int_part x)%Z) by (by apply lt_IZR).
  apply IZR_le. lia.
Qed.

Section InitReturns.

Variable cvtColor_BGR2GRAY : Image -> list (list Z).
Variable findChessboardCorners :
  list (list Z) -> nat * nat -> bool * option (list (R * R)).
Variable findHomography : list (R * R) -> list (R * R) -> Mat3.
Variable camera_config : result CameraIntrinsics.t.
Variable decompose_homography : Mat3 -> Mat3 -> result (Mat4 * Vec3 * R).
Variable compute_model_chessboard_3d :
  nat -> nat -> Z -> bool -> list (R * R * R * R).
Variable cart_to_hom : list (R * R) -> list Vec3.
Variable hom_to_cart : list Vec3 -> list (R * R).

(** X19. What a successful construction stores.  The corners are the
    detected ones; the tile width is the estimate of
    [chessboard_tile_width] truncated to an integer -- non-negative, at
    most the estimate and less than one below it; the homography is
    fitted from the model chessboard of that truncated width; and the
    rigid transform and the plane come from decomposing that homography
    with the calibration matrix of the configuration. *)
Theorem init_stores (image : Image) (cb_rows cb_cols : nat)
    (obj : HomographyFromChessboardImage.t) :
  HomographyFromChessboardImage.init cvtColor_BGR2GRAY findChessboardCorners
    findHomography camera_config decompose_homography
    compute_model_chessboard_3d cart_to_hom hom_to_cart
    image cb_rows cb_cols
  = Ok obj ->
  let corners := HomographyFromChessboardImage.corners obj in
  let width := HomographyFromChessboardImage.cb_tile_width obj in
  exists ret w config K_inv,
    findChessboardCorners (cvtColor_BGR2GRAY image) (cb_cols, cb_rows)
      = (ret, Some corners) /\
    HomographyFromChessboardImage.chessboard_tile_width corners cb_cols
      = Ok w /\
    (0 <= width)%Z /\ IZR width <= w < IZR width + 1 /\
    HomographyFromChessboardImage.H obj
      = findHomography
          (compute_model_chessboard_2d cb_rows cb_cols (IZR width) true)
          corners /\
    camera_config = Ok config /\
    CameraIntrinsics.get_camera_calibration_matrix config
      = Ok (HomographyFromChessboardImage.K obj, K_inv) /\
    decompose_homography (HomographyFromChessboardImage.H obj)
                         (HomographyFromChessboardImage.K obj)
      = Ok (HomographyFromChessboardImage.RT obj,
            HomographyFromChessboardImage.plane_normal obj,
            HomographyFromChessboardImage.plane_distance obj).
Proof.
  unfold HomographyFromChessboardImage.init.
  destruct (findChessboardCorners _ _) as [ret [c|]]; [|done].
  cbn [mbind result_bind].
  destruct (HomographyFromChessboardImage.chessboard_tile_width c cb_cols)
    as [w|e] eqn:Hw; [|done].
  cbn [fmap result_fmap mbind result_bind].
  destruct camera_config as [config|e]; [|done].
  cbn [mbind result_bind].
  destruct (CameraIntrinsics.get_camera_calibration_matrix config)
    as [[K K_inv]|e] eqn:HK; [|done].
  cbn [mbind result_bind].
  destruct (decompose_homography _ K) as [[[RT n] d]|e] eqn:HRT; [|done].
  cbn [mbind result_bind]. intros [= <-].
  cbn [HomographyFromChessboardImage.corners
       HomographyFromChessboardImage.cb_tile_width
       HomographyFromChessboardImage.H HomographyFromChessboardImage.K
       HomographyFromChessboardImage.RT
       HomographyFromChessboardImage.plane_normal
       HomographyFromChessboardImage.plane_distance].
  exists ret, w, config, K_inv.
  assert (Hpos : 0 <= w).
  { unfold HomographyFromChessboardImage.chessboard_tile_width in Hw.
    destruct (decide (cb_cols = 0%nat)); [done|]. injection Hw as <-.
    rewrite fold_row_tile_width_Rmax. apply fold_left_Rmax_init. }
  destruct (np_int_floor w Hpos) as [Hz [Hle Hlt]].
  split_and!; done.
Qed.

End InitReturns.

(** A board of one row of two corners 5 pixels apart, a camera of unit
    focal lengths, and a decomposition that hands back the identity. *)
Lemma init_example :
  exists obj,
    HomographyFromChessboardImage.init (map (map gray_mean))
      (fun _ _ => (true, Some [(0, 0); (3, 4)]))
      (fun _ _ => eye3) (Ok (CameraIntrinsics.mk 1 1 0 0))
      (fun _ _ => Ok (eye4, (0, 0, 1), 1)) (fun _ _ _ _ => [])
      (fun _ => []) (fun _ => []) black_image 1 2
    = Ok obj.
Proof.
  unfold HomographyFromChessboardImage.init,
    HomographyFromChessboardImage.chessboard_tile_width,
    CameraIntrinsics.get_camera_calibration_matrix, np_linalg_inv.
  destruct (decide (2%nat = 0%nat)); [done|].
  cbn [mbind result_bind fmap result_fmap].
  destruct (Req_dec_T _ 0) as [Hdet|_]; [cbn in Hdet; lra|].
  cbn [mbind result_bind]. eexists. reflexivity.
Qed.

Lemma init_stores_witness :
  exists obj,
    HomographyFromChessboardImage.init (map (map gray_mean))
      (fun _ _ => (true, Some [(0, 0); (3, 4)]))
      (fun _ _ => eye3) (Ok (CameraIntrinsics.mk 1 1 0 0))
      (fun _ _ => Ok (eye4, (0, 0, 1), 1)) (fun _ _ _ _ => [])
      (fun _ => []) (fun _ => []) black_image 1 2
    = Ok obj /\
    exists w,
      HomographyFromChessboardImage.chessboard_tile_width
        (HomographyFromChessboardImage.corners obj) 2 = Ok w /\
      (0 <= HomographyFromChessboardImage.cb_tile_width obj)%Z /\
      IZR (HomographyFromChessboardImage.cb_tile_width obj) <= w
        < IZR (HomographyFromChessboardImage.cb_tile_width obj) + 1.
Proof.
  destruct init_example as [obj Hobj]. exists obj. split; [exact Hobj|].
  destruct (init_stores _ _ _ _ _ _ _ _ _ _ _ _ Hobj)
    as (ret & w & config & K_inv & _ & Hw & Hz & Hfloor & _).
  exists w. exact (conj Hw (conj Hz Hfloor)).
Defined.

(** ** The frame the decomposition starts from *)

Lemma matvec_vscale (M : Mat3) (c : R) (v : Vec3) :
  matvec M (vscale c v) = vscale c (matvec M v).
Proof. destruct_mat M. destruct_vec v. array_eq ring. Qed.

Lemma matvec_matmul (A B : Mat3) (v : Vec3) :
  matvec A (matvec B v) = matvec (A @@ B) v.
Proof. destruct_mat A. destruct_mat B. destruct_vec v. array_eq ring. Qed.

Lemma matvec_eye3 (v : Vec3) : matvec eye3 v = v.
Proof. destruct_vec v. array_eq ring. Qed.

Lemma vscale_vscale (a b : R) (v : Vec3) :
  vscale a (vscale b v) = vscale (a * b) v.
Proof. destruct_vec v. array_eq ring. Qed.

Lemma transpose_mscale (c : R) (M : Mat3) :
  transpose (mscale c M) = mscale c (transpose M).
Proof. by destruct_mat M. Qed.

Lemma norm_pos (v : Vec3) : v <> (0, 0, 0) -> 0 < norm v.
Proof. intros Hv. by apply sqrt_lt_R0, dot_self_pos. Qed.

Lemma norm_vscale (c : R) (v : Vec3) :
  0 <= c -> norm (vscale c v) = c * norm v.
Proof.
  intros Hc. unfold norm. rewrite dot_vscale.
  rewrite sqrt_mult; [|nra|apply dot_self_nonneg].
  by rewrite sqrt_square.
Qed.

Lemma dot_cross_l (u v : Vec3) : dot (cross u v) u = 0.
Proof. destruct_vec u. destruct_vec v. cbn. ring. Qed.

Lemma dot_cross_r (u v : Vec3) : dot (cross u v) v = 0.
Proof. destruct_vec u. destruct_vec v. cbn. ring. Qed.

Section DecomposeFrame.

Variable svd : Mat3 -> Mat3 * Vec3 * Mat3.

(** X20. A homography is known up to scale, and the decomposition does
    not depend on it: when the first column of [H] is not sent to zero
    by [K_inv], scaling [H] by a positive factor changes neither the
    rotation nor the translation returned. *)
Theorem decompose_homography_scale_invariant (H K_inv : Mat3) (c : R) :
  0 < c ->
  matvec K_inv (transpose H).1.1 <> (0, 0, 0) ->
  Homography.decompose_homography_return_rt svd (mscale c H) K_inv
  = Homography.decompose_homography_return_rt svd H K_inv.
Proof.
  intros Hc Hh1.
  assert (Hframe : Homography.scaled_frame (mscale c H) K_inv
                   = Homography.scaled_frame H K_inv).
  { unfold Homography.scaled_frame. rewrite transpose_mscale.
    destruct (transpose H) as [[h1 h2] h3]. cbn [fst mscale] in *.
    rewrite !matvec_vscale, norm_vscale by lra.
    pose proof (norm_pos _ Hh1) as Hn.
    set (a := matvec K_inv h1) in *. set (n := norm a) in *.
    rewrite !vscale_vscale.
    replace (1 / (c * n) * c) with (1 / n) by (field; lra).
    reflexivity. }
  unfold Homography.decompose_homography_return_rt. by rewrite Hframe.
Qed.

(** X21. The frame handed to the singular value decomposition, and the
    translation returned.  When [K_inv] is a right inverse of [K] and
    does not send the first column of [H] to zero: the first row of the
    frame has norm 1, its third row is orthogonal to the first two, and
    [K] sends the first two rows and the returned translation back to
    the columns of [H], scaled by [L = 1 / |K_inv h1|]. *)
Theorem decompose_homography_frame (H K K_inv : Mat3) :
  K @@ K_inv = eye3 ->
  matvec K_inv (transpose H).1.1 <> (0, 0, 0) ->
  let '(h1, h2, h3) := transpose H in
  let '(r1, r2, r3) := (Homography.scaled_frame H K_inv).1 in
  let T := trans (Homography.decompose_homography_return_rt svd H K_inv) in
  let L := 1 / norm (matvec K_inv h1) in
  norm r1 = 1 /\ dot r3 r1 = 0 /\ dot r3 r2 = 0 /\
  matvec K r1 = vscale L h1 /\
  matvec K r2 = vscale L h2 /\
  matvec K T = vscale L h3.
Proof.
  intros HK Hh1.
  unfold Homography.decompose_homography_return_rt, Homography.scaled_frame.
  destruct (transpose H) as [[h1 h2] h3]. cbn [fst] in *.
  destruct (svd _) as [[U S_] V]. cbn [trans set_trans set_rot eye4].
  pose proof (norm_pos _ Hh1) as Hn.
  assert (Hback : forall h,
            matvec K (vscale (1 / norm (matvec K_inv h1)) (matvec K_inv h))
            = vscale (1 / norm (matvec K_inv h1)) h).
  { intros h. by rewrite matvec_vscale, matvec_matmul, HK, matvec_eye3. }
  split_and!; [|apply dot_cross_l|apply dot_cross_r|apply Hback..].
  rewrite norm_vscale by (apply Rlt_le, Rdiv_lt_0_compat; lra).
  field. lra.
Qed.

End DecomposeFrame.

Lemma decompose_homography_scale_invariant_witness :
  let H : Mat3 := ((2, 0, 0), (0, 2, 0), (0, 0, 1)) in
  let K_inv : Mat3 := ((1 / 2, 0, 0), (0, 1 / 2, 0), (0, 0, 1)) in
  let svd := fun _ : Mat3 => (eye3, (1, 1, 1), eye3) in
  0 < 3 /\ matvec K_inv (transpose H).1.1 <> (0, 0, 0) /\
  Homography.decompose_homography_return_rt svd (mscale 3 H) K_inv
  = Homography.decompose_homography_return_rt svd H K_inv.
Proof.
  intros H K_inv svd.
  assert (Hc : 0 < 3) by lra.
  assert (Hh1 : matvec K_inv (transpose H).1.1 <> (0, 0, 0)).
  { cbn. intros [= Hx]. lra. }
  split_and!; [exact Hc|exact Hh1|].
  exact (decompose_homography_scale_invariant svd H K_inv 3 Hc Hh1).
Defined.

Lemma decompose_homography_frame_witness :
  let H : Mat3 := ((2, 0, 0), (0, 2, 0), (0, 0, 1)) in
  let K : Mat3 := ((2, 0, 0), (0, 2, 0), (0, 0, 1)) in
  let K_inv : Mat3 := ((1 / 2, 0, 0), (0, 1 / 2, 0), (0, 0, 1)) in
  let svd := fun _ : Mat3 => (eye3, (1, 1, 1), eye3) in
  let T := trans (Homography.decompose_homography_return_rt svd H K_inv) in
  K @@ K_inv = eye3 /\ matvec K_inv (transpose H).1.1 <> (0, 0, 0) /\
  matvec K T = vscale (1 / norm (matvec K_inv (2, 0, 0))) (0, 0, 1).
Proof.
  intros H K K_inv svd T.
  assert (HK : K @@ K_inv = eye3) by (unfold K, K_inv; array_eq field).
  assert (Hh1 : matvec K_inv (transpose H).1.1 <> (0, 0, 0)).
  { cbn. intros [= Hx]. lra. }
  split_and!; [exact HK|exact Hh1|].
  exact (proj2 (proj2 (proj2 (proj2 (proj2
           (decompose_homography_frame svd H K K_inv HK Hh1)))))).
Defined.

(** ** The mosaic, row by row *)

Section MosaicRows.

Variable warpPerspective : Image -> Mat3 -> nat * nat -> Image.
Variable resize : Image -> nat * nat -> Image.
Variable hconcat : list Image -> Image.
Variable vconcat : list Image -> Image.

(** X22. The mosaic is put together row by row: cutting the flat list
    of patches every [len(shift_x)] entries gives back the rows of the
    nested loop, so the stitched image is the vertical concatenation,
    over the vertical shifts in the order of [shift_y], of the
    horizontal concatenation of the patches of that vertical shift, in
    the order of [shift_x].  Both orders are descending: the 12 vertical
    shifts run from 1152 down to -256, the 14 horizontal ones from 896
    down to -768. *)
Theorem stitch_row_by_row (img : Image) (H : Mat3) (patch_size : nat * nat) :
  HomographyFromChessboardImage.stitch warpPerspective resize hconcat
    vconcat img H patch_size
  = vconcat
      ((fun sy =>
          hconcat
            ((fun sx =>
                HomographyFromChessboardImage.process_patch warpPerspective
                  resize img H patch_size (sx, sy))
               <$> HomographyFromChessboardImage.shift_x))
         <$> HomographyFromChessboardImage.shift_y) /\
  HomographyFromChessboardImage.shift_y
  = [1152; 1024; 896; 768; 640; 512; 384; 256; 128; 0; -128; -256]%Z /\
  HomographyFromChessboardImage.shift_x
  = [896; 768; 640; 512; 384; 256; 128; 0;
     -128; -256; -384; -512; -640; -768]%Z.
Proof.
  split_and!; reflexivity.
Qed.

End MosaicRows.

(** ** The grid of patches *)

Lemma math_ceil_pos (x : R) : 0 < x -> (0 < math_ceil x)%Z.
Proof.
  intros Hx. unfold math_ceil.
  destruct (base_Int_part (- x)) as [Hle _].
  assert (Hlt : IZR (Int_part (- x)) < 0) by lra.
  apply lt_IZR in Hlt. lia.
Qed.

(** X23. The grid of patches is never made from the patch list of a
    timestep.  Whatever the list of colour rasters and the grid size,
    the dimensions of lines 100-109 raise: [patches[0][0]] is a row of
    the first raster, its shape has two entries, and unpacking it into
    three names is a [ValueError]; a list of one patch does not get that
    far, its grid of zero columns dividing by zero. *)
Theorem stitch_patches_in_grid_raises (patches : list Image)
    (grid_size : option (Z * Z)) :
  (forall dims, stitch_patches_in_grid_dimensions patches grid_size
                <> Ok dims) /\
  (forall patch, patches = [patch] ->
     stitch_patches_in_grid_dimensions patches None
     = Raise "ZeroDivisionError") /\
  (forall row rows second rest, patches = (row :: rows) :: second :: rest ->
     stitch_patches_in_grid_dimensions patches grid_size
     = Raise "ValueError").
Proof.
  split_and!.
  - intros dims. unfold stitch_patches_in_grid_dimensions.
    destruct (match grid_size with Some _ => _ | None => _ end)
      as [[grid_rows grid_cols]|e]; [|done].
    cbn [mbind result_bind].
    destruct (patches !! 0%nat) as [first_patch|]; [|done].
    cbn [mbind result_bind].
    destruct (first_patch !! 0%nat) as [first_row|]; done.
  - intros patch ->. unfold stitch_patches_in_grid_dimensions, math_sqrt.
    cbn [length]. change (Z.of_nat 1 - 1)%Z with 0%Z.
    destruct (Rlt_dec 0 0) as [?|_]; [lra|].
    cbn [mbind result_bind]. rewrite sqrt_0.
    assert (Hceil : math_ceil 0 = 0%Z).
    { unfold math_ceil. rewrite Ropp_0. change 0 with (IZR 0).
      unfold Int_part. rewrite up_IZR. lia. }
    rewrite Hceil. cbn. reflexivity.
  - intros row rows second rest ->.
    unfold stitch_patches_in_grid_dimensions.
    destruct grid_size as [[grid_rows grid_cols]|]; [reflexivity|].
    unfold math_sqrt.
    set (n := (Z.of_nat _ - 1)%Z).
    assert (Hn : (1 <= n)%Z) by (unfold n; cbn [length]; lia).
    assert (HnR : 1 <= IZR n) by (by apply IZR_le).
    destruct (Rlt_dec (IZR n) 0) as [?|_]; [lra|].
    cbn [mbind result_bind].
    pose proof (math_ceil_pos (sqrt (IZR n))) as Hcols.
    destruct (decide (math_ceil (sqrt (IZR n)) = 0%Z)) as [Hzero|_].
    { rewrite Hzero in Hcols.
      assert (0 < 0)%Z by (apply Hcols, sqrt_lt_R0; lra). lia. }
    reflexivity.
Qed.

Lemma stitch_patches_in_grid_raises_witness :
  stitch_patches_in_grid_dimensions [black_patch] None
    = Raise "ZeroDivisionError" /\
  stitch_patches_in_grid_dimensions [black_patch; half_patch] None
    = Raise "ValueError".
Proof.
  destruct (stitch_patches_in_grid_raises [black_patch] None)
    as (_ & Hone & _).
  destruct (stitch_patches_in_grid_raises [black_patch; half_patch] None)
    as (_ & _ & Htwo).
  split; [exact (Hone black_patch eq_refl)|].
  exact (Htwo _ _ _ _ eq_refl).
Defined.

(** ** The bounding box of a past patch *)

Lemma fold_left_Rmin_init (ds : list R) (w : R) : fold_left Rmin ds w <= w.
Proof.
  revert w. induction ds as [|d ds IH]; intros w; cbn [fold_left]; [lra|].
  etrans; [apply IH|]. apply Rmin_l.
Qed.

Lemma fold_left_Rmin_bound (ds : list R) (w d : R) :
  d ∈ ds -> fold_left Rmin ds w <= d.
Proof.
  revert w. induction ds as [|d' ds IH]; intros w Hd; cbn [fold_left].
  - by apply elem_of_nil in Hd.
  - apply elem_of_cons in Hd as [->|Hd]; [|by apply IH].
    etrans; [apply fold_left_Rmin_init|]. apply Rmin_r.
Qed.

Lemma np_min_bound (xs : list R) (m x : R) :
  np_min xs = Ok m -> x ∈ xs -> m <= x.
Proof.
  destruct xs as [|x0 xs]; [done|]. intros [= <-] Hx.
  apply elem_of_cons in Hx as [->|Hx];
    [apply fold_left_Rmin_init|by apply fold_left_Rmin_bound].
Qed.

Lemma np_max_bound (xs : list R) (m x : R) :
  np_max xs = Ok m -> x ∈ xs -> x <= m.
Proof.
  destruct xs as [|x0 xs]; [done|]. intros [= <-] Hx.
  apply elem_of_cons in Hx as [->|Hx];
    [apply fold_left_Rmax_init|by apply fold_left_Rmax_bound].
Qed.

(** [int] moves a float by less than one, towards zero. *)
Lemma np_int_near (x : R) : x - 1 < IZR (np_int x) < x + 1.
Proof.
  unfold np_int. destruct (Rle_dec 0 x) as [_|_].
  - destruct (base_Int_part x). lra.
  - rewrite opp_IZR. destruct (base_Int_part (- x)). lra.
Qed.

Lemma np_int_mono (x y : R) : x <= y -> (np_int x <= np_int y)%Z.
Proof.
  intros Hxy. unfold np_int.
  destruct (Rle_dec 0 x) as [Hx|Hx], (Rle_dec 0 y) as [Hy|Hy].
  - destruct (base_Int_part x), (base_Int_part y).
    assert (Hlt : IZR (Int_part x) < IZR (Int_part y + 1))
      by (rewrite plus_IZR; lra).
    apply lt_IZR in Hlt. lia.
  - lra.
  - destruct (base_Int_part (- x)), (base_Int_part y).
    assert (Hx' : -1 < IZR (Int_part (- x))) by lra.
    assert (Hy' : -1 < IZR (Int_part y)) by lra.
    apply lt_IZR in Hx', Hy'. lia.
  - destruct (base_Int_part (- x)), (base_Int_part (- y)).
    assert (Hlt : IZR (Int_part (- y)) < IZR (Int_part (- x) + 1))
      by (rewrite plus_IZR; lra).
    apply lt_IZR in Hlt. lia.
Qed.

Section PastBoundingBox.

Variable perspectiveTransform : list (R * R) -> Mat3 -> list (R * R).

(** X24. The bounding box of lines 60-73.  If the perspective transform
    hands back no point, [np.min] raises [ValueError].  Otherwise a box
    is returned; it is never inside out, and, its bounds being
    truncated towards zero, every transformed corner lies less than one
    pixel outside it at most. *)
Theorem past_bounding_box_bounds (patch_size : nat * nat) (M : Mat3) :
  let transformed_corners :=
    perspectiveTransform
      [(0, 0); (INR patch_size.1, 0);
       (INR patch_size.1, INR patch_size.2); (0, INR patch_size.2)] M in
  (transformed_corners = [] ->
   past_bounding_box perspectiveTransform patch_size M
   = Raise "ValueError") /\
  (transformed_corners <> [] ->
   exists bbox,
     past_bounding_box perspectiveTransform patch_size M = Ok bbox /\
     (BBox.xmin bbox <= BBox.xmax bbox)%Z /\
     (BBox.ymin bbox <= BBox.ymax bbox)%Z /\
     forall p, p ∈ transformed_corners ->
       IZR (BBox.xmin bbox) - 1 < p.1 < IZR (BBox.xmax bbox) + 1 /\
       IZR (BBox.ymin bbox) - 1 < p.2 < IZR (BBox.ymax bbox) + 1).
Proof.
  intros pts. unfold past_bounding_box. fold pts.
  split; [by intros ->|]. intros Hne.
  destruct pts as [|p0 pts']; [done|]. set (pts := p0 :: pts').
  destruct (np_min (fst <$> pts)) as [x_min|] eqn:Hxmin; [|done].
  destruct (np_min (snd <$> pts)) as [y_min|] eqn:Hymin; [|done].
  destruct (np_max (fst <$> pts)) as [x_max|] eqn:Hxmax; [|done].
  destruct (np_max (snd <$> pts)) as [y_max|] eqn:Hymax; [|done].
  cbn [fmap result_fmap mbind result_bind].
  eexists. split; [reflexivity|]. cbn [BBox.xmin BBox.ymin BBox.xmax BBox.ymax].
  assert (Hin : forall p, p ∈ pts ->
            x_min <= p.1 <= x_max /\ y_min <= p.2 <= y_max).
  { intros p Hp.
    pose proof (list_elem_of_fmap_2 fst _ _ Hp) as Hp1.
    pose proof (list_elem_of_fmap_2 snd _ _ Hp) as Hp2.
    pose proof (np_min_bound _ _ _ Hxmin Hp1).
    pose proof (np_max_bound _ _ _ Hxmax Hp1).
    pose proof (np_min_bound _ _ _ Hymin Hp2).
    pose proof (np_max_bound _ _ _ Hymax Hp2). lra. }
  destruct (Hin p0) as [Hx0 Hy0]; [by left|].
  split_and!.
  - apply np_int_mono. lra.
  - apply np_int_mono. lra.
  - intros p Hp. destruct (Hin p Hp) as [Hx Hy].
    pose proof (np_int_near x_min). pose proof (np_int_near x_max).
    pose proof (np_int_near y_min). pose proof (np_int_near y_max).
    lra.
Qed.

End PastBoundingBox.

Lemma past_bounding_box_bounds_witness :
  let M : Mat3 := ((1, 0, 1000), (0, 1, 0), (0, 0, 1)) in
  let corners : list (R * R) :=
    [(0, 0); (INR 128, 0); (INR 128, INR 128); (0, INR 128)] in
  project_points corners M <> [] /\
  exists bbox,
    past_bounding_box project_points (128, 128)%nat M = Ok bbox /\
    (BBox.xmin bbox <= BBox.xmax bbox)%Z /\
    (BBox.ymin bbox <= BBox.ymax bbox)%Z.
Proof.
  intros M corners.
  assert (Hne : project_points corners M <> []) by done.
  split; [exact Hne|].
  destruct (proj2 (past_bounding_box_bounds project_points (128, 128)%nat M)
              Hne) as (bbox & Hbbox & Hx & Hy & _).
  exists bbox. exact (conj Hbbox (conj Hx Hy)).
Defined.
